(** * Verification of the mail_service library

    A shallow embedding of the text pipeline of [src/lib]:
    - [naver_mail_parser.py]: filename sanitising, attachment saving,
      text extraction, body/attachment assembly, searching and listing;
    - [text_summarizer.py]: chunking by tokens, compression ratio, the
      splitting of a combined text into body and attachment texts, the
      call of the language model;
    - [naver_smtp_with_attachments.py]: attaching files and sending;
    - [naver_mail_suite.py]: the fetch, summarize, send workflow, the
      recipients given as a string, the batch processor;
    and of the list of messages of [src/app.py].

    Python strings are sequences of Unicode code points, modelled as
    [list N].  Calls that leave the program (IMAP, SMTP, the document
    libraries, the tokenizer, the language model) are parameters: fields
    of an environment record or section variables. *)

From Stdlib Require Import NArith ZArith QArith List Lia Ascii String Bool.
From Stdlib Require Import DecimalNat.
From stdpp Require Import base option list gmap.
Import ListNotations.

Open Scope N_scope.

(** ** Python strings *)

Module PyStr.

Abbreviation char := N.
Abbreviation str := (list N).

(** Code points of a UTF-8 encoded literal of this file. *)
Fixpoint utf8_points (bs : list N) : str :=
  match bs with
  | [] => []
  | b :: r =>
      if b <? 128 then b :: utf8_points r
      else if b <? 224 then
        match r with
        | c1 :: r' => ((b - 192) * 64 + (c1 - 128)) :: utf8_points r'
        | _ => []
        end
      else if b <? 240 then
        match r with
        | c1 :: c2 :: r' =>
            ((b - 224) * 4096 + (c1 - 128) * 64 + (c2 - 128)) :: utf8_points r'
        | _ => []
        end
      else
        match r with
        | c1 :: c2 :: c3 :: r' =>
            ((b - 240) * 262144 + (c1 - 128) * 4096 + (c2 - 128) * 64 + (c3 - 128))
              :: utf8_points r'
        | _ => []
        end
  end.

Definition lit (s : string) : str :=
  utf8_points (List.map N_of_ascii (list_ascii_of_string s)).
Arguments lit s%_string.

Definition NL : char := 10.
Definition TAB : char := 9.
Definition SPACE : char := 32.
Definition UNDERSCORE : char := 95.
Definition DOT : char := 46.
Definition SLASH : char := 47.

(** [str.isspace] on one code point: the white space [str.strip()] removes. *)
Definition is_space (c : char) : bool :=
  ((9 <=? c) && (c <=? 13)) || ((28 <=? c) && (c <=? 32))
  || (c =? 133) || (c =? 160) || (c =? 5760)
  || ((8192 <=? c) && (c <=? 8202))
  || (c =? 8232) || (c =? 8233) || (c =? 8239) || (c =? 8287) || (c =? 12288).

Fixpoint lstrip (s : str) : str :=
  match s with
  | [] => []
  | c :: r => if is_space c then lstrip r else s
  end.

Definition rstrip (s : str) : str := rev (lstrip (rev s)).

(** [s.strip()] *)
Definition strip (s : str) : str := rstrip (lstrip s).

Fixpoint str_eqb (a b : str) : bool :=
  match a, b with
  | [], [] => true
  | x :: a', y :: b' => (x =? y) && str_eqb a' b'
  | _, _ => false
  end.

(** [s.startswith(p)] *)
Fixpoint startswith (p s : str) : bool :=
  match p, s with
  | [], _ => true
  | x :: p', y :: s' => (x =? y) && startswith p' s'
  | _ :: _, [] => false
  end.

(** The leftmost occurrence of [sep] in [s]: the text before it and the
    text after it ([s.partition(sep)] without the middle component). *)
Fixpoint find_sub (sep s : str) : option (str * str) :=
  if startswith sep s then Some ([], drop (length sep) s)
  else
    match s with
    | [] => None
    | c :: r =>
        match find_sub sep r with
        | Some (b, a) => Some (c :: b, a)
        | None => None
        end
    end.

(** [sub in s] *)
Definition contains (sub s : str) : bool :=
  match find_sub sub s with Some _ => true | None => false end.

(** [s.split(sep, n)] for a non-empty [sep]: at most [n] cuts, leftmost
    first. *)
Fixpoint split_max (n : nat) (sep s : str) : list str :=
  match n with
  | O => [s]
  | S n' =>
      match find_sub sep s with
      | None => [s]
      | Some (b, a) => b :: split_max n' sep a
      end
  end.

(** [s.split(sep)] for a non-empty [sep]: every cut removes at least one
    character, so [length s] cuts are never exceeded. *)
Definition split (sep s : str) : list str := split_max (length s) sep s.

(** [sep.join(l)] *)
Fixpoint join (sep : str) (l : list str) : str :=
  match l with
  | [] => []
  | [x] => x
  | x :: r => x ++ sep ++ join sep r
  end.

(** [s.replace(old, new)] for a non-empty [old]: the pieces between the
    leftmost non-overlapping occurrences of [old], glued with [new]. *)
Definition replace (old new s : str) : str := join new (split old s).

(** [s[:n]] with Python's reading of a negative bound. *)
Definition slice_to (n : Z) (s : str) : str :=
  if (0 <=? n)%Z then take (Z.to_nat n) s
  else take (length s - Z.to_nat (- n)) s.

(** [s.rfind(c)] for a one-character [c]: the last index, or -1. *)
Fixpoint rfind_from (c : char) (s : str) (i acc : Z) : Z :=
  match s with
  | [] => acc
  | x :: r => rfind_from c r (i + 1)%Z (if x =? c then i else acc)
  end.

Definition rfind (c : char) (s : str) : Z := rfind_from c s 0%Z (-1)%Z.

Fixpoint uint_digits (d : Decimal.uint) : str :=
  match d with
  | Decimal.Nil => []
  | Decimal.D0 d => 48 :: uint_digits d
  | Decimal.D1 d => 49 :: uint_digits d
  | Decimal.D2 d => 50 :: uint_digits d
  | Decimal.D3 d => 51 :: uint_digits d
  | Decimal.D4 d => 52 :: uint_digits d
  | Decimal.D5 d => 53 :: uint_digits d
  | Decimal.D6 d => 54 :: uint_digits d
  | Decimal.D7 d => 55 :: uint_digits d
  | Decimal.D8 d => 56 :: uint_digits d
  | Decimal.D9 d => 57 :: uint_digits d
  end.

(** [str(n)] for a natural number. *)
Definition str_of_nat (n : nat) : str := uint_digits (Nat.to_uint n).

(** [s.lower()] restricted to the letters A to Z. *)
Definition ascii_lower (s : str) : str :=
  List.map (fun c => if (65 <=? c) && (c <=? 90) then c + 32 else c) s.

End PyStr.

Import PyStr.

(** ** os.path (POSIX flavour) *)

Module OsPath.

(** [os.path.splitext]: [genericpath._splitext] with separator [/] and
    extension separator [.]; leading dots of the last component do not
    start an extension. *)
Definition splitext (p : str) : str * str :=
  let sepIndex := rfind SLASH p in
  let dotIndex := rfind DOT p in
  if (sepIndex <? dotIndex)%Z then
    let stem := take (Z.to_nat (dotIndex - (sepIndex + 1)))
                     (drop (Z.to_nat (sepIndex + 1)) p) in
    if existsb (fun c => negb (c =? DOT)) stem
    then (take (Z.to_nat dotIndex) p, drop (Z.to_nat dotIndex) p)
    else (p, [])
  else (p, []).

(** [str(Path(folder) / name)] for a folder already in normal form and a
    name without separator: an empty name and [.] are dropped by pathlib. *)
Definition path_join (folder name : str) : str :=
  if str_eqb name [] || str_eqb name [DOT] then folder
  else folder ++ [SLASH] ++ name.

(** [Path(p).name] for a path in normal form: what follows the last [/]. *)
Definition path_name (p : str) : str :=
  drop (Z.to_nat (rfind SLASH p + 1)) p.

End OsPath.

Import OsPath.

(** ** Exceptions

    Only subclasses of [Exception] are modelled: every [except Exception]
    of the source catches each of them. *)

Inductive exn_class :=
| UnicodeDecodeError
| ZeroDivisionError
| SMTPAuthenticationError
| SMTPRecipientsRefused
| OtherError.

Record exn := Exn { exn_kind : exn_class; exn_text : str }.

Inductive outcome (A : Type) :=
| Returned (a : A)
| Raised (e : exn).
Arguments Returned {A} a.
Arguments Raised {A} e.

#[global] Instance outcome_ret : MRet outcome := @Returned.
#[global] Instance outcome_bind : MBind outcome :=
  fun A B f m => match m with Returned a => f a | Raised e => Raised e end.

(** [try: m  except Exception as e: h e] *)
Definition try_except {A} (m : outcome A) (h : exn -> outcome A) : outcome A :=
  match m with Returned a => Returned a | Raised e => h e end.

Definition is_unicode_decode_error (e : exn) : bool :=
  match exn_kind e with UnicodeDecodeError => true | _ => false end.

(** ** The file system

    Paths are strings in normal form; a node is a directory or a file with
    its content (code points for text files, bytes for binary ones).  A
    path is looked up as it is written: a last component [..] is not
    resolved to the parent of a folder, the limits an operating system
    puts on file names are not modelled, and a folder is made whether or
    not its parent exists.  The statements that name the path of a new
    file say which names they are about, and those about a saved
    attachment are stated for the calls that return a record. *)

Inductive fnode :=
| Dir
| File (content : list N).

Abbreviation filesystem := (gmap str fnode).

Definition fs_exists (fs : filesystem) (p : str) : bool :=
  match fs !! p with Some _ => true | None => false end.

(** [Path(p).mkdir(exist_ok=True)] *)
Definition fs_mkdir (fs : filesystem) (p : str) : outcome filesystem :=
  match fs !! p with
  | None => Returned (<[p := Dir]> fs)
  | Some Dir => Returned fs
  | Some (File _) => Raised (Exn OtherError (lit "File exists"))
  end.

(** [open(p, 'w').write(c)] *)
Definition fs_write (fs : filesystem) (p : str) (c : list N) : outcome filesystem :=
  match fs !! p with
  | Some Dir => Raised (Exn OtherError (lit "Is a directory"))
  | _ => Returned (<[p := File c]> fs)
  end.

(** ** naver_mail_parser.py *)

Module Parser.

(** The characters of the class of the regular expression: less-than,
    greater-than, colon, double quote, slash, backslash, bar, question
    mark and star. *)
Definition unsafe_chars : list char := [60; 62; 58; 34; 47; 92; 124; 63; 42].

Definition is_unsafe (c : char) : bool := existsb (N.eqb c) unsafe_chars.

Definition sanitize_filename (filename : str) : str :=
  let filename := List.map (fun c => if is_unsafe c then UNDERSCORE else c) filename in
  let filename := replace [SPACE] [UNDERSCORE] filename in
  if (200 <? length filename)%nat then
    let '(name, ext) := splitext filename in
    slice_to (200 - Z.of_nat (length ext)) name ++ ext
  else filename.

(** A fragment [decode_header] yields: bytes with their declared
    encoding, or a string. *)
Inductive fragment :=
| FragBytes (b : list N) (encoding : option str)
| FragStr (s : str).

(** One MIME part as the parser reads it. *)
Record mime_part := {
  part_content_type : str;          (* get_content_type() *)
  part_disposition : option str;    (* get('Content-Disposition') *)
  part_filename : option str;       (* get_filename() *)
  part_charset : option str;        (* get_content_charset() *)
  part_payload : option (list N);   (* get_payload(decode=True) *)
}.

(** A message is one part, or multipart with the parts [walk()] yields. *)
Inductive message_body :=
| Single (p : mime_part)
| Multipart (walk : list mime_part).

Record raw_message := {
  msg_subject : option str;
  msg_from : option str;
  msg_to : option str;
  msg_date : option str;
  msg_body : message_body;
}.

Record metadata := {
  md_id : str;
  md_subject : str;
  md_sender : str;
  md_recipient : str;
  md_date : str;
  md_downloaded_at : str;
  md_has_html : bool;
  md_attachment_count : nat;
}.

(** What the parser asks of the Python runtime, of the mailbox and of the
    document libraries.  A capability flag is false when the import at the
    top of the module failed. *)
Record parser_env := {
  str_lower : str -> str;
  have_PyPDF2 : bool;
  have_Document : bool;
  have_openpyxl : bool;
  have_Presentation : bool;
  (** the texts of the pages, in page order *)
  pdf_page_texts : str -> outcome (list str);
  (** the texts of the paragraphs, in document order *)
  docx_paragraphs : str -> outcome (list str);
  (** per sheet: its name and its rows; a cell is [None] or its [str()] *)
  xlsx_sheets : str -> outcome (list (str * list (list (option str))));
  (** per slide: for each shape its text when it has one *)
  pptx_slides : str -> outcome (list (list (option str)));
  (** [open(path, 'r', encoding=enc).read()] *)
  read_text : str -> str -> outcome str;
  (** [email.header.decode_header] *)
  decode_header : str -> outcome (list fragment);
  (** [bytes.decode(encoding)] and [bytes.decode('utf-8', errors='ignore')] *)
  bytes_decode : str -> list N -> outcome str;
  bytes_decode_ignore : str -> list N -> outcome str;
  utf8_ignore : list N -> str;
  (** [BeautifulSoup(html, 'html.parser').get_text(...)] *)
  soup_get_text : str -> outcome str;
  (** [datetime.now().isoformat()] *)
  now_isoformat : str;
  (** [mail.fetch(id, '(RFC822)')] and [email.message_from_bytes]: [None]
      when the status is not OK *)
  imap_fetch : str -> outcome (option raw_message);
  (** [json.dump(metadata, f, ensure_ascii=False, indent=2)] *)
  json_dump : metadata -> list N;
}.

Section WithEnv.

Variable E : parser_env.

Definition decode_fragment (f : fragment) : str :=
  match f with
  | FragBytes b (Some enc) =>
      if negb (str_eqb enc []) then
        match bytes_decode E enc b with
        | Returned s => s
        | Raised _ => utf8_ignore E b
        end
      else utf8_ignore E b
  | FragBytes b None => utf8_ignore E b
  | FragStr s => s
  end.

Definition decode_mime_words (text : option str) : outcome str :=
  match text with
  | None => Returned []
  | Some text =>
      decoded_fragments ← decode_header E text;
      Returned (List.concat (List.map decode_fragment decoded_fragments))
  end.

Definition extract_text_from_html (html_content : str) : str :=
  match soup_get_text E html_content with
  | Returned s => s
  | Raised _ => html_content
  end.

Definition fmt_failed (kind : str) (e : exn) : str :=
  lit "[" ++ kind ++ lit ": " ++ exn_text e ++ lit "]".

Definition PDF_FAILED : str := Eval vm_compute in lit "PDF 텍스트 추출 실패".
Definition WORD_FAILED : str := Eval vm_compute in lit "Word 텍스트 추출 실패".
Definition EXCEL_FAILED : str := Eval vm_compute in lit "Excel 텍스트 추출 실패".
Definition PPT_FAILED : str := Eval vm_compute in lit "PowerPoint 텍스트 추출 실패".
Definition TEXT_READ_FAILED : str := Eval vm_compute in lit "텍스트 파일 읽기 실패".
Definition FILE_ERROR : str := Eval vm_compute in lit "파일 처리 오류".
Definition ENCODING_FAILED : str := Eval vm_compute in lit "[텍스트 파일 인코딩 실패]".
Definition NOT_SUPPORTED : str :=
  Eval vm_compute in lit " 형식은 텍스트 추출을 지원하지 않습니다]".
(** the wording of the unsupported-format marker: does not support *)
Definition NOT_SUPPORTED_WORDING : str := Eval vm_compute in lit "지원하지 않습니다".

Definition str_in (x : str) (l : list str) : bool := existsb (str_eqb x) l.

Definition sheet_lines (sheet : str * list (list (option str))) : list str :=
  (lit "[Sheet: " ++ fst sheet ++ lit "]")
    :: List.filter (fun row_text => negb (str_eqb (strip row_text) []))
         (List.map
            (fun row => join [TAB]
               (List.map (fun cell => match cell with Some s => s | None => [] end) row))
            (snd sheet)).

Fixpoint slide_lines (slide_num : nat) (slides : list (list (option str))) : list str :=
  match slides with
  | [] => []
  | shapes :: rest =>
      (lit "[Slide " ++ str_of_nat slide_num ++ lit "]")
        :: omap id shapes ++ slide_lines (S slide_num) rest
  end.

Definition text_encodings : list str :=
  [lit "utf-8"; lit "euc-kr"; lit "cp949"; lit "latin-1"].

Fixpoint read_with_encodings (filepath : str) (encodings : list str) : outcome str :=
  match encodings with
  | [] => Returned ENCODING_FAILED
  | encoding :: rest =>
      match read_text E filepath encoding with
      | Returned s => Returned s
      | Raised e =>
          if is_unicode_decode_error e then read_with_encodings filepath rest
          else Raised e
      end
  end.

Definition text_extensions : list str :=
  [lit ".txt"; lit ".csv"; lit ".log"; lit ".md"; lit ".json"; lit ".xml";
   lit ".html"; lit ".htm"].

Definition extract_text_from_file (filepath : str) : outcome str :=
  try_except
    (let ext := str_lower E (snd (splitext filepath)) in
     if str_eqb ext (lit ".pdf") && have_PyPDF2 E then
       try_except
         (text_parts ← pdf_page_texts E filepath; Returned (join [NL] text_parts))
         (fun e => Returned (fmt_failed PDF_FAILED e))
     else if str_in ext [lit ".docx"; lit ".doc"] && have_Document E then
       try_except
         (text_parts ← docx_paragraphs E filepath; Returned (join [NL] text_parts))
         (fun e => Returned (fmt_failed WORD_FAILED e))
     else if str_in ext [lit ".xlsx"; lit ".xls"] && have_openpyxl E then
       try_except
         (sheets ← xlsx_sheets E filepath;
          Returned (join [NL] (List.concat (List.map sheet_lines sheets))))
         (fun e => Returned (fmt_failed EXCEL_FAILED e))
     else if str_in ext [lit ".pptx"; lit ".ppt"] && have_Presentation E then
       try_except
         (slides ← pptx_slides E filepath;
          Returned (join [NL] (slide_lines 1 slides)))
         (fun e => Returned (fmt_failed PPT_FAILED e))
     else if str_in ext text_extensions then
       try_except
         (read_with_encodings filepath text_encodings)
         (fun e => Returned (fmt_failed TEXT_READ_FAILED e))
     else Returned (lit "[" ++ ext ++ NOT_SUPPORTED))
    (fun e => Returned (fmt_failed FILE_ERROR e)).

Record attachment_info := {
  att_filename : str;
  att_filepath : str;
  att_size : nat;
  att_content_type : str;
  att_extracted_text : option str;
}.

(** [f"{name}_{counter}{ext}"] with [name, ext = os.path.splitext(original)] *)
Definition numbered (original_filepath : str) (counter : nat) : str :=
  let '(name, ext) := splitext original_filepath in
  name ++ lit "_" ++ str_of_nat counter ++ ext.

(** The loop [while filepath.exists(): ...] of [save_attachment], with a
    bound on the number of tests. *)
Fixpoint free_filepath (fuel : nat) (fs : filesystem)
    (original_filepath filepath : str) (counter : nat) : option str :=
  match fuel with
  | O => None
  | S fuel' =>
      if fs_exists fs filepath
      then free_filepath fuel' fs original_filepath
             (numbered original_filepath counter) (S counter)
      else Some filepath
  end.

(** A folder of [n] nodes cannot hold all of the [n + 1] first numbered
    names, so [n + 2] tests suffice ([resolve_collision_total]). *)
Definition resolve_collision (fs : filesystem) (filepath : str) : option str :=
  free_filepath (size fs + 2) fs filepath filepath 1.

Definition email_folder_of (download_path email_id : str) : str :=
  path_join download_path (lit "email_" ++ email_id).

Definition save_attachment (download_path : str) (fs : filesystem)
    (part : mime_part) (email_id : str) (extract_text : bool)
  : filesystem * option attachment_info :=
  match part_filename part with
  | None => (fs, None)
  | Some raw =>
      if str_eqb raw [] then (fs, None)
      else
        match decode_mime_words (Some raw) with
        | Raised _ => (fs, None)
        | Returned decoded =>
            let filename := sanitize_filename decoded in
            let email_folder := email_folder_of download_path email_id in
            match fs_mkdir fs email_folder with
            | Raised _ => (fs, None)
            | Returned fs1 =>
                match resolve_collision fs1 (path_join email_folder filename) with
                | None => (fs1, None)
                | Some filepath =>
                    match part_payload part with
                    | None =>
                        (* [open] creates the file, then [f.write(None)] raises *)
                        match fs_write fs1 filepath [] with
                        | Returned fs2 => (fs2, None)
                        | Raised _ => (fs1, None)
                        end
                    | Some data =>
                        match fs_write fs1 filepath data with
                        | Raised _ => (fs1, None)
                        | Returned fs2 =>
                            let info text :=
                              {| att_filename := filename;
                                 att_filepath := filepath;
                                 att_size := length data;
                                 att_content_type := part_content_type part;
                                 att_extracted_text := text |} in
                            if extract_text then
                              match extract_text_from_file filepath with
                              | Returned text => (fs2, Some (info (Some text)))
                              | Raised _ => (fs2, None)
                              end
                            else (fs2, Some (info None))
                        end
                    end
                end
            end
        end
  end.

(** The literal of the source: two newlines, then the marker and a blank *)
Definition BLOCK_HEAD : str := Eval vm_compute in [NL; NL] ++ lit "=== 첨부파일: ".
Definition BLOCK_MID : str := Eval vm_compute in lit " ===" ++ [NL].

(** [f"\n\n=== 첨부파일: {filename} ===\n{extracted_text}"] *)
Definition attachment_block (filename extracted_text : str) : str :=
  BLOCK_HEAD ++ filename ++ BLOCK_MID ++ extracted_text.

(** The last step of [parse_email_body_and_attachments]. *)
Definition combine_text (body_text : str) (attachment_texts : list str) : str :=
  match attachment_texts with
  | [] => strip body_text
  | _ => strip body_text ++ join [NL] attachment_texts
  end.

Definition disposition_str (part : mime_part) : str :=
  match part_disposition part with Some s => s | None => lit "None" end.

Definition charset_or_utf8 (part : mime_part) : str :=
  match part_charset part with
  | Some c => if str_eqb c [] then lit "utf-8" else c
  | None => lit "utf-8"
  end.

(** [payload.decode(charset, errors='ignore')], falling back to UTF-8;
    nothing is decoded when the payload is [None] or empty. *)
Definition decode_payload (part : mime_part) : str :=
  match part_payload part with
  | None | Some [] => []
  | Some payload =>
      match bytes_decode_ignore E (charset_or_utf8 part) payload with
      | Returned s => s
      | Raised _ => utf8_ignore E payload
      end
  end.

Record walk_state := {
  w_fs : filesystem;
  w_body_text : str;
  w_body_html : str;
  w_attachments : list attachment_info;
  w_attachment_texts : list str;
}.

Definition walk_step (download_path email_id : str) (extract_attachment_text : bool)
    (st : walk_state) (part : mime_part) : walk_state :=
  if contains (lit "attachment") (disposition_str part) then
    match save_attachment download_path (w_fs st) part email_id extract_attachment_text with
    | (fs', Some attachment_info) =>
        {| w_fs := fs';
           w_body_text := w_body_text st;
           w_body_html := w_body_html st;
           w_attachments := w_attachments st ++ [attachment_info];
           w_attachment_texts :=
             match extract_attachment_text, att_extracted_text attachment_info with
             | true, Some text =>
                 w_attachment_texts st
                   ++ [attachment_block (att_filename attachment_info) text]
             | _, _ => w_attachment_texts st
             end |}
    | (fs', None) =>
        {| w_fs := fs';
           w_body_text := w_body_text st;
           w_body_html := w_body_html st;
           w_attachments := w_attachments st;
           w_attachment_texts := w_attachment_texts st |}
    end
  else if str_eqb (part_content_type part) (lit "text/plain") then
    {| w_fs := w_fs st;
       w_body_text := w_body_text st ++ decode_payload part;
       w_body_html := w_body_html st;
       w_attachments := w_attachments st;
       w_attachment_texts := w_attachment_texts st |}
  else if str_eqb (part_content_type part) (lit "text/html") then
    {| w_fs := w_fs st;
       w_body_text := w_body_text st;
       w_body_html := w_body_html st ++ decode_payload part;
       w_attachments := w_attachments st;
       w_attachment_texts := w_attachment_texts st |}
  else st.

Record parsed_content := {
  pc_body_text : str;
  pc_body_html : str;
  pc_attachments : list attachment_info;
  pc_has_extracted_attachments : bool;
}.

(** The first half of [parse_email_body_and_attachments]: the walk over
    the parts of a multipart message, or the one payload of a simple one. *)
Definition walk_message (download_path : str) (fs : filesystem)
    (msg : message_body) (email_id : str) (extract_attachment_text : bool)
  : walk_state :=
  let st0 :=
    {| w_fs := fs; w_body_text := []; w_body_html := [];
       w_attachments := []; w_attachment_texts := [] |} in
  match msg with
  | Multipart walk =>
      fold_left (walk_step download_path email_id extract_attachment_text) walk st0
  | Single part =>
      let content := decode_payload part in
      match part_payload part with
      | None | Some [] => st0
      | Some _ =>
          if str_eqb (part_content_type part) (lit "text/html") then
            {| w_fs := fs; w_body_text := []; w_body_html := content;
               w_attachments := []; w_attachment_texts := [] |}
          else
            {| w_fs := fs; w_body_text := content; w_body_html := [];
               w_attachments := []; w_attachment_texts := [] |}
      end
  end.

(** The body text before the attachment texts are added: the plain text,
    or the text of the HTML when there is HTML and no plain text. *)
Definition plain_body (st : walk_state) : str :=
  match w_body_html st, w_body_text st with
  | _ :: _, [] => extract_text_from_html (w_body_html st)
  | _, _ => w_body_text st
  end.

Definition parse_email_body_and_attachments (download_path : str) (fs : filesystem)
    (msg : message_body) (email_id : str) (extract_attachment_text : bool)
  : filesystem * parsed_content :=
  let st := walk_message download_path fs msg email_id extract_attachment_text in
  (w_fs st,
   {| pc_body_text := combine_text (plain_body st) (w_attachment_texts st);
      pc_body_html := strip (w_body_html st);
      pc_attachments := w_attachments st;
      pc_has_extracted_attachments :=
        match w_attachment_texts st with [] => false | _ => true end |}).

Record email_record := {
  em_id : str;
  em_subject : str;
  em_sender : str;
  em_recipient : str;
  em_date : str;
  em_body : str;
  em_body_html : str;
  em_attachments : list attachment_info;
  em_download_folder : str;
}.

Definition header_or_empty (h : option str) : str :=
  match h with Some s => s | None => [] end.

(** The writes of [download_email_full] after parsing: [body.txt] when
    the body text is not empty, [body.html] when the HTML is not empty,
    then [metadata.json].  The flag is false when a write raised; what was
    written before stays. *)
Definition write_artifacts (fs : filesystem) (email_folder : str)
    (parsed : parsed_content) (md : metadata) : filesystem * bool :=
  match fs_mkdir fs email_folder with
  | Raised _ => (fs, false)
  | Returned fs1 =>
      match
        match pc_body_text parsed with
        | [] => Returned fs1
        | _ => fs_write fs1 (path_join email_folder (lit "body.txt"))
                 (pc_body_text parsed)
        end
      with
      | Raised _ => (fs1, false)
      | Returned fs2 =>
          match
            match pc_body_html parsed with
            | [] => Returned fs2
            | _ => fs_write fs2 (path_join email_folder (lit "body.html"))
                     (pc_body_html parsed)
            end
          with
          | Raised _ => (fs2, false)
          | Returned fs3 =>
              match fs_write fs3 (path_join email_folder (lit "metadata.json"))
                      (json_dump E md) with
              | Raised _ => (fs3, false)
              | Returned fs4 => (fs4, true)
              end
          end
      end
  end.

(** [mail] is [None] until [connect] succeeds: [connected] says whether
    it is set. *)
Definition download_email_full (connected : bool) (download_path : str)
    (fs : filesystem) (email_id : str) (extract_attachment_text : bool)
  : filesystem * option email_record :=
  if negb connected then (fs, None)
  else
    match imap_fetch E email_id with
    | Raised _ | Returned None => (fs, None)
    | Returned (Some msg) =>
        match
          (subject ← decode_mime_words (Some (header_or_empty (msg_subject msg)));
           sender ← decode_mime_words (Some (header_or_empty (msg_from msg)));
           recipient ← decode_mime_words (Some (header_or_empty (msg_to msg)));
           Returned (subject, sender, recipient))
        with
        | Raised _ => (fs, None)
        | Returned (subject, sender, recipient) =>
            let date := header_or_empty (msg_date msg) in
            let '(fs1, parsed) :=
              parse_email_body_and_attachments download_path fs (msg_body msg)
                email_id extract_attachment_text in
            let email_folder := email_folder_of download_path email_id in
            let md :=
              {| md_id := email_id; md_subject := subject; md_sender := sender;
                 md_recipient := recipient; md_date := date;
                 md_downloaded_at := now_isoformat E;
                 md_has_html := match pc_body_html parsed with [] => false | _ => true end;
                 md_attachment_count := length (pc_attachments parsed) |} in
            match write_artifacts fs1 email_folder parsed md with
            | (fs2, false) => (fs2, None)
            | (fs2, true) =>
                (fs2,
                 Some {| em_id := email_id; em_subject := subject;
                         em_sender := sender; em_recipient := recipient;
                         em_date := date;
                         em_body := pc_body_text parsed;
                         em_body_html := pc_body_html parsed;
                         em_attachments := pc_attachments parsed;
                         em_download_folder := email_folder |})
            end
        end
    end.

End WithEnv.

End Parser.

(** ** text_summarizer.py *)

Module Summarizer.

(** The marker that announces an attachment text, and the separator the
    combined text is split on. *)
Definition MARKER : str := Eval vm_compute in lit "=== 첨부파일:".
Definition SEP : str := Eval vm_compute in [NL; NL] ++ MARKER.
Definition SENTENCE_END : str := Eval vm_compute in lit ". ".
Definition TRIPLE_EQ : str := Eval vm_compute in lit "===".

(** Python's [round(x, 2)] on an exact rational, ties to even.  The
    source computes in binary floating point; the model keeps the exact
    quotient. *)
Definition round_half_even (q : Q) : Z :=
  let n := Qnum q in
  let d := Zpos (Qden q) in
  let f := (n / d)%Z in
  let r := (n mod d)%Z in
  if (2 * r <? d)%Z then f
  else if (d <? 2 * r)%Z then (f + 1)%Z
  else if Z.even f then f else (f + 1)%Z.

Definition round2 (q : Q) : Q :=
  Qmake (round_half_even (q * 100)) 100.

Definition percent (summary_tokens token_count : nat) : Q :=
  round2 ((Z.of_nat summary_tokens # 1) / (Z.of_nat token_count # 1) * 100).

Definition DIVISION_BY_ZERO : exn := Exn ZeroDivisionError (lit "division by zero").

(** [round(summary_tokens / token_count * 100, 2)] *)
Definition compression_ratio (summary_tokens token_count : nat) : outcome Q :=
  match token_count with
  | O => Raised DIVISION_BY_ZERO
  | _ => Returned (percent summary_tokens token_count)
  end.

(** [round(summary_tokens / token_count * 100, 2) if token_count > 0 else 0] *)
Definition compression_ratio_guarded (summary_tokens token_count : nat) : Q :=
  if (0 <? token_count)%nat then percent summary_tokens token_count else 0%Q.

Record att_meta := {
  am_filename : str;
  am_filepath : str;
  am_size : nat;
  am_content_type : option str;
  am_extracted_text : option str;
}.

(** The dictionary [view_email_content] returns, with the keys the
    summarizer reads; a key may be absent. *)
Record email_data := {
  ed_id : option str;
  ed_subject : option str;
  ed_sender : option str;
  ed_date : option str;
  ed_recipient : option str;
  ed_body : option str;
  ed_attachments : option (list att_meta);
}.

Record separated_attachment := {
  sa_index : nat;
  sa_filename : str;
  sa_extracted_text : str;
  sa_filepath : option str;
  sa_size : option nat;
  sa_content_type : option str;
}.

Fixpoint enumerate_from {A} (start : nat) (l : list A) : list (nat * A) :=
  match l with
  | [] => []
  | x :: r => (start, x) :: enumerate_from (S start) r
  end.

(** The body of the loop over [parts[1:]]. *)
Definition parse_attachment_part (idx : nat) (part : str) : separated_attachment :=
  let lines := split_max 1 [NL] part in
  let filename := strip (replace TRIPLE_EQ [] (strip (nth 0 lines []))) in
  let content := match lines with _ :: l1 :: _ => strip l1 | _ => [] end in
  {| sa_index := idx; sa_filename := filename; sa_extracted_text := content;
     sa_filepath := None; sa_size := None; sa_content_type := None |}.

(** The splitting of a combined text in
    [get_email_body_and_attachments_separately]. *)
Definition separate_body (body_text : str) : str * list separated_attachment :=
  if contains MARKER body_text then
    match split SEP body_text with
    | [] => (body_text, [])
    | body_only :: parts =>
        (strip body_only,
         List.map (fun ip => parse_attachment_part (fst ip) (snd ip))
           (enumerate_from 1 parts))
    end
  else (body_text, []).

(** [attachments_with_text[i].update(att_meta)] *)
Definition update_with_meta (a : separated_attachment) (m : att_meta)
  : separated_attachment :=
  {| sa_index := sa_index a;
     sa_filename := am_filename m;
     sa_extracted_text :=
       match am_extracted_text m with Some t => t | None => sa_extracted_text a end;
     sa_filepath := Some (am_filepath m);
     sa_size := Some (am_size m);
     sa_content_type :=
       match am_content_type m with Some c => Some c | None => sa_content_type a end |}.

Fixpoint merge_meta (atts : list separated_attachment) (metas : list att_meta)
  : list separated_attachment :=
  match atts, metas with
  | a :: atts', m :: metas' => update_with_meta a m :: merge_meta atts' metas'
  | _, _ => atts
  end.

Record separated_email := {
  se_email_id : str;
  se_subject : str;
  se_sender : str;
  se_date : str;
  se_recipient : str;
  se_body_text : str;
  se_attachments : list separated_attachment;
  se_has_attachments : bool;
}.

Definition get_or_empty (o : option str) : str :=
  match o with Some s => s | None => [] end.

Definition EMAIL_NOT_FOUND : str := Eval vm_compute in lit "메일을 찾을 수 없습니다: ".

(** [get_email_body_and_attachments_separately], given what
    [parser.view_email_content(email_id)] returned. *)
Definition get_email_body_and_attachments_separately
    (viewed : option email_data) (email_id : str) : str + separated_email :=
  match viewed with
  | None => inl (EMAIL_NOT_FOUND ++ email_id)
  | Some data =>
      let '(body_only, attachments_with_text) :=
        separate_body (get_or_empty (ed_body data)) in
      let attachments_with_text :=
        match ed_attachments data with
        | Some metas => merge_meta attachments_with_text metas
        | None => attachments_with_text
        end in
      inr {| se_email_id := email_id;
             se_subject := get_or_empty (ed_subject data);
             se_sender := get_or_empty (ed_sender data);
             se_date := get_or_empty (ed_date data);
             se_recipient := get_or_empty (ed_recipient data);
             se_body_text := body_only;
             se_attachments := attachments_with_text;
             se_has_attachments :=
               match attachments_with_text with [] => false | _ => true end |}
  end.

Section WithModel.

(** [len(self.encoding.encode(text))] of the tokenizer *)
Variable count_tokens : str -> nat.
(** [summarize_chunk]: the call of the language model, which returns a
    text also when the call fails *)
Variable summarize_chunk : str -> str -> str.
(** [self.max_tokens] *)
Variable max_tokens : nat.

Definition chunk_step (max_chunk_tokens : nat) (st : list str * str)
    (sentence : str) : list str * str :=
  let '(chunks, current_chunk) := st in
  let test_chunk := current_chunk ++ sentence ++ SENTENCE_END in
  if (max_chunk_tokens <? count_tokens test_chunk)%nat then
    (match current_chunk with
     | [] => chunks
     | _ => chunks ++ [strip current_chunk]
     end,
     sentence ++ SENTENCE_END)
  else (chunks, test_chunk).

Definition split_text_by_tokens (text : str) (max_chunk_tokens : nat) : list str :=
  let sentences := split SENTENCE_END text in
  let '(chunks, current_chunk) :=
    fold_left (chunk_step max_chunk_tokens) sentences ([], []) in
  match current_chunk with
  | [] => chunks
  | _ => chunks ++ [strip current_chunk]
  end.

(** The summary of a text, shared by [summarize_file], [summarize_email]
    and [summarize_downloaded_attachment]: one call when the text fits,
    else one call per chunk and a second pass when the joined summaries
    exceed 3000 tokens. *)
Definition final_summary_of (text : str) (token_count : nat) (summary_type : str) : str :=
  if (Z.of_nat max_tokens - 1000 <? Z.of_nat token_count)%Z then
    let chunks := split_text_by_tokens text 3000 in
    let summaries := List.map (fun chunk => summarize_chunk chunk summary_type) chunks in
    let combined_summary := join [NL; NL] summaries in
    if (3000 <? count_tokens combined_summary)%nat
    then summarize_chunk combined_summary summary_type
    else combined_summary
  else summarize_chunk text summary_type.

Record file_summary := {
  fsum_file_path : str;
  fsum_original_size : nat;
  fsum_original_tokens : nat;
  fsum_summary : str;
  fsum_summary_tokens : nat;
  fsum_compression_ratio : Q;
}.

Definition SUMMARY_FAILED : str := Eval vm_compute in lit "요약 실패: ".
Definition CANNOT_READ : str := Eval vm_compute in lit "파일을 읽을 수 없습니다: ".

(** [read_text_file]: the first encoding that decodes the file *)
Fixpoint read_text_file (read_text : str -> str -> outcome str)
    (file_path : str) (encodings : list str) : outcome str :=
  match encodings with
  | [] => Raised (Exn OtherError (CANNOT_READ ++ file_path))
  | encoding :: rest =>
      match read_text file_path encoding with
      | Returned s => Returned s
      | Raised e =>
          if is_unicode_decode_error e then read_text_file read_text file_path rest
          else Raised e
      end
  end.

Definition summarizer_encodings : list str :=
  [lit "utf-8"; lit "cp949"; lit "euc-kr"; lit "latin-1"].

(** [summarize_file] without an output file: the dictionary of the
    result, or on the left the text under its [error] key. *)
Definition summarize_file (read_text : str -> str -> outcome str)
    (file_path summary_type : str) : str + file_summary :=
  match
    (text ← read_text_file read_text file_path summarizer_encodings;
     let file_size := length text in
     let token_count := count_tokens text in
     let final_summary := final_summary_of text token_count summary_type in
     ratio ← compression_ratio (count_tokens final_summary) token_count;
     Returned {| fsum_file_path := file_path;
                 fsum_original_size := file_size;
                 fsum_original_tokens := token_count;
                 fsum_summary := final_summary;
                 fsum_summary_tokens := count_tokens final_summary;
                 fsum_compression_ratio := ratio |})
  with
  | Returned r => inr r
  | Raised e => inl (SUMMARY_FAILED ++ exn_text e)
  end.

Record email_summary := {
  es_email_id : str;
  es_subject : str;
  es_sender : str;
  es_original_tokens : nat;
  es_summary : str;
  es_summary_tokens : nat;
  es_compression_ratio : Q;
  es_summary_type : str;
  es_summary_scope : str;
  es_included_attachments : bool;
  es_only_attachments : bool;
}.

Definition NO_ATTACHMENT_TEXT : str := Eval vm_compute in lit "첨부파일 텍스트가 없습니다".
Definition EMAIL_SUMMARY_FAILED : str := Eval vm_compute in lit "메일 요약 실패: ".
Definition ONLY_ATTACHMENTS_HEAD : str :=
  Eval vm_compute in [NL] ++ lit "[첨부파일 내용만 요약]" ++ [NL] ++ MARKER.
Definition SCOPE_ONLY : str := Eval vm_compute in lit "첨부파일만".
Definition SCOPE_BOTH : str := Eval vm_compute in lit "본문+첨부파일".
Definition SCOPE_BODY : str := Eval vm_compute in lit "본문만".
Definition RULE : str := Eval vm_compute in repeat 61 50.

Definition header_parts (data : email_data) : list str :=
  match ed_subject data with Some s => [lit "제목: " ++ s] | None => [] end
  ++ match ed_sender data with Some s => [lit "발신자: " ++ s] | None => [] end
  ++ match ed_date data with Some s => [lit "날짜: " ++ s] | None => [] end
  ++ [RULE].

(** The parts the body contributes, or [None] where the source returns
    the error of a missing attachment text. *)
Definition body_parts_of (body_text : str) (include_attachments only_attachments : bool)
  : option (list str) :=
  if contains MARKER body_text then
    let body_parts := split SEP body_text in
    let body_only := nth 0 body_parts [] in
    let attachment_text := join SEP (tail body_parts) in
    if only_attachments then
      match attachment_text with
      | [] => None
      | _ => Some [ONLY_ATTACHMENTS_HEAD ++ attachment_text]
      end
    else if include_attachments then
      Some (body_only ::
            match attachment_text with
            | [] => []
            | _ => [[NL] ++ MARKER ++ attachment_text]
            end)
    else Some [body_only]
  else if only_attachments then None
  else Some [body_text].

Definition summarize_email (data : email_data) (summary_type : str)
    (include_attachments only_attachments : bool) : str + email_summary :=
  match
    match ed_body data with
    | Some body_text => body_parts_of body_text include_attachments only_attachments
    | None => Some []
    end
  with
  | None => inl NO_ATTACHMENT_TEXT
  | Some parts =>
      let email_content := join [NL] (header_parts data ++ parts) in
      let token_count := count_tokens email_content in
      let final_summary := final_summary_of email_content token_count summary_type in
      let summary_scope :=
        if only_attachments then SCOPE_ONLY
        else if include_attachments then SCOPE_BOTH else SCOPE_BODY in
      match compression_ratio (count_tokens final_summary) token_count with
      | Raised e => inl (EMAIL_SUMMARY_FAILED ++ exn_text e)
      | Returned ratio =>
          inr {| es_email_id :=
                   match ed_id data with Some i => i | None => lit "unknown" end;
                 es_subject := get_or_empty (ed_subject data);
                 es_sender := get_or_empty (ed_sender data);
                 es_original_tokens := token_count;
                 es_summary := final_summary;
                 es_summary_tokens := count_tokens final_summary;
                 es_compression_ratio := ratio;
                 es_summary_type := summary_type;
                 es_summary_scope := summary_scope;
                 es_included_attachments := include_attachments;
                 es_only_attachments := only_attachments |}
      end
  end.

Record attachment_summary := {
  as_file_path : str;
  as_filename : str;
  as_file_size : nat;
  as_extracted_text_length : nat;
  as_original_tokens : nat;
  as_summary : str;
  as_summary_tokens : nat;
  as_compression_ratio : Q;
  as_summary_type : str;
}.

Definition FAILED_WORD : str := Eval vm_compute in lit "실패".
Definition ATTACHMENT_SUMMARY_FAILED : str := Eval vm_compute in lit "첨부파일 요약 실패: ".

(** [summarize_downloaded_attachment]: [extract] is the parser's
    [extract_text_from_file], [getsize] is [os.path.getsize]. *)
Definition summarize_downloaded_attachment (extract : str -> outcome str)
    (getsize : str -> outcome nat) (attachment_path summary_type : str)
  : str + attachment_summary :=
  match
    (extracted_text ← extract attachment_path;
     if (startswith (lit "[") extracted_text && contains FAILED_WORD extracted_text)
        || contains Parser.NOT_SUPPORTED_WORDING extracted_text
     then Returned (inl extracted_text)
     else
       let token_count := count_tokens extracted_text in
       let final_summary := final_summary_of extracted_text token_count summary_type in
       file_size ← getsize attachment_path;
       Returned (inr
         {| as_file_path := attachment_path;
            as_filename := path_name attachment_path;
            as_file_size := file_size;
            as_extracted_text_length := length extracted_text;
            as_original_tokens := token_count;
            as_summary := final_summary;
            as_summary_tokens := count_tokens final_summary;
            as_compression_ratio :=
              compression_ratio_guarded (count_tokens final_summary) token_count;
            as_summary_type := summary_type |}))
  with
  | Returned r => r
  | Raised e => inl (ATTACHMENT_SUMMARY_FAILED ++ exn_text e)
  end.

End WithModel.

End Summarizer.

(** ** naver_smtp_with_attachments.py *)

Module Sender.

Inductive mime_attachment :=
| MIMEText (text subtype : str)
| MIMEImage (data : list N) (subtype : str)
| MIMEAudio (data : list N) (subtype : str)
| MIMEApplication (data : list N) (subtype : str)
| MIMEBase (main_type sub_type : str) (data : list N).

(** An attached part with its [Content-Disposition] header. *)
Record attached := {
  at_part : mime_attachment;
  at_disposition : str;
}.

Record mime_message := {
  mm_from : str;
  mm_to : str;
  mm_subject : str;
  mm_cc : option str;
  mm_body : str;
  mm_body_subtype : str;
  mm_attached : list attached;
}.

(** What the sender asks of the operating system and of the network. *)
Record sender_env := {
  isfile : str -> bool;                       (* os.path.isfile *)
  guess_type : str -> option str;             (* mimetypes.guess_type(p)[0] *)
  read_bytes : str -> outcome (list N);       (* open(p, 'rb').read() *)
  utf8_decode : list N -> outcome str;        (* bytes.decode('utf-8') *)
  (** connect, log in and [send_message(msg, to_addrs=...)]; the flag is
      [use_ssl] *)
  transmit : bool -> mime_message -> list str -> outcome unit;
}.

(** Lines printed on standard output. *)
Definition log := list str.

Definition WARN_MISSING : str := Eval vm_compute in lit "⚠️ 첨부파일을 찾을 수 없습니다: ".
Definition ADDED : str := Eval vm_compute in lit "✅ 첨부파일 추가됨: ".
Definition ADD_FAILED : str := Eval vm_compute in lit "❌ 첨부파일 추가 실패 (".

Section WithEnv.

Variable E : sender_env.

Definition _detect_mime_type (file_path : str) : outcome (str * str) :=
  match guess_type E file_path with
  | None => Returned (lit "application", lit "octet-stream")
  | Some mime_type =>
      match split_max 1 [SLASH] mime_type with
      | [main_type; sub_type] => Returned (main_type, sub_type)
      | _ => Raised (Exn OtherError (lit "not enough values to unpack (expected 2, got 1)"))
      end
  end.

Definition wrap_attachment (main_type sub_type : str) (file_data : list N)
  : outcome mime_attachment :=
  if str_eqb main_type (lit "text") then
    text ← utf8_decode E file_data; Returned (MIMEText text sub_type)
  else if str_eqb main_type (lit "image") then Returned (MIMEImage file_data sub_type)
  else if str_eqb main_type (lit "audio") then Returned (MIMEAudio file_data sub_type)
  else if str_eqb main_type (lit "application") then
    Returned (MIMEApplication file_data sub_type)
  else Returned (MIMEBase main_type sub_type file_data).

Definition attach (msg : mime_message) (a : attached) : mime_message :=
  {| mm_from := mm_from msg; mm_to := mm_to msg; mm_subject := mm_subject msg;
     mm_cc := mm_cc msg; mm_body := mm_body msg;
     mm_body_subtype := mm_body_subtype msg;
     mm_attached := mm_attached msg ++ [a] |}.

(** [_add_attachment]: the message, the output so far and the flag
    returned. *)
Definition _add_attachment (msg : mime_message) (out : log) (file_path : str)
  : mime_message * log * bool :=
  if negb (isfile E file_path) then
    (msg, out ++ [WARN_MISSING ++ file_path], false)
  else
    let file_name := path_name file_path in
    match
      (types ← _detect_mime_type file_path;
       file_data ← read_bytes E file_path;
       attachment ← wrap_attachment (fst types) (snd types) file_data;
       Returned (types, attachment))
    with
    | Returned (types, attachment) =>
        (attach msg
           {| at_part := attachment;
              at_disposition :=
                lit "attachment; filename=" ++ [34] ++ file_name ++ [34] |},
         out ++ [ADDED ++ file_name ++ lit " (" ++ fst types ++ lit "/"
                   ++ snd types ++ lit ")"],
         true)
    | Raised e =>
        (msg,
         out ++ [ADD_FAILED ++ file_path ++ lit "): " ++ exn_text e],
         false)
    end.

Record send_ok := {
  so_message : str;
  so_recipients : nat;
  so_to : list str;
  so_cc : list str;
  so_bcc : list str;
  so_attachments : list str;
  so_attachment_count : nat;
}.

(** The dictionary returned: [success] true with the accounting, or
    [success] false with the text of [error]. *)
Inductive send_result :=
| SendOk (r : send_ok)
| SendFailed (error : str).

Definition success (r : send_result) : bool :=
  match r with SendOk _ => true | SendFailed _ => false end.

Definition SENT : str := Eval vm_compute in lit "이메일 전송 성공".
Definition AUTH_FAILED : str :=
  Eval vm_compute in lit "SMTP 인증 실패: 아이디 또는 앱 비밀번호를 확인하세요.".
Definition REFUSED : str := Eval vm_compute in lit "수신자 거부: ".
Definition SEND_FAILED : str := Eval vm_compute in lit "이메일 전송 실패: ".

(** The loop over [attachments]: message, output and names attached. *)
Definition add_attachments (msg : mime_message) (out : log) (attachments : list str)
  : mime_message * log * list str :=
  fold_left
    (fun '(msg, out, attached_files) file_path =>
       match _add_attachment msg out file_path with
       | (msg', out', true) => (msg', out', attached_files ++ [path_name file_path])
       | (msg', out', false) => (msg', out', attached_files)
       end)
    attachments (msg, out, []).

Definition list_or_empty (o : option (list str)) : list str :=
  match o with Some l => l | None => [] end.

Definition send_email (username : str) (to_emails : list str) (subject body : str)
    (cc_emails bcc_emails attachments : option (list str)) (is_html use_ssl : bool)
  : send_result * log :=
  let msg :=
    {| mm_from := username;
       mm_to := join (lit ", ") to_emails;
       mm_subject := subject;
       mm_cc := match cc_emails with
                | Some (c :: l) => Some (join (lit ", ") (c :: l))
                | _ => None
                end;
       mm_body := body;
       mm_body_subtype := if is_html then lit "html" else lit "plain";
       mm_attached := [] |} in
  let '(msg, out, attached_files) :=
    add_attachments msg [] (list_or_empty attachments) in
  let all_recipients :=
    to_emails ++ list_or_empty cc_emails ++ list_or_empty bcc_emails in
  match transmit E use_ssl msg all_recipients with
  | Returned _ =>
      (SendOk {| so_message := SENT;
                 so_recipients := length all_recipients;
                 so_to := to_emails;
                 so_cc := list_or_empty cc_emails;
                 so_bcc := list_or_empty bcc_emails;
                 so_attachments := attached_files;
                 so_attachment_count := length attached_files |},
       out)
  | Raised e =>
      (SendFailed
         match exn_kind e with
         | SMTPAuthenticationError => AUTH_FAILED
         | SMTPRecipientsRefused => REFUSED ++ exn_text e
         | _ => SEND_FAILED ++ exn_text e
         end,
       out)
  end.

End WithEnv.

End Sender.

(** ** naver_mail_suite.py *)

Module Suite.

(** A fetched message as [parse_email] returns it. *)
Record fetched_email := {
  fe_id : str;
  fe_subject : str;
  fe_sender : str;
  fe_recipient : str;
  fe_date : str;
  fe_body : str;
  fe_has_attachments : bool;
  fe_attachment_count : nat;
}.

Record summary_fields := {
  sf_summary : str;
  sf_summary_tokens : nat;
  sf_original_tokens : nat;
  sf_compression_ratio : Q;
  sf_summary_type : str;
}.

(** A message after [summarize_email]: its own keys, and either the keys
    of the summary or [summary_error]. *)
Record summarized_email := {
  sm_email : fetched_email;
  sm_outcome : str + summary_fields;
}.

(** ['summary' in e] *)
Definition has_summary (e : summarized_email) : bool :=
  match sm_outcome e with inr _ => true | inl _ => false end.

(** One call of the facade's [send_email]. *)
Record send_call := {
  sc_to : list str;
  sc_subject : str;
  sc_body : str;
  sc_cc : option (list str);
  sc_attachments : option (list str);
  sc_is_html : bool;
}.

(** The components the facade composes. *)
Record suite_env := {
  parser_connected : bool;
  summarizer_ready : bool;
  smtp_ready : bool;
  (** [mail_parser.get_emails(criteria, limit, ...)] *)
  get_emails : str -> nat -> outcome (list fetched_email);
  (** the temporary file, [summarizer.summarize_file] on it and its removal:
      the error text or the fields of the summary *)
  summarize_content : str -> str -> outcome (str + summary_fields);
  (** [smtp_sender.send_email] *)
  smtp_send_email : send_call -> outcome Sender.send_result;
  (** [_create_summary_email_body] *)
  create_summary_email_body : list summarized_email -> str -> str;
  (** [datetime.now().isoformat()] *)
  timestamp : str;
}.

Record workflow_ok := {
  wf_emails_fetched : nat;
  wf_emails_summarized : nat;
  wf_send_result : Sender.send_result;
  wf_summary_type : str;
  wf_timestamp : str;
}.

Inductive workflow_result :=
| WorkflowOk (r : workflow_ok)
| WorkflowFailed (error : str).

Definition PARSER_NOT_CONNECTED : str := Eval vm_compute in lit "메일 파서가 연결되지 않았습니다".
Definition SUMMARIZER_NOT_READY : str := Eval vm_compute in lit "LLM 요약기가 준비되지 않았습니다".
Definition SMTP_NOT_READY : str := Eval vm_compute in lit "SMTP 발송기가 준비되지 않았습니다".
(** the error of an empty fetch: there is no email to fetch *)
Definition NO_EMAILS : str := Eval vm_compute in lit "가져올 이메일이 없습니다".
(** the error of an empty summary list: there is no summarized email *)
Definition NO_SUMMARIES : str := Eval vm_compute in lit "요약된 이메일이 없습니다".

Section WithEnv.

Variable E : suite_env.

Definition fetch_emails (limit : nat) (criteria : str) : outcome (list fetched_email) :=
  if negb (parser_connected E) then Raised (Exn OtherError PARSER_NOT_CONNECTED)
  else get_emails E criteria limit.

Definition email_content_of (email : fetched_email) : str :=
  strip ([NL] ++ lit "제목: " ++ fe_subject email ++ [NL]
         ++ lit "발신자: " ++ fe_sender email ++ [NL]
         ++ lit "날짜: " ++ fe_date email ++ [NL; NL]
         ++ repeat 61 50 ++ [NL; NL]
         ++ fe_body email ++ [NL] ++ repeat SPACE 12).

Definition summarize_email (email : fetched_email) (summary_type : str)
  : outcome summarized_email :=
  if negb (summarizer_ready E) then Raised (Exn OtherError SUMMARIZER_NOT_READY)
  else
    Returned
      {| sm_email := email;
         sm_outcome :=
           match summarize_content E (email_content_of email) summary_type with
           | Returned r => r
           | Raised e => inl (exn_text e)
           end |}.

Definition summarize_emails (emails : list fetched_email) (summary_type : str)
  : outcome (list summarized_email) :=
  if negb (summarizer_ready E) then Raised (Exn OtherError SUMMARIZER_NOT_READY)
  else
    Returned
      (List.map
         (fun email =>
            match summarize_email email summary_type with
            | Returned s => s
            | Raised e => {| sm_email := email; sm_outcome := inl (exn_text e) |}
            end)
         emails).

(** The facade's [send_email]: the result and the calls made to the SMTP
    sender. *)
Definition send_email (call : send_call) : outcome Sender.send_result :=
  if negb (smtp_ready E) then Raised (Exn OtherError SMTP_NOT_READY)
  else
    match smtp_send_email E call with
    | Returned r => Returned r
    | Raised e => Returned (Sender.SendFailed (exn_text e))
    end.

(** [fetch_summarize_send] with the recipients given as lists: the
    result, and the calls of [send_email] it made, in order.  The file
    [_save_workflow_results] writes is not part of the result; its
    exceptions are caught there. *)
Definition fetch_summarize_send (to_emails : list str) (subject_template : str)
    (summary_type : str) (limit : nat) (criteria : str)
    (cc_emails attachments : option (list str)) (is_html : bool)
  : workflow_result * list send_call :=
  match fetch_emails limit criteria with
  | Raised e => (WorkflowFailed (exn_text e), [])
  | Returned [] => (WorkflowFailed NO_EMAILS, [])
  | Returned emails =>
      match summarize_emails emails summary_type with
      | Raised e => (WorkflowFailed (exn_text e), [])
      | Returned summarized_emails =>
          let successful_summaries := List.filter has_summary summarized_emails in
          match successful_summaries with
          | [] => (WorkflowFailed NO_SUMMARIES, [])
          | _ =>
              let email_body :=
                create_summary_email_body E successful_summaries summary_type in
              let call :=
                {| sc_to := to_emails; sc_subject := subject_template;
                   sc_body := email_body; sc_cc := cc_emails;
                   sc_attachments := attachments; sc_is_html := is_html |} in
              match send_email call with
              | Raised e => (WorkflowFailed (exn_text e), [call])
              | Returned send_result =>
                  (WorkflowOk
                     {| wf_emails_fetched := length emails;
                        wf_emails_summarized := length successful_summaries;
                        wf_send_result := send_result;
                        wf_summary_type := summary_type;
                        wf_timestamp := timestamp E |},
                   [call])
              end
          end
      end
  end.

End WithEnv.

End Suite.

(** ** Python sequences *)

Module PySeq.

(** The first index of the slice [l[i:]] of a sequence of [n] items: a
    negative [i] counts from the end, and an index before the start is the
    start. *)
Definition slice_start (i : Z) (n : nat) : nat :=
  if (i <? 0)%Z then Z.to_nat (i + Z.of_nat n) else Z.to_nat i.

(** [l[i:]] *)
Definition slice_from {A} (i : Z) (l : list A) : list A :=
  drop (slice_start i (length l)) l.

End PySeq.

Import PySeq.

(** ** naver_mail_parser.py: searching, listing and looking up *)

Module Mailbox.

Import Parser.

(** A message as [parse_email] returns it. *)
Record parsed_email := {
  pe_id : str;
  pe_subject : str;
  pe_sender : str;
  pe_recipient : str;
  pe_date : str;
  pe_body : str;
  pe_has_attachments : bool;
  pe_attachment_count : nat;
}.

(** An element of the list [get_emails] returns: the dictionary of
    [download_email_full] or the one of [parse_email]. *)
Inductive listed_email :=
| Downloaded (r : email_record)
| Parsed (p : parsed_email).

Section WithEnv.

Variable E : parser_env.

(** [mail.search(None, criteria)] followed by [messages[0].split()]:
    [None] when the status is not OK. *)
Variable imap_search : str -> outcome (option (list str)).

Definition search_emails (connected : bool) (criteria : str) (limit : Z) : list str :=
  if negb connected then []
  else
    match imap_search criteria with
    | Returned (Some email_ids) => rev (slice_from (- limit) email_ids)
    | Returned None | Raised _ => []
    end.

Definition parse_email (connected : bool) (download_path : str)
    (fs : filesystem) (email_id : str) (extract_attachment_text : bool)
  : filesystem * option parsed_email :=
  if negb connected then (fs, None)
  else
    match imap_fetch E email_id with
    | Raised _ | Returned None => (fs, None)
    | Returned (Some msg) =>
        match
          (subject ← decode_mime_words E (Some (header_or_empty (msg_subject msg)));
           sender ← decode_mime_words E (Some (header_or_empty (msg_from msg)));
           recipient ← decode_mime_words E (Some (header_or_empty (msg_to msg)));
           Returned (subject, sender, recipient))
        with
        | Raised _ => (fs, None)
        | Returned (subject, sender, recipient) =>
            let date := header_or_empty (msg_date msg) in
            let '(fs1, parsed) :=
              parse_email_body_and_attachments E download_path fs (msg_body msg)
                email_id extract_attachment_text in
            let attachment_count := length (pc_attachments parsed) in
            (fs1,
             Some {| pe_id := email_id; pe_subject := subject;
                     pe_sender := sender; pe_recipient := recipient;
                     pe_date := date;
                     pe_body := pc_body_text parsed;
                     pe_has_attachments := (0 <? attachment_count)%nat;
                     pe_attachment_count := attachment_count |})
        end
    end.

(** The body of the loop of [get_emails]: a message that could not be
    read adds nothing to the list. *)
Definition get_emails_step (connected : bool) (download_path : str)
    (download_full extract_attachment_text : bool)
    (acc : filesystem * list listed_email) (email_id : str)
  : filesystem * list listed_email :=
  let '(fs, emails) := acc in
  if download_full then
    match download_email_full E connected download_path fs email_id
            extract_attachment_text with
    | (fs', Some r) => (fs', emails ++ [Downloaded r])
    | (fs', None) => (fs', emails)
    end
  else
    match parse_email connected download_path fs email_id extract_attachment_text with
    | (fs', Some p) => (fs', emails ++ [Parsed p])
    | (fs', None) => (fs', emails)
    end.

Definition get_emails (connected : bool) (download_path : str) (fs : filesystem)
    (criteria : str) (limit : Z) (download_full extract_attachment_text : bool)
  : filesystem * list listed_email :=
  fold_left
    (get_emails_step connected download_path download_full extract_attachment_text)
    (search_emails connected criteria limit) (fs, []).

End WithEnv.

(** [get_attachment_path], for a file name without separator, as
    [sanitize_filename] returns them. *)
Definition get_attachment_path (download_path : str) (fs : filesystem)
    (email_id filename : str) : option str :=
  let attachment_path := path_join (email_folder_of download_path email_id) filename in
  if fs_exists fs attachment_path then Some attachment_path else None.

End Mailbox.

(** ** text_summarizer.py: the call of the language model *)

Module LanguageModel.

Definition PROMPT_BRIEF : str :=
  Eval vm_compute in lit "다음 텍스트를 3-5문장으로 간단히 요약해주세요:".
Definition PROMPT_DETAILED : str :=
  Eval vm_compute in
    lit "다음 텍스트를 자세히 요약해주세요. 주요 내용과 핵심 포인트를 포함하여 요약하세요:".
Definition PROMPT_BULLET : str :=
  Eval vm_compute in lit "다음 텍스트를 불렛 포인트 형태로 요약해주세요:".
Definition PROMPT_KOREAN : str :=
  Eval vm_compute in
    lit "다음 텍스트를 한국어로 요약해주세요. 주요 내용을 놓치지 않고 자연스럽게 요약하세요:".
Definition SYSTEM_MESSAGE : str :=
  Eval vm_compute in
    lit "당신은 텍스트 요약 전문가입니다. 정확하고 간결한 요약을 제공합니다.".

(** [prompts.get(summary_type, prompts["detailed"])] *)
Definition prompt_of (summary_type : str) : str :=
  if str_eqb summary_type (lit "brief") then PROMPT_BRIEF
  else if str_eqb summary_type (lit "detailed") then PROMPT_DETAILED
  else if str_eqb summary_type (lit "bullet") then PROMPT_BULLET
  else if str_eqb summary_type (lit "korean") then PROMPT_KOREAN
  else PROMPT_DETAILED.

Section WithClient.

(** [client.chat.completions.create(...).choices[0].message.content] for a
    system message and a user message *)
Variable chat : str -> str -> outcome str.

Definition summarize_chunk (text summary_type : str) : str :=
  match chat SYSTEM_MESSAGE (prompt_of summary_type ++ [NL; NL] ++ text) with
  | Returned content => strip content
  | Raised e => Summarizer.SUMMARY_FAILED ++ exn_text e
  end.

End WithClient.

End LanguageModel.

(** ** naver_mail_suite.py: recipients given as one string *)

Module Recipients.

Definition COMMA : char := 44.

(** [[email.strip() for email in to_emails.split(',')]] *)
Definition split_addresses (to_emails : str) : list str :=
  List.map strip (split [COMMA] to_emails).

(** The conversion at the head of the facade's [send_email]: a string is
    split, a list is kept. *)
Definition address_list (to_emails : str + list str) : list str :=
  match to_emails with
  | inl s => split_addresses s
  | inr l => l
  end.

End Recipients.

(** ** naver_mail_suite.py: BatchProcessor *)

Module BatchProcessor.

Import Suite.

Record batch_state := {
  processed_count : nat;
  batch_number : nat;
  all_results : list summarized_email;
}.

Record summary_data := {
  total_processed : nat;
  total_batches : nat;
  successful_summaries : nat;
  failed_summaries : nat;
  processing_time : str;
  sd_summary_type : str;
}.

Record batch_ok := {
  bo_processed_count : nat;
  bo_output_dir : str;
  bo_summary : summary_data;
}.

Inductive batch_result :=
| BatchOk (r : batch_ok)
| BatchFailed (error : str).

Section WithEnv.

Variable E : suite_env.

(** [f"batch_processing_{datetime.now().strftime('%Y%m%d_%H%M%S')}"] *)
Variable default_output_dir : str.
(** [Path(output_dir).mkdir(exist_ok=True)] *)
Variable make_output_dir : str -> outcome unit.
(** the dump of one batch into the file of its number *)
Variable write_batch : str -> nat -> list summarized_email -> outcome unit.
(** the dump of [processing_summary.json] *)
Variable write_summary : str -> summary_data -> outcome unit.

(** One turn of the loop [while True]: [None] where the source leaves the
    loop because the fetch gave no message. *)
Definition batch_step (batch_size : nat) (summary_type output_dir : str)
    (st : batch_state) : outcome (option batch_state) :=
  emails ← fetch_emails E batch_size (lit "ALL");
  match emails with
  | [] => Returned None
  | _ =>
      summarized_emails ← summarize_emails E emails summary_type;
      _ ← write_batch output_dir (batch_number st) summarized_emails;
      Returned (Some {| processed_count := processed_count st + length emails;
                        batch_number := S (batch_number st);
                        all_results := all_results st ++ summarized_emails |})
  end.

(** The loop, with a bound on the number of turns: [None] when the bound
    is reached before the loop is left.  An exception in a turn leaves the
    loop with the state of the turn before. *)
Fixpoint batch_loop (fuel : nat) (batch_size : nat) (summary_type output_dir : str)
    (st : batch_state) : option batch_state :=
  match fuel with
  | O => None
  | S fuel' =>
      match batch_step batch_size summary_type output_dir st with
      | Returned (Some st') => batch_loop fuel' batch_size summary_type output_dir st'
      | Returned None | Raised _ => Some st
      end
  end.

Definition process_large_mailbox (fuel : nat) (batch_size : nat)
    (summary_type : str) (output_dir : option str) : option batch_result :=
  let output_dir :=
    match output_dir with
    | None | Some [] => default_output_dir
    | Some d => d
    end in
  match make_output_dir output_dir with
  | Raised e => Some (BatchFailed (exn_text e))
  | Returned _ =>
      match
        batch_loop fuel batch_size summary_type output_dir
          {| processed_count := 0; batch_number := 1; all_results := [] |}
      with
      | None => None
      | Some st =>
          let summary :=
            {| total_processed := processed_count st;
               total_batches := batch_number st - 1;
               successful_summaries := length (List.filter has_summary (all_results st));
               failed_summaries :=
                 length (List.filter (fun r => negb (has_summary r)) (all_results st));
               processing_time := timestamp E;
               sd_summary_type := summary_type |} in
          match write_summary output_dir summary with
          | Raised e => Some (BatchFailed (exn_text e))
          | Returned _ =>
              Some (BatchOk {| bo_processed_count := processed_count st;
                               bo_output_dir := output_dir;
                               bo_summary := summary |})
          end
      end
  end.

End WithEnv.

End BatchProcessor.

(** ** app.py: the list of messages of the web interface *)

Module WebApp.

Import Parser Mailbox.

(** The values of the dictionaries of a message. *)
Inductive pyval :=
| PStr (s : str)
| PInt (n : Z)
| PBool (b : bool)
| PAttachments (l : list attachment_info).

Abbreviation dict := (gmap str pyval).

(** The dictionary [download_email_full] returns. *)
Definition download_dict (r : email_record) : dict :=
  <[lit "id" := PStr (em_id r)]>
  (<[lit "subject" := PStr (em_subject r)]>
  (<[lit "sender" := PStr (em_sender r)]>
  (<[lit "recipient" := PStr (em_recipient r)]>
  (<[lit "date" := PStr (em_date r)]>
  (<[lit "body" := PStr (em_body r)]>
  (<[lit "body_html" := PStr (em_body_html r)]>
  (<[lit "attachments" := PAttachments (em_attachments r)]>
  (<[lit "download_folder" := PStr (em_download_folder r)]> ∅)))))))).

(** The dictionary [parse_email] returns. *)
Definition parse_dict (p : parsed_email) : dict :=
  <[lit "id" := PStr (pe_id p)]>
  (<[lit "subject" := PStr (pe_subject p)]>
  (<[lit "sender" := PStr (pe_sender p)]>
  (<[lit "recipient" := PStr (pe_recipient p)]>
  (<[lit "date" := PStr (pe_date p)]>
  (<[lit "body" := PStr (pe_body p)]>
  (<[lit "has_attachments" := PBool (pe_has_attachments p)]>
  (<[lit "attachment_count" := PInt (Z.of_nat (pe_attachment_count p))]> ∅))))))).

Definition dict_of (e : listed_email) : dict :=
  match e with
  | Downloaded r => download_dict r
  | Parsed p => parse_dict p
  end.

(** [email.get(key, default)] *)
Definition get (email : dict) (key : str) (default : pyval) : pyval :=
  match email !! key with
  | Some v => v
  | None => default
  end.

Definition TYPE_ERROR : exn := Exn OtherError (lit "TypeError").

Definition NO_SUBJECT : str := Eval vm_compute in lit "제목 없음".

(** [body[:200] + '...' if len(body) > 200 else body] on a string *)
Definition body_preview (body : str) : str :=
  if (200 <? length body)%nat then take 200 body ++ lit "..." else body.

(** The same expression on any value: a number has no length, and a list
    of more than 200 items cannot be added to a string. *)
Definition preview_of (v : pyval) : outcome pyval :=
  match v with
  | PStr s => Returned (PStr (body_preview s))
  | PAttachments l => if (200 <? length l)%nat then Raised TYPE_ERROR else Returned v
  | PInt _ | PBool _ => Raised TYPE_ERROR
  end.

(** [v > 0] *)
Definition positive (v : pyval) : outcome bool :=
  match v with
  | PInt n => Returned (0 <? n)%Z
  | PBool b => Returned b
  | PStr _ | PAttachments _ => Raised TYPE_ERROR
  end.

Record list_entry := {
  le_id : pyval;
  le_subject : pyval;
  le_sender : pyval;
  le_date : pyval;
  le_body_preview : pyval;
  le_has_attachments : bool;
  le_attachment_count : pyval;
}.

(** The dictionary the route [/api/fetch_emails] makes of one message. *)
Definition email_list_entry (email : dict) : outcome list_entry :=
  preview ← preview_of (get email (lit "body") (PStr []));
  has_attachments ← positive (get email (lit "attachment_count") (PInt 0));
  Returned {| le_id := get email (lit "id") (PStr []);
              le_subject := get email (lit "subject") (PStr NO_SUBJECT);
              le_sender := get email (lit "sender") (PStr []);
              le_date := get email (lit "date") (PStr []);
              le_body_preview := preview;
              le_has_attachments := has_attachments;
              le_attachment_count := get email (lit "attachment_count") (PInt 0) |}.

(** The loop of the route over the messages [suite.fetch_emails] returned. *)
Fixpoint email_list (emails : list dict) : outcome (list list_entry) :=
  match emails with
  | [] => Returned []
  | email :: rest =>
      entry ← email_list_entry email;
      entries ← email_list rest;
      Returned (entry :: entries)
  end.

End WebApp.

(** * The vocabulary of the statements *)

(** ** Occurrences *)

(** [sep] occurs in [s] *)
Definition occurs (sep s : str) : Prop := exists u v, s = u ++ sep ++ v.

(** No proper non-empty suffix of [sep] is a prefix of [sep]. *)
Definition unbordered (sep : str) : Prop :=
  forall x q, sep = x ++ q -> x <> [] -> q <> [] -> startswith q sep = false.

Definition unborderedb (sep : str) : bool :=
  forallb (fun k => negb (startswith (drop k sep) sep)) (seq 1 (length sep - 1)).

(** ** The combined text *)

Section SegmenterVocabulary.

Import Parser Summarizer.

(** The combined text of a body and of attachments given as pairs of a
    file name and an extracted text, as [parse_email_body_and_attachments]
    builds it: one block per attachment, then [combine_text]. *)
Definition encode (B : str) (A : list (str * str)) : str :=
  combine_text B (List.map (fun a => attachment_block (fst a) (snd a)) A).


(** A file name the header line gives back: no newline, no run of three
    equal signs, no white space at either end. *)
Definition good_filename (f : str) : Prop :=
  ~ In NL f /\ contains TRIPLE_EQ f = false /\ strip f = f.

Definition good_attachment (a : str * str) : Prop :=
  good_filename (fst a) /\ contains MARKER (snd a) = false.

Definition decoded_from (idx : nat) (a : str * str) : separated_attachment :=
  {| sa_index := idx; sa_filename := fst a; sa_extracted_text := strip (snd a);
     sa_filepath := None; sa_size := None; sa_content_type := None |}.

(** What the merge of [get_email_body_and_attachments_separately] leaves
    at one position of the pair split off there: the file name of the
    entry the view lists at that position and the text of that entry if it
    carries one; without an entry, the pair as it was split off. *)
Definition merged (a : str * str) (m : option att_meta) : str * str :=
  match m with
  | Some m => (am_filename m, default (strip (snd a)) (am_extracted_text m))
  | None => (fst a, strip (snd a))
  end.



(** The line that follows the separator, and the piece between two
    separators. *)
Definition header (f : str) : str := SPACE :: f ++ SPACE :: TRIPLE_EQ.
Definition raw (f t : str) : str := header f ++ NL :: t.

Fixpoint pieces (A : list (str * str)) : list str :=
  match A with
  | [] => []
  | [a] => [raw (fst a) (snd a)]
  | a :: A' => (raw (fst a) (snd a) ++ [NL]) :: pieces A'
  end.

(** The block an attachment record contributes to the combined text. *)
Definition block_of (a : attachment_info) : str :=
  attachment_block (att_filename a) (default [] (att_extracted_text a)).

End SegmenterVocabulary.

(** ** Groups of sentences *)

Section ChunkingVocabulary.

Import Summarizer.

(** A group of sentences as the loop accumulates it: every sentence
    followed by [". "]. *)
Definition render (g : list str) : str :=
  List.concat (List.map (fun s => s ++ SENTENCE_END) g).

(** What the loop guarantees of a finished group: within the budget
    before stripping, or a single sentence. *)
Definition group_ok (count_tokens : str -> nat) (max_chunk_tokens : nat)
    (g : list str) : Prop :=
  g <> [] /\ ((count_tokens (render g) <= max_chunk_tokens)%nat \/ exists s, g = [s]).

(** The same of the group in progress, which may still be empty. *)
Definition current_ok (count_tokens : str -> nat) (max_chunk_tokens : nat)
    (g : list str) : Prop :=
  (count_tokens (render g) <= max_chunk_tokens)%nat \/ (length g <= 1)%nat.

End ChunkingVocabulary.

(** ** Outcomes of the extraction *)

Section ExtractionVocabulary.

Import Parser.

(** The strings [extract_text_from_file] returns in place of a text: a
    failure category with the text of the exception, the encoding failure,
    or the marker of an unsupported format. *)
Inductive failure_marker : str -> Prop :=
| marker_failed kind e :
    In kind [PDF_FAILED; WORD_FAILED; EXCEL_FAILED; PPT_FAILED; TEXT_READ_FAILED;
             FILE_ERROR] ->
    failure_marker (fmt_failed kind e)
| marker_encoding : failure_marker ENCODING_FAILED
| marker_unsupported ext : failure_marker (lit "[" ++ ext ++ NOT_SUPPORTED).

(** The extensions some branch of the dispatch names. *)
Definition known_extensions : list str :=
  [lit ".pdf"; lit ".docx"; lit ".doc"; lit ".xlsx"; lit ".xls"; lit ".pptx"; lit ".ppt"]
  ++ text_extensions.

(** A text a reader produced without raising. *)
Definition extracted_by (E : parser_env) (filepath text : str) : Prop :=
  (exists pages, pdf_page_texts E filepath = Returned pages /\ text = join [NL] pages)
  \/ (exists paragraphs,
        docx_paragraphs E filepath = Returned paragraphs /\ text = join [NL] paragraphs)
  \/ (exists sheets,
        xlsx_sheets E filepath = Returned sheets
        /\ text = join [NL] (List.concat (List.map sheet_lines sheets)))
  \/ (exists slides,
        pptx_slides E filepath = Returned slides /\ text = join [NL] (slide_lines 1 slides))
  \/ (exists encoding,
        In encoding text_encodings /\ read_text E filepath encoding = Returned text).

(** The reader the dispatch selects raised [e]; [kind] is the category of
    that reader. *)
Inductive reader_failed (E : parser_env) (filepath : str) : str -> exn -> Prop :=
| pdf_failed e :
    str_lower E (snd (splitext filepath)) = lit ".pdf" -> have_PyPDF2 E = true ->
    pdf_page_texts E filepath = Raised e ->
    reader_failed E filepath PDF_FAILED e
| word_failed e :
    In (str_lower E (snd (splitext filepath))) [lit ".docx"; lit ".doc"] ->
    have_Document E = true ->
    docx_paragraphs E filepath = Raised e ->
    reader_failed E filepath WORD_FAILED e
| excel_failed e :
    In (str_lower E (snd (splitext filepath))) [lit ".xlsx"; lit ".xls"] ->
    have_openpyxl E = true ->
    xlsx_sheets E filepath = Raised e ->
    reader_failed E filepath EXCEL_FAILED e
| ppt_failed e :
    In (str_lower E (snd (splitext filepath))) [lit ".pptx"; lit ".ppt"] ->
    have_Presentation E = true ->
    pptx_slides E filepath = Raised e ->
    reader_failed E filepath PPT_FAILED e
| text_failed e :
    In (str_lower E (snd (splitext filepath))) text_extensions ->
    read_with_encodings E filepath text_encodings = Raised e ->
    reader_failed E filepath TEXT_READ_FAILED e.

(** The extension belongs to a document reader whose library is absent. *)
Inductive capability_missing (E : parser_env) (ext : str) : Prop :=
| pdf_missing : ext = lit ".pdf" -> have_PyPDF2 E = false -> capability_missing E ext
| word_missing :
    In ext [lit ".docx"; lit ".doc"] -> have_Document E = false ->
    capability_missing E ext
| excel_missing :
    In ext [lit ".xlsx"; lit ".xls"] -> have_openpyxl E = false ->
    capability_missing E ext
| ppt_missing :
    In ext [lit ".pptx"; lit ".ppt"] -> have_Presentation E = false ->
    capability_missing E ext.

End ExtractionVocabulary.

(** ** Clean names *)

Section SanitizeVocabulary.

Import Parser.

(** The name after the two replacements of [sanitize_filename], before
    the length limit. *)
Definition cleaned (filename : str) : str :=
  replace [SPACE] [UNDERSCORE]
    (List.map (fun c => if is_unsafe c then UNDERSCORE else c) filename).

Definition clean_char (c : char) : bool := negb (is_unsafe c) && negb (c =? SPACE).

End SanitizeVocabulary.

(** ** Listed messages *)


(** ** Files of a message folder *)

(** The files [download_email_full] writes besides the attachments. *)
Definition artifact_paths (folder : str) : list str :=
  [path_join folder (lit "body.txt"); path_join folder (lit "body.html");
   path_join folder (lit "metadata.json")].

(** An attachment record whose file is in place: the path was free in
    [before], and [after] holds there a file of the recorded size. *)
Definition stored (before after : filesystem) (a : Parser.attachment_info) : Prop :=
  before !! Parser.att_filepath a = None
  /\ exists data,
       after !! Parser.att_filepath a = Some (File data)
       /\ Parser.att_size a = length data.

(** The invariant of the walk over the parts of a message: nothing that
    was on disk has changed, and the attachments saved so far are stored
    at distinct paths. *)
Definition walk_inv (fs : filesystem) (st : Parser.walk_state) : Prop :=
  fs ⊆ Parser.w_fs st
  /\ NoDup (List.map Parser.att_filepath (Parser.w_attachments st))
  /\ Forall (stored fs (Parser.w_fs st)) (Parser.w_attachments st).

(** ** Markers the summarizer recognises *)

(** The failure markers of the readers of [extract_text_from_file]: a
    failed reader, an undecodable text file, an unsupported format. *)
Inductive reader_marker : str -> Prop :=
| reader_marker_failed kind e :
    In kind [Parser.PDF_FAILED; Parser.WORD_FAILED; Parser.EXCEL_FAILED;
             Parser.PPT_FAILED; Parser.TEXT_READ_FAILED] ->
    reader_marker (Parser.fmt_failed kind e)
| reader_marker_encoding : reader_marker Parser.ENCODING_FAILED
| reader_marker_unsupported ext :
    reader_marker (lit "[" ++ ext ++ Parser.NOT_SUPPORTED).

(** ** Files that get attached *)

Definition blank_message : Sender.mime_message :=
  {| Sender.mm_from := []; Sender.mm_to := []; Sender.mm_subject := [];
     Sender.mm_cc := None; Sender.mm_body := []; Sender.mm_body_subtype := [];
     Sender.mm_attached := [] |}.

(** Whether [_add_attachment] attaches the file: the flag it returns,
    which does not depend on the message it adds to. *)
Definition attaches (E : Sender.sender_env) (file_path : str) : bool :=
  snd (Sender._add_attachment E blank_message [] file_path).

(** * A concrete environment, for the examples *)

Module Examples.

Import Parser.

(** An environment in which the PDF library fails, text files read as
    "World" followed by a newline, and headers need no decoding. *)
Definition example_env (fetched : option raw_message) : parser_env :=
  {| str_lower := ascii_lower;
     have_PyPDF2 := true;
     have_Document := true;
     have_openpyxl := true;
     have_Presentation := false;
     pdf_page_texts := fun _ => Raised (Exn OtherError (lit "EOF marker not found"));
     docx_paragraphs := fun _ => Returned [lit "one"; lit "two"];
     xlsx_sheets := fun _ => Returned [(lit "S1", [[Some (lit "a"); None; Some (lit "b")]; [None]])];
     pptx_slides := fun _ => Returned [[Some (lit "title"); None]];
     read_text := fun _ _ => Returned (lit "World" ++ [NL]);
     decode_header := fun s => Returned [FragStr s];
     bytes_decode := fun _ b => Returned b;
     bytes_decode_ignore := fun _ b => Returned b;
     utf8_ignore := fun b => b;
     soup_get_text := fun html => Returned html;
     now_isoformat := lit "2025-01-01T00:00:00";
     imap_fetch := fun _ => Returned fetched;
     json_dump := fun md => md_id md |}.

Definition attachment_part (name : str) (payload : list N) : mime_part :=
  {| part_content_type := lit "text/plain";
     part_disposition := Some (lit "attachment; filename=" ++ name);
     part_filename := Some name;
     part_charset := None;
     part_payload := Some payload |}.

Definition text_part (payload : list N) : mime_part :=
  {| part_content_type := lit "text/plain";
     part_disposition := None;
     part_filename := None;
     part_charset := Some (lit "utf-8");
     part_payload := Some payload |}.

Definition container_part : mime_part :=
  {| part_content_type := lit "multipart/mixed";
     part_disposition := None;
     part_filename := None;
     part_charset := None;
     part_payload := None |}.

(** A message with the body " Hello" and one attachment a.txt. *)
Definition example_message : raw_message :=
  {| msg_subject := Some (lit "Greetings");
     msg_from := Some (lit "alice@example.com");
     msg_to := Some (lit "bob@example.com");
     msg_date := Some (lit "Mon, 1 Jan 2025 00:00:00 +0000");
     msg_body :=
       Multipart [container_part; text_part (lit " Hello");
                  attachment_part (lit "a.txt") (lit "World" ++ [NL])] |}.


(** A sender for which only report.pdf is a file, and every transmission
    succeeds. *)
Definition example_sender : Sender.sender_env :=
  {| Sender.isfile := fun p => str_eqb p (lit "report.pdf");
     Sender.guess_type := fun p => if str_eqb p (lit "report.pdf")
                            then Some (lit "application/pdf") else None;
     Sender.read_bytes := fun _ => Returned [37; 80; 68; 70];
     Sender.utf8_decode := fun _ => Raised (Exn UnicodeDecodeError (lit "invalid start byte"));
     Sender.transmit := fun _ _ _ => Returned tt |}.

End Examples.

(** * Further environments, for the examples *)

Module MoreExamples.

Import Parser Summarizer Examples.

(** A message whose one attachment is named like the metadata file. *)
Definition shadowing_message : raw_message :=
  {| msg_subject := Some (lit "Report");
     msg_from := Some (lit "alice@example.com");
     msg_to := Some (lit "bob@example.com");
     msg_date := Some (lit "Mon, 1 Jan 2025 00:00:00 +0000");
     msg_body :=
       Multipart [container_part; text_part (lit "See the file.");
                  attachment_part (lit "metadata.json") (lit "payload")] |}.

(** A folder of the message 7 that holds a file a.txt already. *)
Definition used_folder : filesystem :=
  <[lit "downloads/email_7/a.txt" := File (lit "old")]>
    (<[lit "downloads/email_7" := Dir]> (<[lit "downloads" := Dir]> ∅)).

(** The body text the parser returns for the example message. *)
Definition example_body : str :=
  pc_body_text
    (snd (parse_email_body_and_attachments (example_env None) (lit "downloads") ∅
            (msg_body example_message) (lit "7") true)).

(** A viewed message that has this body and no other key. *)
Definition example_view : email_data :=
  {| ed_id := None; ed_subject := None; ed_sender := None; ed_date := None;
     ed_recipient := None; ed_body := Some example_body; ed_attachments := None |}.

Definition one_email : Suite.fetched_email :=
  {| Suite.fe_id := lit "7"; Suite.fe_subject := lit "Greetings";
     Suite.fe_sender := lit "alice@example.com";
     Suite.fe_recipient := lit "bob@example.com";
     Suite.fe_date := lit "Mon, 1 Jan 2025 00:00:00 +0000";
     Suite.fe_body := lit "Hello";
     Suite.fe_has_attachments := false; Suite.fe_attachment_count := 0 |}.

(** A facade whose mailbox always answers with the same message, whose
    summaries succeed and whose SMTP server refuses the login. *)
Definition busy_suite : Suite.suite_env :=
  {| Suite.parser_connected := true;
     Suite.summarizer_ready := true;
     Suite.smtp_ready := true;
     Suite.get_emails := fun _ _ => Returned [one_email];
     Suite.summarize_content := fun _ summary_type =>
       Returned (inr {| Suite.sf_summary := lit "A greeting.";
                        Suite.sf_summary_tokens := 3;
                        Suite.sf_original_tokens := 20;
                        Suite.sf_compression_ratio := 15%Q;
                        Suite.sf_summary_type := summary_type |});
     Suite.smtp_send_email := fun _ => Returned (Sender.SendFailed Sender.AUTH_FAILED);
     Suite.create_summary_email_body := fun _ _ => lit "digest";
     Suite.timestamp := lit "2025-01-01T00:00:00" |}.



(** A sender for which only notes.txt is a file, of a text type and with
    bytes that are not UTF-8, and every transmission succeeds. *)
Definition notes_sender : Sender.sender_env :=
  {| Sender.isfile := fun p => str_eqb p (lit "notes.txt");
     Sender.guess_type := fun _ => Some (lit "text/plain");
     Sender.read_bytes := fun _ => Returned [99; 97; 102; 233];
     Sender.utf8_decode := fun _ =>
       Raised (Exn UnicodeDecodeError (lit "invalid continuation byte"));
     Sender.transmit := fun _ _ _ => Returned tt |}.

(** A sender for which every path is a text file whose bytes are not
    UTF-8. *)
Definition latin1_sender : Sender.sender_env :=
  {| Sender.isfile := fun _ => true;
     Sender.guess_type := fun _ => Some (lit "text/plain");
     Sender.read_bytes := fun _ => Returned [99; 97; 102; 233];
     Sender.utf8_decode := fun _ =>
       Raised (Exn UnicodeDecodeError (lit "invalid continuation byte"));
     Sender.transmit := fun _ _ _ => Returned tt |}.

End MoreExamples.

(** * Facts about strings *)

(** The string functions agree with Python on a few inputs. *)
Example splitext_txt : splitext (lit "d/e_1/x.y.z") = (lit "d/e_1/x.y", lit ".z").
Proof. vm_compute. reflexivity. Qed.
Example splitext_hidden : splitext (lit "a.b/.c") = (lit "a.b/.c", []).
Proof. vm_compute. reflexivity. Qed.
Example splitext_dots : splitext (lit "...a.b") = (lit "...a", lit ".b").
Proof. vm_compute. reflexivity. Qed.
Example split_ex : split (lit ". ") (lit "a. b. ") = [lit "a"; lit "b"; []].
Proof. vm_compute. reflexivity. Qed.
Example split_ex2 : split (lit "aa") (lit "aaa") = [[]; lit "a"].
Proof. vm_compute. reflexivity. Qed.
Example replace_ex : replace (lit "===") (lit "x") (lit "====") = lit "x=".
Proof. vm_compute. reflexivity. Qed.
Example str_of_nat_ex : str_of_nat 120 = lit "120".
Proof. vm_compute. reflexivity. Qed.

Section StringFacts.

Implicit Types (s p sep a b u v x : str) (c : char).

Lemma str_eqb_eq a b : str_eqb a b = true <-> a = b.
Proof.
  revert b; induction a as [|x a IH]; intros [|y b]; simpl; try (split; congruence).
  rewrite andb_true_iff, N.eqb_eq, IH. split; [intros [-> ->]|intros [= -> ->]]; auto.
Qed.

Lemma str_eqb_refl a : str_eqb a a = true.
Proof. now apply str_eqb_eq. Qed.

Lemma startswith_spec p s : startswith p s = true <-> exists t, s = p ++ t.
Proof.
  revert s; induction p as [|x p IH]; intros s; simpl.
  - split; eauto.
  - destruct s as [|y s].
    + split; [discriminate|intros [t Ht]; discriminate].
    + rewrite andb_true_iff, N.eqb_eq, IH. split.
      * intros [-> [t ->]]. eauto.
      * intros [t [= -> ->]]. eauto.
Qed.

Lemma startswith_app p t : startswith p (p ++ t) = true.
Proof. apply startswith_spec; eauto. Qed.

Lemma app_eq_app_le {A} (l1 l2 l3 l4 : list A) :
  l1 ++ l2 = l3 ++ l4 -> (length l1 <= length l3)%nat ->
  exists l, l3 = l1 ++ l /\ l2 = l ++ l4.
Proof.
  revert l3; induction l1 as [|x l1 IH]; intros l3 H Hlen; simpl in *.
  - exists l3; auto.
  - destruct l3 as [|y l3]; simpl in *; [lia|].
    injection H as -> H. destruct (IH l3 H) as [l [-> ->]]; [lia|]. eauto.
Qed.

Lemma find_sub_Some sep s b a :
  find_sub sep s = Some (b, a) -> s = b ++ sep ++ a.
Proof.
  revert b; induction s as [|c s IH]; intros b; simpl.
  - destruct (startswith sep []) eqn:Hp; [|discriminate].
    apply startswith_spec in Hp as [t Ht]. intros [= <- <-].
    symmetry in Ht. apply app_eq_nil in Ht as [-> ->]. reflexivity.
  - destruct (startswith sep (c :: s)) eqn:Hp.
    + apply startswith_spec in Hp as [t Ht]. intros [= <- <-].
      rewrite Ht, drop_app_length. reflexivity.
    + destruct (find_sub sep s) as [[b' a']|] eqn:Hf; [|discriminate].
      intros [= <- <-]. rewrite (IH b' eq_refl). reflexivity.
Qed.

Lemma find_sub_first sep b a s :
  s = b ++ sep ++ a ->
  (forall u v, s = u ++ sep ++ v -> (length b <= length u)%nat) ->
  find_sub sep s = Some (b, a).
Proof.
  revert s; induction b as [|c b IH]; intros s -> Hmin.
  - simpl app. destruct (sep ++ a) as [|y r] eqn:Hs.
    + apply app_eq_nil in Hs as [-> ->]. reflexivity.
    + simpl. rewrite <- Hs, startswith_app, drop_app_length. reflexivity.
  - simpl app. simpl find_sub.
    destruct (startswith sep (c :: b ++ sep ++ a)) eqn:Hp.
    + apply startswith_spec in Hp as [t Ht].
      specialize (Hmin [] t Ht). simpl in Hmin. lia.
    + rewrite (IH (b ++ sep ++ a) eq_refl); [reflexivity|].
      intros u v Huv. specialize (Hmin (c :: u) v). simpl in Hmin.
      rewrite Huv in Hmin. specialize (Hmin eq_refl). lia.
Qed.

Lemma find_sub_None sep s : find_sub sep s = None -> ~ occurs sep s.
Proof.
  intros Hn (u & v & ->). revert Hn. induction u as [|c u IH]; simpl.
  - destruct (sep ++ v) as [|y r] eqn:Hs.
    + apply app_eq_nil in Hs as [-> ->]. discriminate.
    + simpl. rewrite <- Hs, startswith_app. discriminate.
  - destruct (startswith sep (c :: u ++ sep ++ v)); [discriminate|].
    destruct (find_sub sep (u ++ sep ++ v)) as [[? ?]|]; [discriminate|auto].
Qed.

Lemma contains_spec sep s : contains sep s = true <-> occurs sep s.
Proof.
  unfold contains. destruct (find_sub sep s) as [[b a]|] eqn:Hf.
  - split; [|reflexivity]. intros _. exists b, a. now apply find_sub_Some.
  - split; [discriminate|]. intros H. now apply find_sub_None in Hf.
Qed.

Lemma not_contains_spec sep s : contains sep s = false <-> ~ occurs sep s.
Proof.
  rewrite <- contains_spec. destruct (contains sep s); split; congruence.
Qed.

Lemma find_sub_absent sep s : ~ occurs sep s -> find_sub sep s = None.
Proof.
  intros H. destruct (find_sub sep s) as [[b a]|] eqn:Hf; [|reflexivity].
  exfalso. apply H. exists b, a. now apply find_sub_Some.
Qed.

Lemma occurs_app_l sep s t : occurs sep s -> occurs sep (s ++ t).
Proof. intros (u & v & ->). exists u, (v ++ t). now rewrite <- !app_assoc. Qed.

Lemma occurs_app_r sep s t : occurs sep s -> occurs sep (t ++ s).
Proof. intros (u & v & ->). exists (t ++ u), v. now rewrite <- !app_assoc. Qed.

Lemma occurs_inner sep m s : occurs sep m -> occurs m s -> occurs sep s.
Proof.
  intros Hm (u & v & ->). now apply occurs_app_r, occurs_app_l.
Qed.

(** ** split *)

Lemma find_sub_shorter sep s b a :
  sep <> [] -> find_sub sep s = Some (b, a) -> (length a < length s)%nat.
Proof.
  intros Hne Hf. apply find_sub_Some in Hf as ->.
  rewrite !length_app. destruct sep; [congruence|simpl; lia].
Qed.

Lemma split_max_enough sep : sep <> [] ->
  forall n m s, (length s <= n)%nat -> (length s <= m)%nat ->
  split_max n sep s = split_max m sep s.
Proof.
  intros Hne. induction n as [|n IH]; intros [|m] s Hn Hm; simpl; auto.
  - destruct s; [|simpl in Hn; lia]. destruct sep; [congruence|reflexivity].
  - destruct s; [|simpl in Hm; lia]. destruct sep; [congruence|reflexivity].
  - destruct (find_sub sep s) as [[b a]|] eqn:Hf; [|reflexivity].
    pose proof (find_sub_shorter _ _ _ _ Hne Hf). f_equal. apply IH; lia.
Qed.

Lemma split_cut sep s b a :
  sep <> [] -> find_sub sep s = Some (b, a) -> split sep s = b :: split sep a.
Proof.
  intros Hne Hf. unfold split. pose proof (find_sub_shorter _ _ _ _ Hne Hf).
  destruct (length s) as [|n] eqn:Hl; [lia|]. simpl. rewrite Hf. f_equal.
  apply split_max_enough; auto; lia.
Qed.

Lemma split_absent sep s : ~ occurs sep s -> split sep s = [s].
Proof.
  intros H. unfold split. destruct (length s); simpl; [reflexivity|].
  now rewrite find_sub_absent.
Qed.

Lemma split_max_one_cut sep s b a :
  find_sub sep s = Some (b, a) -> split_max 1 sep s = [b; a].
Proof. intros Hf. simpl. now rewrite Hf. Qed.

(** ** Clean cuts *)

Lemma unborderedb_sound sep : unborderedb sep = true -> unbordered sep.
Proof.
  intros H x q -> Hx Hq. unfold unborderedb in H.
  rewrite forallb_forall in H. specialize (H (length x)).
  rewrite drop_app_length in H. apply negb_true_iff, H, in_seq.
  rewrite length_app. destruct x, q; simpl; try congruence; lia.
Qed.

Lemma clean_cut sep a r :
  unbordered sep -> ~ occurs sep a ->
  find_sub sep (a ++ sep ++ r) = Some (a, r).
Proof.
  intros Hub Hno. apply find_sub_first; [reflexivity|].
  intros u v Huv. destruct (le_lt_dec (length a) (length u)) as [|Hlt]; [assumption|].
  exfalso. symmetry in Huv.
  destruct (app_eq_app_le _ _ _ _ Huv) as (x & -> & Hx); [lia|].
  assert (x <> []) by (intros ->; rewrite length_app in Hlt; simpl in Hlt; lia).
  destruct (le_lt_dec (length sep) (length x)) as [Hle|Hlt'].
  - destruct (app_eq_app_le _ _ _ _ Hx Hle) as (y & -> & _).
    apply Hno. exists u, y. reflexivity.
  - symmetry in Hx. destruct (app_eq_app_le _ _ _ _ Hx) as (q & Hq & Hq'); [lia|].
    assert (q <> []) by (intros ->; rewrite Hq, length_app in Hlt'; simpl in Hlt'; lia).
    assert (Hpre : startswith q sep = true).
    { apply startswith_spec. symmetry in Hq'.
      destruct (app_eq_app_le _ _ _ _ Hq') as (t & Ht & _); eauto.
      rewrite Hq, length_app. lia. }
    rewrite (Hub x q Hq) in Hpre; auto. discriminate.
Qed.

(** An occurrence of [sep] cannot start inside a text that lacks its
    first character. *)
Lemma occurs_skip c sep' h s :
  ~ In c h -> occurs (c :: sep') (h ++ s) -> occurs (c :: sep') s.
Proof.
  intros Hc (u & v & Huv).
  destruct (le_lt_dec (length h) (length u)) as [Hle|Hlt].
  - destruct (app_eq_app_le _ _ _ _ Huv Hle) as (x & -> & ->). exists x, v. reflexivity.
  - symmetry in Huv. destruct (app_eq_app_le _ _ _ _ Huv) as (x & -> & Hx); [lia|].
    destruct x as [|y x]; [rewrite length_app in Hlt; simpl in Hlt; lia|].
    simpl in Hx. injection Hx as <- _. exfalso. apply Hc, in_app_iff. right. now left.
Qed.

Lemma occurs_cons sep c s :
  occurs sep (c :: s) -> startswith sep (c :: s) = true \/ occurs sep s.
Proof.
  intros ([|y u] & v & Huv).
  - left. apply startswith_spec. eauto.
  - right. simpl in Huv. injection Huv as _ ->. exists u, v. reflexivity.
Qed.

(** A text that ends with a character foreign to [sep] holds [sep] only
    before that character. *)
Lemma occurs_snoc sep s c :
  sep <> [] -> ~ In c sep -> occurs sep (s ++ [c]) -> occurs sep s.
Proof.
  intros Hne Hc (u & v & Huv).
  destruct (exists_last Hne) as (sep0 & d & ->).
  destruct v as [|y v] using rev_ind.
  - rewrite app_nil_r, app_assoc in Huv. apply app_inj_tail in Huv as [_ <-].
    exfalso. apply Hc, in_app_iff. right. now left.
  - rewrite !app_assoc in Huv. apply app_inj_tail in Huv as [-> _].
    exists u, v. now rewrite <- !app_assoc.
Qed.

Lemma find_sub_char c h t :
  ~ In c h -> find_sub [c] (h ++ c :: t) = Some (h, t).
Proof.
  intros Hc. change (h ++ c :: t) with (h ++ [c] ++ t).
  apply clean_cut.
  - intros [|y x] q Hq Hx Hnq; [congruence|].
    destruct x; [|destruct x; discriminate]. destruct q; [congruence|discriminate].
  - intros (u & v & ->). apply Hc. rewrite !in_app_iff. right. left. now left.
Qed.

(** A cut before a last character foreign to [sep]. *)
Lemma clean_cut_foreign sep a c :
  sep <> [] -> ~ In c sep -> ~ occurs sep a ->
  find_sub sep ((a ++ [c]) ++ sep ++ []) = Some (a ++ [c], []).
Proof.
  intros Hne Hc Hno. apply find_sub_first; [reflexivity|].
  intros u v Huv. destruct (le_lt_dec (length (a ++ [c])) (length u)) as [|Hlt]; [assumption|].
  exfalso. symmetry in Huv.
  destruct (app_eq_app_le _ _ _ _ Huv) as (x & Hx & Hx'); [lia|].
  assert (x <> []) by (intros ->; rewrite Hx, !length_app in Hlt; simpl in Hlt; lia).
  destruct (exists_last H) as (x0 & d & ->).
  rewrite app_assoc in Hx. apply app_inj_tail in Hx as [-> <-].
  destruct (le_lt_dec (length sep) (length (x0 ++ [c]))) as [Hle|Hlt'].
  - destruct (app_eq_app_le _ _ _ _ Hx' Hle) as (y & Hy & _).
    apply Hno, (occurs_snoc sep _ c Hne Hc). exists u, y.
    now rewrite <- !app_assoc, Hy.
  - symmetry in Hx'. destruct (app_eq_app_le _ _ _ _ Hx') as (q & Hq & _); [lia|].
    apply Hc. rewrite Hq, !in_app_iff. left. right. now left.
Qed.

End StringFacts.

(** ** strip *)

Section StripFacts.

Implicit Types (s t : str) (c d : char).

Lemma lstrip_decomp s : exists w, s = w ++ lstrip s.
Proof.
  induction s as [|c s [w IH]]; simpl.
  - exists []. reflexivity.
  - destruct (is_space c).
    + exists (c :: w). simpl. now f_equal.
    + exists []. reflexivity.
Qed.

Lemma lstrip_length s : (length (lstrip s) <= length s)%nat.
Proof.
  destruct (lstrip_decomp s) as [w Hw]. rewrite Hw at 2. rewrite length_app. lia.
Qed.

Lemma lstrip_head c s : is_space c = false -> lstrip (c :: s) = c :: s.
Proof. intros H. simpl. now rewrite H. Qed.

Lemma lstrip_fixed_head c s : lstrip (c :: s) = c :: s -> is_space c = false.
Proof.
  simpl. destruct (is_space c); [|reflexivity]. intros H.
  pose proof (lstrip_length s) as Hl. rewrite H in Hl. simpl in Hl. lia.
Qed.

Lemma lstrip_app s t :
  lstrip (s ++ t) = match lstrip s with [] => lstrip t | _ => lstrip s ++ t end.
Proof.
  induction s as [|c s IH]; simpl; [reflexivity|].
  destruct (is_space c); [assumption|reflexivity].
Qed.

Lemma lstrip_idem s : lstrip (lstrip s) = lstrip s.
Proof.
  induction s as [|c s IH]; simpl; [reflexivity|].
  destruct (is_space c) eqn:Hc; [assumption|]. simpl. now rewrite Hc.
Qed.

Lemma rstrip_decomp s : exists w, s = rstrip s ++ w.
Proof.
  unfold rstrip. destruct (lstrip_decomp (rev s)) as [w Hw].
  exists (rev w). rewrite <- rev_app_distr, <- Hw. symmetry. apply rev_involutive.
Qed.

Lemma rstrip_length s : (length (rstrip s) <= length s)%nat.
Proof.
  destruct (rstrip_decomp s) as [w Hw]. rewrite Hw at 2. rewrite length_app. lia.
Qed.

Lemma rstrip_last s d : is_space d = false -> rstrip (s ++ [d]) = s ++ [d].
Proof.
  intros H. unfold rstrip. rewrite rev_unit, lstrip_head by assumption.
  rewrite <- rev_unit. apply rev_involutive.
Qed.

Lemma rstrip_snoc_space s c : is_space c = true -> rstrip (s ++ [c]) = rstrip s.
Proof. intros H. unfold rstrip. rewrite rev_unit. simpl. now rewrite H. Qed.

Lemma strip_snoc_space s c : is_space c = true -> strip (s ++ [c]) = strip s.
Proof.
  intros H. unfold strip. rewrite lstrip_app.
  destruct (lstrip s) as [|x r] eqn:Hs.
  - simpl. now rewrite H.
  - now apply rstrip_snoc_space.
Qed.

Lemma strip_decomp s : exists l r, s = l ++ strip s ++ r.
Proof.
  unfold strip. destruct (lstrip_decomp s) as [l Hl].
  destruct (rstrip_decomp (lstrip s)) as [r Hr].
  exists l, r. now rewrite <- Hr.
Qed.

Lemma app_same_length_nil {A} (w l : list A) : l = w ++ l -> w = [].
Proof.
  intros H. apply (f_equal (@length A)) in H. rewrite length_app in H.
  destruct w; [reflexivity|simpl in H; lia].
Qed.

Lemma strip_fixed s : strip s = s -> lstrip s = s /\ rstrip s = s.
Proof.
  intros H. assert (Hl : lstrip s = s).
  { destruct (lstrip_decomp s) as [w Hw].
    pose proof (rstrip_length (lstrip s)) as H1. unfold strip in H. rewrite H in H1.
    assert (w = []) as ->; [|now symmetry].
    apply (f_equal (@length N)) in Hw. rewrite length_app in Hw.
    destruct w; [reflexivity|simpl in Hw; lia]. }
  split; [assumption|]. unfold strip in H. now rewrite Hl in H.
Qed.

Lemma lstrip_rstrip_fixed s : lstrip s = s -> lstrip (rstrip s) = rstrip s.
Proof.
  intros H. destruct (rstrip_decomp s) as [w Hw].
  destruct (rstrip s) as [|c q]; [reflexivity|].
  rewrite Hw in H. simpl app in H. apply lstrip_fixed_head in H. now apply lstrip_head.
Qed.

Lemma strip_idem s : strip (strip s) = strip s.
Proof.
  assert (Hl : lstrip (strip s) = strip s)
    by (unfold strip; apply lstrip_rstrip_fixed, lstrip_idem).
  unfold strip at 1. rewrite Hl.
  unfold strip, rstrip. rewrite rev_involutive, lstrip_idem. reflexivity.
Qed.

Lemma occurs_strip sep s : occurs sep (strip s) -> occurs sep s.
Proof.
  intros H. destruct (strip_decomp s) as (l & r & Hs). rewrite Hs.
  now apply occurs_app_r, occurs_app_l.
Qed.

End StripFacts.

(** * The combined text and its splitting *)

Section Segmenter.

Import Parser Summarizer.

Lemma SEP_unbordered : unbordered SEP.
Proof. apply unborderedb_sound. vm_compute. reflexivity. Qed.

Lemma SEP_nonempty : SEP <> [].
Proof. discriminate. Qed.

Lemma occurs_SEP_MARKER s : occurs SEP s -> occurs MARKER s.
Proof. apply occurs_inner. exists [NL; NL], []. reflexivity. Qed.

Lemma block_eq f t : attachment_block f t = SEP ++ raw f t.
Proof.
  unfold attachment_block, raw, header. simpl. rewrite <- app_assoc. reflexivity.
Qed.

Lemma header_no_NL f : ~ In NL f -> ~ In NL (header f).
Proof.
  intros Hf [H|H]; [discriminate|]. apply in_app_iff in H as [H|H]; [auto|].
  simpl in H. unfold NL in H. intuition discriminate.
Qed.

Lemma marker_free_tail t tl :
  contains MARKER t = false -> tl = [] \/ tl = [NL] -> ~ occurs MARKER (t ++ tl).
Proof.
  intros Ht [-> | ->].
  - rewrite app_nil_r. now apply not_contains_spec.
  - intros H. apply occurs_snoc in H.
    + now apply not_contains_spec in Ht.
    + discriminate.
    + vm_compute. intuition discriminate.
Qed.

Lemma raw_clean f t tl :
  good_attachment (f, t) -> tl = [] \/ tl = [NL] -> ~ occurs SEP (raw f t ++ tl).
Proof.
  intros [(Hnl & _ & _) Ht] Htl H. simpl in *.
  pose proof (marker_free_tail t tl Ht Htl) as Hfree.
  unfold raw in H. rewrite <- app_assoc in H.
  apply (occurs_skip NL (NL :: MARKER) (header f)) in H; [|now apply header_no_NL].
  simpl app in H. apply occurs_cons in H as [H|H].
  - apply startswith_spec in H as [v Hv]. injection Hv as Hv.
    apply Hfree. exists [NL], v. rewrite Hv. reflexivity.
  - now apply occurs_SEP_MARKER in H.
Qed.

Lemma strip_header f :
  f <> [] -> good_filename f -> strip (header f) = f ++ SPACE :: TRIPLE_EQ.
Proof.
  intros Hne (_ & _ & Hs). apply strip_fixed in Hs as [Hl _].
  unfold strip, header. simpl lstrip.
  assert (Hh : lstrip (f ++ SPACE :: TRIPLE_EQ) = f ++ SPACE :: TRIPLE_EQ).
  { destruct f as [|c f]; [congruence|].
    apply lstrip_fixed_head in Hl. simpl app. now apply lstrip_head. }
  rewrite Hh. change (f ++ SPACE :: TRIPLE_EQ) with (f ++ [SPACE; 61; 61] ++ [61]).
  rewrite app_assoc. now apply rstrip_last.
Qed.

Lemma filename_recovered f :
  good_filename f -> strip (replace TRIPLE_EQ [] (strip (header f))) = f.
Proof.
  intros Hg. destruct f as [|c f0] eqn:Hf; [vm_compute; reflexivity|]. rewrite <- Hf in *.
  rewrite (strip_header f) by (auto; congruence). destruct Hg as (_ & Heq & Hs).
  unfold replace.
  assert (Hcut : find_sub TRIPLE_EQ (f ++ SPACE :: TRIPLE_EQ) = Some (f ++ [SPACE], [])).
  { change (f ++ SPACE :: TRIPLE_EQ) with (f ++ [SPACE] ++ TRIPLE_EQ ++ []).
    rewrite app_assoc. apply clean_cut_foreign.
    - discriminate.
    - vm_compute. intuition discriminate.
    - now apply not_contains_spec. }
  assert (Hne : TRIPLE_EQ <> []) by discriminate.
  rewrite (split_cut _ _ _ _ Hne Hcut).
  change (split TRIPLE_EQ []) with [@nil N]. simpl join. rewrite !app_nil_r.
  rewrite strip_snoc_space by reflexivity. assumption.
Qed.

Lemma parse_raw idx f t tl :
  good_attachment (f, t) -> tl = [] \/ tl = [NL] ->
  parse_attachment_part idx (raw f t ++ tl) = decoded_from idx (f, t).
Proof.
  intros [Hg Ht] Htl. simpl in Hg, Ht. unfold parse_attachment_part, decoded_from, raw.
  rewrite <- app_assoc. change ((NL :: t) ++ tl) with (NL :: t ++ tl).
  rewrite (split_max_one_cut [NL] _ (header f) (t ++ tl)).
  - simpl nth. rewrite (filename_recovered f Hg). simpl. f_equal.
    destruct Htl as [-> | ->]; [now rewrite app_nil_r|].
    now apply strip_snoc_space.
  - apply find_sub_char, header_no_NL, Hg.
Qed.

Lemma join_cons sep x l : l <> [] -> join sep (x :: l) = x ++ sep ++ join sep l.
Proof. destruct l; [congruence|reflexivity]. Qed.

Lemma split_blocks A : A <> [] -> Forall good_attachment A ->
  forall pre, ~ occurs SEP pre ->
  split SEP (pre ++ join [NL] (List.map (fun a => attachment_block (fst a) (snd a)) A))
  = pre :: pieces A.
Proof.
  induction A as [|[f t] A IH]; [congruence|]. intros _ Hall pre Hpre.
  apply Forall_cons_iff in Hall as [Hg Hall].
  destruct A as [|a2 A].
  - simpl. rewrite block_eq.
    rewrite (split_cut SEP _ pre (raw f t) SEP_nonempty)
      by (apply clean_cut; auto using SEP_unbordered).
    f_equal. apply split_absent.
    rewrite <- (app_nil_r (raw f t)). apply raw_clean; auto.
  - set (F := fun a : str * str => attachment_block (fst a) (snd a)) in *.
    assert (Heq : pre ++ join [NL] (List.map F ((f, t) :: a2 :: A))
                  = pre ++ SEP ++ ((raw f t ++ [NL]) ++ join [NL] (List.map F (a2 :: A)))).
    { change (List.map F ((f, t) :: a2 :: A))
        with (attachment_block f t :: List.map F (a2 :: A)).
      rewrite join_cons by discriminate. rewrite block_eq.
      now rewrite <- !app_assoc. }
    rewrite Heq.
    rewrite (split_cut SEP _ pre _ SEP_nonempty)
      by (apply clean_cut; auto using SEP_unbordered).
    f_equal. change (pieces ((f, t) :: a2 :: A))
      with ((raw f t ++ [NL]) :: pieces (a2 :: A)).
    apply IH; [discriminate|assumption|]. apply raw_clean; auto.
Qed.

Lemma parse_pieces A : Forall good_attachment A -> forall start,
  List.map (fun ip => parse_attachment_part (fst ip) (snd ip))
    (enumerate_from start (pieces A))
  = List.map (fun ia => decoded_from (fst ia) (snd ia)) (enumerate_from start A).
Proof.
  induction A as [|[f t] A IH]; intros Hall start; [reflexivity|].
  apply Forall_cons_iff in Hall as [Hg Hall].
  destruct A as [|a2 A].
  - simpl. f_equal. rewrite <- (app_nil_r (raw f t)). apply parse_raw; auto.
  - change (pieces ((f, t) :: a2 :: A)) with ((raw f t ++ [NL]) :: pieces (a2 :: A)).
    simpl enumerate_from. simpl List.map. f_equal; [apply parse_raw; auto|].
    apply (IH Hall (S start)).
Qed.

Lemma encode_has_marker B a A :
  contains MARKER (encode B (a :: A)) = true.
Proof.
  apply contains_spec. unfold encode, combine_text. simpl List.map.
  apply occurs_app_r. destruct A as [|a2 A].
  - simpl. rewrite block_eq. apply occurs_app_l.
    exists [NL; NL], []. reflexivity.
  - rewrite join_cons by discriminate. rewrite block_eq.
    apply occurs_app_l, occurs_app_l. exists [NL; NL], []. reflexivity.
Qed.

Lemma separate_body_encode B A :
  contains MARKER B = false -> Forall good_attachment A ->
  separate_body (encode B A)
  = (strip B,
     List.map (fun ia => decoded_from (fst ia) (snd ia)) (enumerate_from 1 A)).
Proof.
  intros HB HA. assert (Hfree : ~ occurs MARKER (strip B)).
  { intros H. apply occurs_strip in H. now apply not_contains_spec in HB. }
  destruct A as [|a A].
  - unfold separate_body, encode. simpl.
    apply not_contains_spec in Hfree. now rewrite Hfree.
  - unfold separate_body. rewrite encode_has_marker.
    unfold encode, combine_text.
    change (match List.map _ (a :: A) with [] => strip B | _ => ?x end) with x.
    assert (Hne : a :: A <> []) by discriminate.
    rewrite (split_blocks (a :: A) Hne HA (strip B)).
    + rewrite strip_idem. f_equal. now apply parse_pieces.
    + intros H. now apply occurs_SEP_MARKER in H.
Qed.

(** ** The merge with the entries of the view *)





End Segmenter.

(** * Claims on the segmenter *)

Section SegmenterClaims.

Import Parser Summarizer Examples MoreExamples.





End SegmenterClaims.

(** * Chunking by tokens *)

Section Chunking.

Import Summarizer.

Variable count_tokens : str -> nat.
Variable max_chunk_tokens : nat.

Local Abbreviation group_ok := (group_ok count_tokens max_chunk_tokens).
Local Abbreviation current_ok := (current_ok count_tokens max_chunk_tokens).

Lemma render_snoc g s : render (g ++ [s]) = render g ++ s ++ SENTENCE_END.
Proof.
  unfold render. rewrite List.map_app, concat_app. simpl. now rewrite app_nil_r.
Qed.

Lemma render_nil_iff g : render g = [] <-> g = [].
Proof.
  split; [|intros ->; reflexivity]. destruct g as [|s g]; [reflexivity|].
  unfold render. simpl. intros H. apply app_eq_nil in H as [H _].
  apply app_eq_nil in H as [_ H]. discriminate.
Qed.

Lemma chunk_step_groups gs g s :
  Forall group_ok gs -> current_ok g ->
  exists gs1 g1,
    chunk_step count_tokens max_chunk_tokens
      (List.map (fun g => strip (render g)) gs, render g) s
    = (List.map (fun g => strip (render g)) gs1, render g1)
    /\ List.concat gs1 ++ g1 = List.concat gs ++ g ++ [s]
    /\ Forall group_ok gs1 /\ current_ok g1 /\ g1 <> [].
Proof.
  intros Hgs Hg. unfold chunk_step. rewrite <- render_snoc.
  destruct (max_chunk_tokens <? count_tokens (render (g ++ [s])))%nat eqn:Hcmp.
  - assert (Hs : s ++ SENTENCE_END = render [s])
      by (unfold render; simpl; now rewrite app_nil_r).
    rewrite Hs. destruct g as [|s0 g].
    + exists gs, [s]. simpl render at 1.
      split; [reflexivity|]. split; [reflexivity|]. split; [assumption|].
      split; [right; simpl; lia|discriminate].
    + destruct (render (s0 :: g)) as [|c r] eqn:Hr.
      { apply render_nil_iff in Hr. discriminate. }
      rewrite <- Hr. exists (gs ++ [s0 :: g]), [s].
      split; [now rewrite List.map_app|]. split.
      { rewrite concat_app. simpl. now rewrite app_nil_r, <- !app_assoc. }
      split.
      { apply Forall_app. split; [assumption|]. constructor; [|constructor].
        split; [discriminate|]. destruct Hg as [Hg|Hg]; [left; exact Hg|].
        right. destruct g; [eauto|simpl in Hg; lia]. }
      split; [right; simpl; lia|discriminate].
  - apply Nat.ltb_ge in Hcmp. exists gs, (g ++ [s]).
    split; [reflexivity|]. split; [reflexivity|]. split; [assumption|].
    split; [left; exact Hcmp|]. destruct g; discriminate.
Qed.

Lemma chunk_fold_groups sentences : forall gs g,
  Forall group_ok gs -> current_ok g ->
  exists gs' g',
    fold_left (chunk_step count_tokens max_chunk_tokens) sentences
      (List.map (fun g => strip (render g)) gs, render g)
    = (List.map (fun g => strip (render g)) gs', render g')
    /\ List.concat gs' ++ g' = List.concat gs ++ g ++ sentences
    /\ Forall group_ok gs' /\ current_ok g'
    /\ (sentences <> [] -> g' <> []).
Proof.
  induction sentences as [|s sentences IH]; intros gs g Hgs Hg.
  - exists gs, g. rewrite app_nil_r. repeat split; auto; congruence.
  - destruct (chunk_step_groups gs g s Hgs Hg) as (gs1 & g1 & Hstep & Hc1 & Hgs1 & Hg1 & Hne1).
    destruct (IH gs1 g1 Hgs1 Hg1) as (gs' & g' & Hf & Hc & Hok & Hcur & Hne).
    exists gs', g'. split; [cbn [fold_left]; rewrite Hstep; exact Hf|]. split.
    { rewrite Hc, app_assoc, Hc1, <- !app_assoc. reflexivity. }
    split; [assumption|]. split; [assumption|]. intros _.
    destruct sentences as [|s1 sentences']; [|apply Hne; discriminate].
    simpl in Hf. injection Hf as _ Hf. intros ->. apply Hne1, render_nil_iff.
    change (render []) with (@nil N) in Hf. congruence.
Qed.

(** ** join after split *)

Lemma join_split_max sep n s : join sep (split_max n sep s) = s.
Proof.
  revert s; induction n as [|n IH]; intros s; simpl; [reflexivity|].
  destruct (find_sub sep s) as [[b a]|] eqn:Hf; [|reflexivity].
  apply find_sub_Some in Hf as ->.
  specialize (IH a). destruct (split_max n sep a) eqn:Hs.
  - destruct n; simpl in Hs; [discriminate|].
    destruct (find_sub sep a) as [[? ?]|]; discriminate.
  - rewrite join_cons by discriminate. now rewrite IH.
Qed.

Lemma split_nonempty sep s : split sep s <> [].
Proof.
  unfold split. destruct (length s); simpl; [discriminate|].
  destruct (find_sub sep s) as [[? ?]|]; discriminate.
Qed.

Lemma render_join l : l <> [] -> render l = join SENTENCE_END l ++ SENTENCE_END.
Proof.
  induction l as [|s l IH]; [congruence|]. intros _. destruct l as [|s' l].
  - unfold render. simpl. now rewrite app_nil_r.
  - rewrite join_cons by discriminate. unfold render in *. simpl List.map. simpl List.concat.
    simpl List.map in IH. simpl List.concat in IH. rewrite IH by discriminate.
    now rewrite <- !app_assoc.
Qed.

Lemma concat_render gs : List.concat (List.map render gs) = render (List.concat gs).
Proof.
  induction gs as [|g gs IH]; [reflexivity|]. simpl. rewrite IH.
  unfold render. now rewrite List.map_app, concat_app.
Qed.

End Chunking.

Section ChunkingClaims.

Import Summarizer.

(** C3, counterexample.  With one token per character and the chunk
    budget 3000 that every caller passes, a text of 3001 letters without
    sentence end exceeds the budget and comes back as one chunk of 3002
    tokens; and the text "A. B" comes back as the one chunk "A. B.", which
    is not the text and whose sentences are "A" and "B.", not "A" and "B". *)
Lemma chunking_counterexample :
  Nat.ltb 3000 (length (repeat 97 3001)) = true
  /\ split_text_by_tokens (@length N) (repeat 97 3001) 3000 = [repeat 97 3001 ++ [DOT]]
  /\ Nat.ltb 3000 (length (repeat 97 3001 ++ [DOT])) = true
  /\ split_text_by_tokens (@length N) (lit "A. B") 3000 = [lit "A. B."]
  /\ split SENTENCE_END (lit "A. B") = [lit "A"; lit "B"]
  /\ split SENTENCE_END (lit "A. B.") = [lit "A"; lit "B."].
Proof. vm_compute. repeat split; reflexivity. Qed.

(** C3, amended.  For every text, the chunks [split_text_by_tokens]
    returns are the stripped renderings of consecutive groups of the
    sentences of the text (each sentence followed by ". "): the groups, in
    order, hold every sentence once, so that their renderings concatenate
    to the text followed by ". "; and every group whose rendering exceeds
    the chunk budget holds a single sentence. *)
Theorem chunks_are_sentence_groups (count_tokens : str -> nat) (text : str)
    (max_chunk_tokens : nat) :
  exists groups : list (list str),
    split_text_by_tokens count_tokens text max_chunk_tokens
    = List.map (fun g => strip (render g)) groups
    /\ List.concat groups = split SENTENCE_END text
    /\ List.concat (List.map render groups) = text ++ SENTENCE_END
    /\ Forall (fun g => g <> [] /\
                 ((count_tokens (render g) <= max_chunk_tokens)%nat
                  \/ exists s, g = [s])) groups.
Proof.
  unfold split_text_by_tokens.
  destruct (chunk_fold_groups count_tokens max_chunk_tokens (split SENTENCE_END text) [] [])
    as (gs & g & Hf & Hc & Hok & Hcur & Hne).
  { constructor. }
  { right. simpl. lia. }
  specialize (Hne (split_nonempty _ _)).
  change (List.map (fun g => strip (render g)) [], render []) with (@nil str, @nil N) in Hf.
  rewrite Hf. simpl in Hc.
  destruct (render g) as [|c r] eqn:Hr; [apply render_nil_iff in Hr; contradiction|].
  rewrite <- Hr. exists (gs ++ [g]).
  assert (Hcat : List.concat (gs ++ [g]) = split SENTENCE_END text)
    by (rewrite concat_app; simpl; now rewrite app_nil_r).
  split; [now rewrite List.map_app|]. split; [exact Hcat|]. split.
  - rewrite concat_render, Hcat, render_join by apply split_nonempty.
    unfold split. now rewrite join_split_max.
  - apply Forall_app. split; [exact Hok|]. constructor; [|constructor].
    split; [assumption|]. destruct Hcur as [Hcur|Hcur]; [left; exact Hcur|].
    right. destruct g as [|s [|s' g]]; [contradiction|eauto|simpl in Hcur; lia].
Qed.

End ChunkingClaims.

(** * Saving attachments *)

Section CollisionFacts.

Import Parser.

Lemma uint_digits_inj d d' : uint_digits d = uint_digits d' -> d = d'.
Proof.
  revert d'; induction d; intros [] H; simpl in H; try discriminate;
    try reflexivity; f_equal; apply IHd; congruence.
Qed.

Lemma str_of_nat_inj n n' : str_of_nat n = str_of_nat n' -> n = n'.
Proof. intros H. now apply Unsigned.to_uint_inj, uint_digits_inj. Qed.

Lemma numbered_inj original j j' :
  numbered original j = numbered original j' -> j = j'.
Proof.
  unfold numbered. destruct (splitext original) as [name ext]. intros H.
  apply app_inv_head in H. apply app_inv_head in H. apply app_inv_tail in H.
  now apply str_of_nat_inj.
Qed.

Lemma fs_exists_false (fs : filesystem) p : fs_exists fs p = false <-> fs !! p = None.
Proof. unfold fs_exists. destruct (fs !! p); split; congruence. Qed.

(** Among the first [size fs + 1] numbered names one is free. *)
Lemma exists_free_index (fs : filesystem) original :
  exists n, (n <= size fs)%nat /\ fs !! numbered original (1 + n) = None.
Proof.
  assert (Hsearch : forall m,
            (exists n, (n < m)%nat /\ fs !! numbered original (1 + n) = None)
            \/ (forall n, (n < m)%nat -> is_Some (fs !! numbered original (1 + n)))).
  { induction m as [|m [IH|IH]].
    - right. intros n Hn. lia.
    - left. destruct IH as (n & Hn & Hfree). exists n. split; [lia|assumption].
    - destruct (fs !! numbered original (1 + m)) eqn:Hm.
      + right. intros n Hn. destruct (decide (n = m)) as [->|Hne].
        * rewrite Hm. eauto.
        * apply IH. lia.
      + left. exists m. split; [lia|assumption]. }
  destruct (Hsearch (S (size fs))) as [(n & Hn & Hfree)|Hall].
  - exists n. split; [lia|assumption].
  - exfalso.
    set (l := List.map (fun n => numbered original (1 + n)) (seq 0 (S (size fs)))).
    assert (Hnd : NoDup l).
    { apply NoDup_fmap_2; [|apply NoDup_seq].
      intros j j' H. apply numbered_inj in H. lia. }
    assert (Hsub : (list_to_set l : gset str) ⊆ dom fs).
    { intros p Hp. apply elem_of_list_to_set, list_elem_of_In, in_map_iff in Hp
        as (n & <- & Hn). apply in_seq in Hn. apply elem_of_dom, Hall. lia. }
    apply subseteq_size in Hsub. rewrite size_list_to_set, size_dom in Hsub by assumption.
    unfold l in Hsub. rewrite length_map, length_seq in Hsub. lia.
Qed.

Lemma free_filepath_reaches (fs : filesystem) original : forall n fuel filepath counter,
  fs !! numbered original (counter + n) = None -> (n + 2 <= fuel)%nat ->
  exists q, free_filepath fuel fs original filepath counter = Some q.
Proof.
  induction n as [|n IH]; intros fuel filepath counter Hfree Hfuel.
  - destruct fuel as [|[|fuel]]; try lia. simpl.
    destruct (fs_exists fs filepath); [|eauto].
    rewrite Nat.add_0_r in Hfree. apply fs_exists_false in Hfree. rewrite Hfree. eauto.
  - destruct fuel as [|fuel]; [lia|]. simpl.
    destruct (fs_exists fs filepath); [|eauto].
    apply IH; [|lia]. now replace (S counter + n)%nat with (counter + S n)%nat by lia.
Qed.

Lemma free_filepath_free (fs : filesystem) original : forall fuel filepath counter q,
  free_filepath fuel fs original filepath counter = Some q -> fs !! q = None.
Proof.
  induction fuel as [|fuel IH]; intros filepath counter q; simpl; [discriminate|].
  destruct (fs_exists fs filepath) eqn:He.
  - apply IH.
  - intros [= <-]. now apply fs_exists_false.
Qed.

(** The loop of [save_attachment] ends, on a path that does not exist. *)
Lemma resolve_collision_total (fs : filesystem) filepath :
  exists q, resolve_collision fs filepath = Some q /\ fs !! q = None.
Proof.
  destruct (exists_free_index fs filepath) as (n & Hn & Hfree).
  destruct (free_filepath_reaches fs filepath n (size fs + 2) filepath 1 Hfree) as [q Hq];
    [lia|].
  exists q. split; [exact Hq|]. eapply free_filepath_free, Hq.
Qed.

Lemma resolve_collision_fresh (fs : filesystem) filepath :
  fs !! filepath = None -> resolve_collision fs filepath = Some filepath.
Proof.
  intros H. unfold resolve_collision. rewrite Nat.add_comm. simpl.
  apply fs_exists_false in H. now rewrite H.
Qed.

Lemma resolve_collision_once (fs : filesystem) filepath :
  is_Some (fs !! filepath) -> fs !! numbered filepath 1 = None ->
  resolve_collision fs filepath = Some (numbered filepath 1).
Proof.
  intros [x Hx] H. unfold resolve_collision. rewrite Nat.add_comm. simpl.
  unfold fs_exists at 1. rewrite Hx. apply fs_exists_false in H. now rewrite H.
Qed.

Lemma free_filepath_shape (fs : filesystem) original : forall fuel filepath counter q,
  free_filepath fuel fs original filepath counter = Some q ->
  q = filepath \/ exists k, (counter <= k)%nat /\ q = numbered original k.
Proof.
  induction fuel as [|fuel IH]; intros filepath counter q; simpl; [discriminate|].
  destruct (fs_exists fs filepath).
  - intros H. apply IH in H as [->|(k & Hk & ->)]; right; [exists counter|exists k];
      split; auto; lia.
  - intros [= <-]. now left.
Qed.

(** The numbering loop of [save_attachment] ends for every state of the
    file system: it yields a path that does not exist, which is the path
    it started from or that path numbered with some counter from 1 on. *)
Theorem collision_loop_terminates (fs : filesystem) (filepath : str) :
  exists q,
    resolve_collision fs filepath = Some q
    /\ fs !! q = None
    /\ (q = filepath \/ exists k, (1 <= k)%nat /\ q = numbered filepath k).
Proof.
  destruct (resolve_collision_total fs filepath) as (q & Hq & Hfree).
  exists q. split; [exact Hq|]. split; [exact Hfree|].
  eapply free_filepath_shape, Hq.
Qed.

Lemma extract_total E filepath :
  exists text, extract_text_from_file E filepath = Returned text.
Proof.
  unfold extract_text_from_file, try_except.
  match goal with |- context [match ?m with Returned _ => _ | Raised _ => _ end] =>
    destruct m end; eauto.
Qed.

End CollisionFacts.

Section CollisionClaims.

Import Parser.

Lemma splitext_app p : fst (splitext p) ++ snd (splitext p) = p.
Proof.
  unfold splitext. destruct (rfind SLASH p <? rfind DOT p)%Z; [|apply app_nil_r].
  destruct (existsb _ _); [apply take_drop|apply app_nil_r].
Qed.

Lemma numbered_spec p k :
  numbered p k = fst (splitext p) ++ lit "_" ++ str_of_nat k ++ snd (splitext p).
Proof. unfold numbered. now destruct (splitext p). Qed.

Lemma numbered_longer p k : (length p < length (numbered p k))%nat.
Proof.
  rewrite numbered_spec. rewrite <- (splitext_app p) at 1.
  rewrite !length_app. simpl. lia.
Qed.

Lemma fs_mkdir_dir (fs fs0 : filesystem) (p : str) :
  fs_mkdir fs p = Returned fs0 -> fs0 !! p = Some Dir.
Proof.
  unfold fs_mkdir. destruct (fs !! p) as [[|c]|] eqn:Hp; intros [= <-]; auto.
  apply lookup_insert_eq.
Qed.

Lemma fs_mkdir_again (fs : filesystem) (p : str) :
  fs !! p = Some Dir -> fs_mkdir fs p = Returned fs.
Proof. unfold fs_mkdir. now intros ->. Qed.

Lemma fs_write_fresh (fs : filesystem) (p : str) (c : list N) :
  fs !! p = None -> fs_write fs p c = Returned (<[p := File c]> fs).
Proof. unfold fs_write. now intros ->. Qed.

Lemma fs_mkdir_other (fs fs0 : filesystem) (p q : str) :
  fs_mkdir fs p = Returned fs0 -> q <> p -> fs0 !! q = fs !! q.
Proof.
  unfold fs_mkdir. destruct (fs !! p) as [[|c]|] eqn:Hp; intros [= <-] Hne; auto.
  now apply lookup_insert_ne.
Qed.

(** What a record returned by [save_attachment] tells of the call: the
    part had a name and a payload, the folder could be made, the numbering
    loop ended on the recorded path, which was free, and the payload was
    written there and nothing else was changed. *)
Lemma save_attachment_record (E : parser_env) (download_path : str)
    (fs fs' : filesystem) (part : mime_part) (email_id : str)
    (extract_text : bool) (info : attachment_info) :
  save_attachment E download_path fs part email_id extract_text = (fs', Some info) ->
  exists raw decoded data fs0,
    part_filename part = Some raw
    /\ decode_mime_words E (Some raw) = Returned decoded
    /\ att_filename info = sanitize_filename decoded
    /\ part_payload part = Some data
    /\ fs_mkdir fs (email_folder_of download_path email_id) = Returned fs0
    /\ resolve_collision fs0
         (path_join (email_folder_of download_path email_id) (sanitize_filename decoded))
       = Some (att_filepath info)
    /\ fs0 !! att_filepath info = None
    /\ fs' = <[att_filepath info := File data]> fs0.
Proof.
  unfold save_attachment.
  destruct (part_filename part) as [raw|] eqn:Hname; [|discriminate].
  destruct (str_eqb raw []); [discriminate|].
  destruct (decode_mime_words E (Some raw)) as [decoded|] eqn:Hdec; [|discriminate].
  destruct (fs_mkdir fs _) as [fs0|] eqn:Hmk; [|discriminate].
  destruct (resolve_collision fs0 _) as [q|] eqn:Hq; [|discriminate].
  assert (Hfree : fs0 !! q = None) by (eapply free_filepath_free; exact Hq).
  destruct (part_payload part) as [data|] eqn:Hpay.
  - rewrite (fs_write_fresh _ _ _ Hfree).
    destruct extract_text.
    + destruct (extract_text_from_file E q) as [text|]; [|discriminate].
      intros [= <- <-]. exists raw, decoded, data, fs0.
      cbn [att_filename att_filepath]. repeat split; auto.
    + intros [= <- <-]. exists raw, decoded, data, fs0.
      cbn [att_filename att_filepath]. repeat split; auto.
  - rewrite (fs_write_fresh _ _ _ Hfree). discriminate.
Qed.

(** C7, amended.  Two attachments whose decoded names sanitize to the
    same string are saved one after the other into the folder of one
    message, and each call returns a record.  Then the two records name
    distinct paths, neither of which existed before its call, and both
    paths hold their payloads afterwards; the [filename] field of both
    records is the same sanitized name, so that the records differ by
    [filepath] alone.  When the sanitized name is a proper file name
    (neither empty nor [.], which name the folder itself, nor [..]) and
    the folder holds neither that name nor its first numbered variant, the
    first file is stored under the sanitized name and the second under the
    same name with [_1] inserted before the extension. *)
Theorem collision_resolution (E : parser_env) (download_path email_id : str)
    (fs fs1 fs2 : filesystem) (part1 part2 : mime_part) (raw1 raw2 d1 d2 : str)
    (extract_text : bool) (info1 info2 : attachment_info) :
  part_filename part1 = Some raw1 ->
  decode_mime_words E (Some raw1) = Returned d1 ->
  part_filename part2 = Some raw2 ->
  decode_mime_words E (Some raw2) = Returned d2 ->
  sanitize_filename d1 = sanitize_filename d2 ->
  save_attachment E download_path fs part1 email_id extract_text = (fs1, Some info1) ->
  save_attachment E download_path fs1 part2 email_id extract_text = (fs2, Some info2) ->
  let folder := email_folder_of download_path email_id in
  let target := path_join folder (sanitize_filename d1) in
  att_filepath info1 <> att_filepath info2
  /\ fs !! att_filepath info1 = None
  /\ fs1 !! att_filepath info2 = None
  /\ (exists data1 data2,
        part_payload part1 = Some data1 /\ part_payload part2 = Some data2
        /\ fs2 !! att_filepath info1 = Some (File data1)
        /\ fs2 !! att_filepath info2 = Some (File data2))
  /\ att_filename info1 = sanitize_filename d1
  /\ att_filename info2 = sanitize_filename d1
  /\ (sanitize_filename d1 <> lit ".." -> target <> folder ->
      fs !! target = None -> fs !! numbered target 1 = None ->
      att_filepath info1 = target
      /\ att_filepath info2 = fst (splitext target) ++ lit "_1" ++ snd (splitext target)).
Proof.
  intros Hn1 Hd1 Hn2 Hd2 Hsame Hsave1 Hsave2 folder target.
  apply save_attachment_record in Hsave1
    as (raw1' & d1' & data1 & fsa & Hn1' & Hd1' & Hfn1 & Hp1 & Hmk1 & Hq1 & Hfree1 & ->).
  rewrite Hn1 in Hn1'. injection Hn1' as <-. rewrite Hd1 in Hd1'. injection Hd1' as <-.
  apply save_attachment_record in Hsave2
    as (raw2' & d2' & data2 & fsb & Hn2' & Hd2' & Hfn2 & Hp2 & Hmk2 & Hq2 & Hfree2 & ->).
  rewrite Hn2 in Hn2'. injection Hn2' as <-. rewrite Hd2 in Hd2'. injection Hd2' as <-.
  rewrite <- Hsame in Hfn2, Hq2. fold folder in Hmk1, Hmk2, Hq1, Hq2.
  fold target in Hq1, Hq2.
  set (q1 := att_filepath info1) in *. set (q2 := att_filepath info2) in *.
  pose proof (fs_mkdir_dir _ _ _ Hmk1) as Hdir.
  assert (Hne1 : q1 <> folder) by congruence.
  assert (Hfsb : fsb = <[q1 := File data1]> fsa).
  { rewrite fs_mkdir_again in Hmk2; [congruence|]. now rewrite lookup_insert_ne. }
  subst fsb.
  assert (Hne : q1 <> q2).
  { intros Heq. rewrite <- Heq, lookup_insert_eq in Hfree2. discriminate. }
  split; [exact Hne|].
  split; [rewrite <- (fs_mkdir_other _ _ _ q1 Hmk1 Hne1); exact Hfree1|].
  split; [exact Hfree2|].
  split.
  { exists data1, data2. split; [exact Hp1|]. split; [exact Hp2|]. split.
    - rewrite lookup_insert_ne by congruence. apply lookup_insert_eq.
    - apply lookup_insert_eq. }
  split; [exact Hfn1|]. split; [exact Hfn2|].
  intros _ Htarget Ht Ht1.
  assert (Hta : fsa !! target = None)
    by (rewrite (fs_mkdir_other _ _ _ target Hmk1 Htarget); exact Ht).
  rewrite (resolve_collision_fresh _ _ Hta) in Hq1. injection Hq1 as Hq1.
  split; [now rewrite <- Hq1|].
  assert (Hlong : (length folder < length target)%nat).
  { subst target. unfold path_join in *.
    destruct (str_eqb _ _ || str_eqb _ _); [congruence|].
    rewrite !length_app. simpl. lia. }
  pose proof (numbered_longer target 1) as Hl.
  rewrite resolve_collision_once in Hq2.
  - injection Hq2 as <-. rewrite numbered_spec. reflexivity.
  - rewrite Hq1, lookup_insert_eq. eauto.
  - assert (Hq1n : q1 <> numbered target 1).
    { rewrite <- Hq1. intros H. rewrite <- H in Hl. lia. }
    rewrite lookup_insert_ne by exact Hq1n.
    rewrite (fs_mkdir_other _ _ _ _ Hmk1); [exact Ht1|].
    intros H. rewrite H in Hl. lia.
Qed.

End CollisionClaims.

Section CollisionWitness.

Import Parser Examples MoreExamples.

Lemma collision_resolution_witness :
  exists fs1 info1 fs2 info2,
    save_attachment (example_env None) (lit "downloads") ∅
      (attachment_part (lit "my report.txt") (lit "one")) (lit "7") false
    = (fs1, Some info1)
    /\ save_attachment (example_env None) (lit "downloads") fs1
         (attachment_part (lit "my_report.txt") (lit "two")) (lit "7") false
       = (fs2, Some info2)
    /\ att_filepath info1 <> att_filepath info2
    /\ att_filepath info1 = lit "downloads/email_7/my_report.txt"
    /\ att_filepath info2 = lit "downloads/email_7/my_report_1.txt".
Proof.
  eassert (Hsnd1 : snd (save_attachment (example_env None) (lit "downloads") ∅
                          (attachment_part (lit "my report.txt") (lit "one")) (lit "7")
                          false)
                   = Some _)
    by (vm_compute; reflexivity).
  match type of Hsnd1 with
  | snd ?res = Some ?r =>
      assert (Hsave1 : res = (fst res, Some r))
        by (revert Hsnd1; generalize res; intros [a b] Hb; simpl in *; now subst b)
  end.
  clear Hsnd1.
  match type of Hsave1 with
  | _ = (?fs1, _) =>
      eassert (Hsnd2 : snd (save_attachment (example_env None) (lit "downloads") fs1
                              (attachment_part (lit "my_report.txt") (lit "two")) (lit "7")
                              false)
                       = Some _)
        by (vm_compute; reflexivity)
  end.
  match type of Hsnd2 with
  | snd ?res = Some ?r =>
      assert (Hsave2 : res = (fst res, Some r))
        by (revert Hsnd2; generalize res; intros [a b] Hb; simpl in *; now subst b)
  end.
  clear Hsnd2.
  assert (Hsame : sanitize_filename (lit "my report.txt")
                  = sanitize_filename (lit "my_report.txt"))
    by (vm_compute; reflexivity).
  destruct (collision_resolution (example_env None) (lit "downloads") (lit "7")
              ∅ _ _
              (attachment_part (lit "my report.txt") (lit "one"))
              (attachment_part (lit "my_report.txt") (lit "two"))
              (lit "my report.txt") (lit "my_report.txt")
              (lit "my report.txt") (lit "my_report.txt") false _ _
              eq_refl eq_refl eq_refl eq_refl Hsame Hsave1 Hsave2)
    as (Hne & _ & _ & _ & _ & _ & Hfresh).
  destruct Hfresh as [Ha Hb].
  { clear. vm_compute. discriminate. }
  { clear. vm_compute. discriminate. }
  { clear. vm_compute. reflexivity. }
  { clear. vm_compute. reflexivity. }
  eexists _, _, _, _.
  split; [exact Hsave1|]. split; [exact Hsave2|]. split; [exact Hne|].
  split; [rewrite Ha|rewrite Hb]; clear; vm_compute; reflexivity.
Defined.

(** C7, counterexample.  In a folder that holds a.txt already, two
    attachments named a.txt are stored as a_1.txt and a_2.txt: the second
    file is not the one suffixed [_1].  And both records carry the file
    name a.txt: the [filename] field is not unique within the folder, and
    [get_attachment_path] answers for it with the path of the older file. *)
Lemma collision_counterexample :
  exists fs1 info1 fs2 info2,
    save_attachment (example_env None) (lit "downloads") used_folder
      (attachment_part (lit "a.txt") (lit "one")) (lit "7") false
    = (fs1, Some info1)
    /\ save_attachment (example_env None) (lit "downloads") fs1
         (attachment_part (lit "a.txt") (lit "two")) (lit "7") false
       = (fs2, Some info2)
    /\ att_filepath info1 = lit "downloads/email_7/a_1.txt"
    /\ att_filepath info2 = lit "downloads/email_7/a_2.txt"
    /\ att_filename info1 = lit "a.txt"
    /\ att_filename info2 = lit "a.txt"
    /\ Mailbox.get_attachment_path (lit "downloads") fs2 (lit "7") (att_filename info2)
       = Some (lit "downloads/email_7/a.txt").
Proof.
  eassert (Hsnd1 : snd (save_attachment (example_env None) (lit "downloads") used_folder
                          (attachment_part (lit "a.txt") (lit "one")) (lit "7") false)
                   = Some _)
    by (vm_compute; reflexivity).
  match type of Hsnd1 with
  | snd ?res = Some ?r =>
      assert (Hsave1 : res = (fst res, Some r))
        by (revert Hsnd1; generalize res; intros [a b] Hb; simpl in *; now subst b)
  end.
  clear Hsnd1.
  match type of Hsave1 with
  | _ = (?fs1, _) =>
      eassert (Hsnd2 : snd (save_attachment (example_env None) (lit "downloads") fs1
                              (attachment_part (lit "a.txt") (lit "two")) (lit "7") false)
                       = Some _)
        by (vm_compute; reflexivity)
  end.
  match type of Hsnd2 with
  | snd ?res = Some ?r =>
      assert (Hsave2 : res = (fst res, Some r))
        by (revert Hsnd2; generalize res; intros [a b] Hb; simpl in *; now subst b)
  end.
  clear Hsnd2.
  eexists _, _, _, _.
  split; [exact Hsave1|]. split; [exact Hsave2|].
  do 4 (split; [reflexivity|]). clear. vm_compute. reflexivity.
Qed.

End CollisionWitness.

(** * Text extraction *)

Section ExtractionClaims.

Import Parser Examples.

Ltac eval_literal_tests :=
  repeat match goal with
         | |- context [str_eqb (lit ?a) (lit ?b)] =>
             let v := eval vm_compute in (str_eqb (lit a) (lit b)) in
             change (str_eqb (lit a) (lit b)) with v
         end;
  cbn [existsb orb andb].

Lemma reader_failure_marker E filepath kind e :
  reader_failed E filepath kind e ->
  extract_text_from_file E filepath = Returned (fmt_failed kind e).
Proof.
  intros [e' Hext Hcap Hfail|e' Hext Hcap Hfail|e' Hext Hcap Hfail
         |e' Hext Hcap Hfail|e' Hext Hfail];
    unfold extract_text_from_file, str_in, text_extensions in *;
    simpl In in Hext;
    repeat match type of Hext with _ \/ _ => destruct Hext as [Hext|Hext] end;
    try contradiction;
    match type of Hext with
    | lit _ = _ => rewrite <- Hext
    | _ = lit _ => rewrite Hext
    end;
    eval_literal_tests; rewrite ?Hcap, Hfail; reflexivity.
Qed.

Lemma failure_marker_bracketed s :
  failure_marker s -> exists m, s = lit "[" ++ m ++ lit "]".
Proof.
  intros [kind e _| |ext].
  - exists (kind ++ lit ": " ++ exn_text e). unfold fmt_failed.
    now rewrite <- !app_assoc.
  - exists (removelast (tail ENCODING_FAILED)). vm_compute. reflexivity.
  - exists (ext ++ removelast NOT_SUPPORTED).
    rewrite <- !app_assoc. reflexivity.
Qed.

Lemma read_with_encodings_result E filepath encodings text :
  read_with_encodings E filepath encodings = Returned text ->
  text = ENCODING_FAILED
  \/ exists encoding, In encoding encodings /\ read_text E filepath encoding = Returned text.
Proof.
  induction encodings as [|enc rest IH]; simpl.
  - intros [= <-]. now left.
  - destruct (read_text E filepath enc) as [s|e] eqn:Hr.
    + intros [= <-]. right. exists enc. split; [now left|assumption].
    + destruct (is_unicode_decode_error e); [|discriminate].
      intros H. destruct (IH H) as [->|(encoding & Hin & Hread)]; [now left|].
      right. exists encoding. split; [now right|assumption].
Qed.

Lemma unsupported_has_wording ext :
  contains NOT_SUPPORTED_WORDING (lit "[" ++ ext ++ NOT_SUPPORTED) = true.
Proof.
  apply contains_spec, occurs_app_r, occurs_app_r, contains_spec.
  vm_compute. reflexivity.
Qed.

(** C5.  For every path, [extract_text_from_file] returns a string and
    raises nothing.  The string is a text some reader produced without
    raising, or else a failure marker; every failure marker is enclosed in
    brackets and a failure of a reader gives the marker that starts with
    the category of that reader.  For an extension that no branch names
    (such as .bin) the string is the marker of an unsupported format,
    which holds the wording for "not supported". *)
Theorem extract_text_from_file_never_raises (E : parser_env) (filepath : str) :
  (exists text,
     extract_text_from_file E filepath = Returned text
     /\ (failure_marker text \/ extracted_by E filepath text))
  /\ (forall s, failure_marker s -> exists m, s = lit "[" ++ m ++ lit "]")
  /\ (forall kind e,
        reader_failed E filepath kind e ->
        extract_text_from_file E filepath = Returned (fmt_failed kind e))
  /\ (str_in (str_lower E (snd (splitext filepath))) known_extensions = false ->
      extract_text_from_file E filepath
      = Returned (lit "[" ++ str_lower E (snd (splitext filepath)) ++ NOT_SUPPORTED)
      /\ contains NOT_SUPPORTED_WORDING
           (lit "[" ++ str_lower E (snd (splitext filepath)) ++ NOT_SUPPORTED) = true)
  /\ extract_text_from_file (example_env None) (lit "downloads/email_7/data.bin")
     = Returned (lit "[.bin 형식은 텍스트 추출을 지원하지 않습니다]").
Proof.
  split; [|split; [apply failure_marker_bracketed|split; [|split]]].
  - unfold extract_text_from_file, try_except.
    set (ext := str_lower E (snd (splitext filepath))).
    assert (Hm : forall kind e,
              In kind [PDF_FAILED; WORD_FAILED; EXCEL_FAILED; PPT_FAILED;
                       TEXT_READ_FAILED; FILE_ERROR] ->
              exists text, Returned (fmt_failed kind e) = Returned text
                /\ (failure_marker text \/ extracted_by E filepath text)).
    { intros kind e Hk. eexists. split; [reflexivity|]. left. now constructor. }
    destruct (str_eqb ext (lit ".pdf") && have_PyPDF2 E).
    { destruct (pdf_page_texts E filepath) as [pages|e] eqn:Hp; simpl.
      - eexists. split; [reflexivity|]. right. left. eauto.
      - apply Hm. simpl. auto. }
    destruct (str_in ext [lit ".docx"; lit ".doc"] && have_Document E).
    { destruct (docx_paragraphs E filepath) as [paragraphs|e] eqn:Hp; simpl.
      - eexists. split; [reflexivity|]. right. right. left. eauto.
      - apply Hm. simpl. auto. }
    destruct (str_in ext [lit ".xlsx"; lit ".xls"] && have_openpyxl E).
    { destruct (xlsx_sheets E filepath) as [sheets|e] eqn:Hp; simpl.
      - eexists. split; [reflexivity|]. right. right. right. left. eauto.
      - apply Hm. simpl. auto. }
    destruct (str_in ext [lit ".pptx"; lit ".ppt"] && have_Presentation E).
    { destruct (pptx_slides E filepath) as [slides|e] eqn:Hp; simpl.
      - eexists. split; [reflexivity|]. right. right. right. right. left. eauto.
      - apply Hm. simpl. auto. }
    destruct (str_in ext text_extensions).
    { destruct (read_with_encodings E filepath text_encodings) as [text|e] eqn:Hr.
      - eexists. split; [reflexivity|].
        apply read_with_encodings_result in Hr as [->|Hr].
        + left. constructor.
        + right. right. right. right. right. exact Hr.
      - apply Hm. simpl. auto 10. }
    eexists. split; [reflexivity|]. left. constructor.
  - apply reader_failure_marker.
  - intros Hun. split; [|apply unsupported_has_wording].
    unfold extract_text_from_file.
    set (ext := str_lower E (snd (splitext filepath))) in *.
    unfold str_in, known_extensions, text_extensions in *.
    cbn [existsb app] in Hun. repeat (apply orb_false_elim in Hun as [? Hun]).
    cbn [existsb].
    repeat match goal with H : str_eqb _ _ = false |- _ => rewrite H; clear H end.
    reflexivity.
  - vm_compute. reflexivity.
Qed.

(** When the library of a document format is absent, a file of that
    format gets the marker of an unsupported format, as a file of an
    unknown extension does. *)
Theorem missing_capability_is_unsupported (E : parser_env) (filepath : str) :
  capability_missing E (str_lower E (snd (splitext filepath))) ->
  extract_text_from_file E filepath
  = Returned (lit "[" ++ str_lower E (snd (splitext filepath)) ++ NOT_SUPPORTED).
Proof.
  intros [Hext Hcap|Hext Hcap|Hext Hcap|Hext Hcap];
    unfold extract_text_from_file, str_in, text_extensions;
    simpl In in Hext;
    repeat match type of Hext with _ \/ _ => destruct Hext as [Hext|Hext] end;
    try contradiction;
    match type of Hext with
    | lit _ = _ => rewrite <- Hext
    | _ = lit _ => rewrite Hext
    end;
    eval_literal_tests; rewrite ?Hcap; eval_literal_tests; reflexivity.
Qed.

Lemma missing_capability_is_unsupported_witness :
  extract_text_from_file (example_env None) (lit "slides.PPTX")
  = Returned (lit "[.pptx 형식은 텍스트 추출을 지원하지 않습니다]").
Proof.
  apply (missing_capability_is_unsupported (example_env None) (lit "slides.PPTX")).
  apply ppt_missing; [left; vm_compute; reflexivity|reflexivity].
Defined.

End ExtractionClaims.

(** * The workflow of the facade *)

Section WorkflowClaims.

Import Suite Examples.



End WorkflowClaims.

(** * Sending with attachments *)

Section SenderClaims.

Import Sender Examples MoreExamples.

(** A file that exists and is read and wrapped without an exception is
    attached, with a disposition that names it. *)
Lemma add_attachment_attached E msg out file_path types file_data part :
  isfile E file_path = true ->
  _detect_mime_type E file_path = Returned types ->
  read_bytes E file_path = Returned file_data ->
  wrap_attachment E (fst types) (snd types) file_data = Returned part ->
  _add_attachment E msg out file_path
  = (attach msg
       {| at_part := part;
          at_disposition :=
            lit "attachment; filename=" ++ [34] ++ path_name file_path ++ [34] |},
     out ++ [ADDED ++ path_name file_path ++ lit " (" ++ fst types ++ lit "/"
               ++ snd types ++ lit ")"],
     true).
Proof.
  intros Hfile Ht Hr Hw.
  unfold _add_attachment. rewrite Hfile. simpl negb. cbv iota.
  rewrite Ht. cbn [mbind outcome_bind]. rewrite Hr. cbn [mbind outcome_bind].
  rewrite Hw. cbn [mbind outcome_bind]. destruct types. reflexivity.
Qed.

Lemma add_attachment_missing E msg out file_path :
  isfile E file_path = false ->
  _add_attachment E msg out file_path = (msg, out ++ [WARN_MISSING ++ file_path], false).
Proof. intros H. unfold _add_attachment. now rewrite H. Qed.

(** C9, counterexample.  notes.txt exists and missing.pdf does not; the
    bytes of notes.txt are not UTF-8.  The message is sent and the result
    is a success, but its attachment count is 0: the existing file is not
    attached either. *)
Lemma send_email_counterexample :
  isfile notes_sender (lit "notes.txt") = true
  /\ isfile notes_sender (lit "missing.pdf") = false
  /\ exists r out,
       send_email notes_sender (lit "alice@naver.com") [lit "bob@example.com"]
         (lit "hello") (lit "see attached") None None
         (Some [lit "notes.txt"; lit "missing.pdf"]) false false
       = (SendOk r, out)
       /\ so_attachment_count r = 0%nat
       /\ so_attachments r = []
       /\ length out = 2%nat.
Proof.
  split; [reflexivity|]. split; [reflexivity|].
  eexists _, _. split; [vm_compute; reflexivity|]. repeat split.
Qed.

(** C9, amended.  The attachment list holds, in either order, one path
    that is not a file and one file that is read and wrapped without an
    exception (its type is found, its bytes are read, and when the type is
    a text type the bytes decode as UTF-8).  Then [send_email] hands to the
    transmission a message that carries, besides its body, exactly one
    attached part: the wrapped bytes of that file, with a disposition that
    names it; the headers and the body are those given.  Two lines are printed, one of them the
    warning for the missing path.  Nothing is raised: when the transmission
    of that message succeeds, the result is a success whose attachment
    count is 1 and whose attachment names hold the name of the file alone;
    when it raises, the result is a failure. *)
Theorem send_email_skips_missing_attachment (E : sender_env) (username : str)
    (to_emails : list str) (subject body : str)
    (cc_emails bcc_emails : option (list str)) (is_html use_ssl : bool)
    (valid missing : str) (attachments : list str)
    (types : str * str) (file_data : list N) (part : mime_attachment) :
  attachments = [valid; missing] \/ attachments = [missing; valid] ->
  isfile E valid = true ->
  _detect_mime_type E valid = Returned types ->
  read_bytes E valid = Returned file_data ->
  wrap_attachment E (fst types) (snd types) file_data = Returned part ->
  isfile E missing = false ->
  let recipients := to_emails ++ list_or_empty cc_emails ++ list_or_empty bcc_emails in
  let sent :=
    send_email E username to_emails subject body cc_emails bcc_emails
      (Some attachments) is_html use_ssl in
  exists msg out,
    mm_attached msg
    = [{| at_part := part;
          at_disposition :=
            lit "attachment; filename=" ++ [34] ++ path_name valid ++ [34] |}]
    /\ mm_from msg = username
    /\ mm_to msg = join (lit ", ") to_emails
    /\ mm_subject msg = subject
    /\ mm_body msg = body
    /\ length out = 2%nat
    /\ In (WARN_MISSING ++ missing) out
    /\ (transmit E use_ssl msg recipients = Returned tt ->
        exists r,
          sent = (SendOk r, out)
          /\ success (SendOk r) = true
          /\ so_attachment_count r = 1%nat
          /\ so_attachments r = [path_name valid])
    /\ (forall e, transmit E use_ssl msg recipients = Raised e ->
        exists error, sent = (SendFailed error, out)).
Proof.
  intros Horder Hfile Ht Hr Hw Hmissing recipients sent. subst sent recipients.
  unfold send_email, add_attachments.
  set (msg0 := {| mm_from := username; mm_to := _; mm_subject := _; mm_cc := _;
                  mm_body := _; mm_body_subtype := _; mm_attached := _ |}).
  set (a := {| at_part := part; at_disposition := _ |}).
  exists (attach msg0 a).
  destruct Horder as [-> | ->]; cbn [list_or_empty fold_left].
  - rewrite (add_attachment_attached E msg0 [] valid types file_data part Hfile Ht Hr Hw).
    fold a. rewrite (add_attachment_missing E (attach msg0 a) _ missing Hmissing).
    match goal with |- context [(SendOk _, ?o)] => exists o end.
    do 5 (split; [reflexivity|]). split; [reflexivity|].
    split; [apply in_or_app; right; now left|]. split.
    + intros ->. eexists. repeat split.
    + intros e ->. eexists. reflexivity.
  - rewrite (add_attachment_missing E msg0 _ missing Hmissing).
    rewrite (add_attachment_attached E msg0 _ valid types file_data part Hfile Ht Hr Hw).
    fold a.
    match goal with |- context [(SendOk _, ?o)] => exists o end.
    do 5 (split; [reflexivity|]). split; [reflexivity|].
    split; [apply in_or_app; left; now left|]. split.
    + intros ->. eexists. repeat split.
    + intros e ->. eexists. reflexivity.
Qed.

Lemma send_email_skips_missing_attachment_witness :
  exists msg r out,
    mm_attached msg
    = [{| at_part := MIMEApplication [37; 80; 68; 70] (lit "pdf");
          at_disposition := lit "attachment; filename=" ++ [34] ++ lit "report.pdf" ++ [34] |}]
    /\ transmit example_sender false msg [lit "bob@example.com"] = Returned tt
    /\ send_email example_sender (lit "alice@naver.com") [lit "bob@example.com"]
         (lit "hello") (lit "see attached") None None
         (Some [lit "report.pdf"; lit "missing.pdf"]) false false
       = (SendOk r, out)
    /\ so_attachment_count r = 1%nat
    /\ so_attachments r = [lit "report.pdf"]
    /\ In (WARN_MISSING ++ lit "missing.pdf") out.
Proof.
  destruct (send_email_skips_missing_attachment example_sender (lit "alice@naver.com")
              [lit "bob@example.com"] (lit "hello") (lit "see attached") None None
              false false (lit "report.pdf") (lit "missing.pdf")
              [lit "report.pdf"; lit "missing.pdf"]
              (lit "application", lit "pdf") [37; 80; 68; 70]
              (MIMEApplication [37; 80; 68; 70] (lit "pdf")))
    as (msg & out & Hatt & _ & _ & _ & _ & _ & Hwarn & Hok & _).
  - left. reflexivity.
  - reflexivity.
  - vm_compute. reflexivity.
  - reflexivity.
  - reflexivity.
  - reflexivity.
  - destruct (Hok eq_refl) as (r & Hsent & _ & Hcount & Hnames).
    exists msg, r, out. split; [exact Hatt|]. split; [reflexivity|].
    split; [exact Hsent|]. split; [exact Hcount|]. split; [exact Hnames|exact Hwarn].
Defined.

End SenderClaims.

(** * The compression ratio *)

Section RatioClaims.

Import Summarizer.

Lemma round_half_even_nonneg q : (0 <= q)%Q -> (0 <= round_half_even q)%Z.
Proof.
  destruct q as [n d]. unfold Qle, round_half_even. simpl. intros Hn.
  rewrite Z.mul_1_r in Hn.
  assert (0 <= n / Z.pos d)%Z by (apply Z.div_pos; lia).
  repeat match goal with |- context [if ?b then _ else _] => destruct b end; lia.
Qed.

Lemma percent_nonneg summary_tokens token_count :
  (0 <= percent summary_tokens token_count)%Q.
Proof.
  unfold percent, round2.
  assert (H : (0 <= round_half_even
                      ((Z.of_nat summary_tokens # 1) / (Z.of_nat token_count # 1)
                       * 100 * 100))%Z).
  { apply round_half_even_nonneg.
    repeat apply Qmult_le_0_compat; try (unfold Qle; simpl; lia).
    apply Qinv_le_0_compat. unfold Qle. simpl. lia. }
  unfold Qle. simpl. lia.
Qed.

(** The guarded ratio, as [summarize_downloaded_attachment] computes it:
    0 for 0 original tokens, and never negative. *)
Lemma compression_ratio_guarded_bounds summary_tokens token_count :
  compression_ratio_guarded summary_tokens 0 = 0%Q
  /\ (0 <= compression_ratio_guarded summary_tokens token_count)%Q.
Proof.
  split; [reflexivity|]. unfold compression_ratio_guarded.
  destruct (0 <? token_count)%nat; [apply percent_nonneg|apply Qle_refl].
Qed.

(** C4, the unguarded paths.  [summarize_file] and [summarize_email]
    divide by the token count of the original without a test: for a text
    of 0 tokens the division raises, and the result is the dictionary of
    an error, with no compression ratio.  An empty file is such a text for
    a tokenizer that gives the empty text 0 tokens; the last part
    evaluates [summarize_file] on an empty file with one token per
    character. *)
Theorem unguarded_ratio_fails_on_zero_tokens :
  (forall (count_tokens : str -> nat) (summarize_chunk : str -> str -> str)
          (max_tokens : nat) (read_text : str -> str -> outcome str)
          (file_path summary_type : str),
      read_text_file read_text file_path summarizer_encodings = Returned [] ->
      count_tokens [] = 0%nat ->
      summarize_file count_tokens summarize_chunk max_tokens read_text file_path
        summary_type
      = inl (SUMMARY_FAILED ++ lit "division by zero"))
  /\ (forall (count_tokens : str -> nat) (summarize_chunk : str -> str -> str)
            (max_tokens : nat) (data : email_data) (summary_type : str)
            (include_attachments only_attachments : bool) (parts : list str),
        match ed_body data with
        | Some body_text => body_parts_of body_text include_attachments only_attachments
        | None => Some []
        end = Some parts ->
        count_tokens (join [NL] (header_parts data ++ parts)) = 0%nat ->
        summarize_email count_tokens summarize_chunk max_tokens data summary_type
          include_attachments only_attachments
        = inl (EMAIL_SUMMARY_FAILED ++ lit "division by zero"))
  /\ summarize_file (@length N) (fun text _ => text) 4096
       (fun _ _ => Returned []) (lit "empty.txt") (lit "brief")
     = inl (lit "요약 실패: division by zero").
Proof.
  split; [|split].
  - intros count_tokens summarize_chunk max_tokens read_text file_path summary_type
      Hread Hzero.
    unfold summarize_file. rewrite Hread. simpl. rewrite Hzero. reflexivity.
  - intros count_tokens summarize_chunk max_tokens data summary_type
      include_attachments only_attachments parts Hparts Hzero.
    unfold summarize_email. rewrite Hparts. simpl. rewrite Hzero. reflexivity.
  - vm_compute. reflexivity.
Qed.

End RatioClaims.

(** * Sanitising file names *)

Section SanitizeClaims.

Import Parser.

(** C6, the failing input.  For the name [a.] followed by 300 letters b,
    the extension is longer than 200 characters: the bound of the slice is
    negative, the result keeps 301 characters, and a second call cuts it
    to 200. *)
Theorem sanitize_filename_not_idempotent :
  sanitize_filename (lit "a." ++ repeat 98 300) = DOT :: repeat 98 300
  /\ sanitize_filename (sanitize_filename (lit "a." ++ repeat 98 300))
     = DOT :: repeat 98 199
  /\ sanitize_filename (sanitize_filename (lit "a." ++ repeat 98 300))
     <> sanitize_filename (lit "a." ++ repeat 98 300).
Proof.
  assert (H1 : sanitize_filename (lit "a." ++ repeat 98 300) = DOT :: repeat 98 300)
    by (vm_compute; reflexivity).
  assert (H2 : sanitize_filename (DOT :: repeat 98 300) = DOT :: repeat 98 199)
    by (vm_compute; reflexivity).
  rewrite H1, H2. repeat split.
  intros H. apply (f_equal (@length N)) in H. vm_compute in H. discriminate.
Qed.

End SanitizeClaims.

(** * The body of a downloaded message *)

Section DownloadClaims.

Import Parser Summarizer Examples.

Lemma save_attachment_text (E : parser_env) (download_path : str)
    (fs fs' : filesystem) (part : mime_part) (email_id : str)
    (info : attachment_info) :
  save_attachment E download_path fs part email_id true = (fs', Some info) ->
  exists text, att_extracted_text info = Some text.
Proof.
  unfold save_attachment.
  repeat match goal with
         | |- context [match ?x with _ => _ end] => destruct x eqn:?
         end; intros [= <- <-]; simpl; eauto.
Qed.

Lemma walk_step_blocks (E : parser_env) (download_path email_id : str)
    (st : walk_state) (part : mime_part) :
  w_attachment_texts st = List.map block_of (w_attachments st) ->
  w_attachment_texts (walk_step E download_path email_id true st part)
  = List.map block_of (w_attachments (walk_step E download_path email_id true st part)).
Proof.
  intros Hinv. unfold walk_step.
  destruct (contains (lit "attachment") (disposition_str part)).
  - destruct (save_attachment E download_path (w_fs st) part email_id true)
      as [fs' [info|]] eqn:Hsave; simpl; [|assumption].
    destruct (save_attachment_text _ _ _ _ _ _ _ Hsave) as [text Ht].
    rewrite Ht, List.map_app, Hinv. simpl. unfold block_of at 3. now rewrite Ht.
  - destruct (str_eqb (part_content_type part) (lit "text/plain")); [assumption|].
    destruct (str_eqb (part_content_type part) (lit "text/html")); assumption.
Qed.

Lemma walk_message_blocks (E : parser_env) (download_path : str)
    (fs : filesystem) (msg : message_body) (email_id : str) :
  let st := walk_message E download_path fs msg email_id true in
  w_attachment_texts st = List.map block_of (w_attachments st).
Proof.
  unfold walk_message. destruct msg as [part|walk].
  - destruct (part_payload part) as [[|c payload]|]; try reflexivity.
    destruct (str_eqb (part_content_type part) (lit "text/html")); reflexivity.
  - set (st0 := {| w_fs := fs; w_body_text := []; w_body_html := [];
                   w_attachments := []; w_attachment_texts := [] |}).
    assert (H0 : w_attachment_texts st0 = List.map block_of (w_attachments st0))
      by reflexivity.
    revert H0. generalize st0. induction walk as [|part walk IH]; intros st H0.
    + exact H0.
    + cbn [fold_left]. apply IH. now apply walk_step_blocks.
Qed.

Lemma fs_write_Returned (fs fs' : filesystem) (p : str) (c : list N) :
  fs_write fs p c = Returned fs' -> fs' = <[p := File c]> fs.
Proof. unfold fs_write. destruct (fs !! p) as [[|?]|]; congruence. Qed.

Ltac eval_conditions :=
  repeat match goal with
         | |- context [if ?c then _ else _] =>
             let v := eval vm_compute in c in
             change c with v; cbv iota
         end.

Lemma artifact_paths_distinct (folder : str) :
  path_join folder (lit "body.txt") <> path_join folder (lit "body.html")
  /\ path_join folder (lit "body.txt") <> path_join folder (lit "metadata.json").
Proof.
  unfold path_join. eval_conditions.
  split; intros H; apply app_inv_head in H; vm_compute in H; discriminate.
Qed.

Lemma write_artifacts_body (E : parser_env) (fs fs' : filesystem) (folder : str)
    (parsed : parsed_content) (md : metadata) :
  write_artifacts E fs folder parsed md = (fs', true) ->
  pc_body_text parsed <> [] ->
  fs' !! path_join folder (lit "body.txt") = Some (File (pc_body_text parsed)).
Proof.
  destruct (artifact_paths_distinct folder) as [Hhtml Hmeta].
  unfold write_artifacts. intros H Hne.
  destruct (fs_mkdir fs folder) as [fs1|]; [|discriminate].
  destruct (pc_body_text parsed) as [|c text] eqn:Hb; [congruence|].
  destruct (fs_write fs1 _ (c :: text)) as [fs2|] eqn:H2; [|discriminate].
  apply fs_write_Returned in H2 as ->.
  destruct (pc_body_html parsed) as [|h html].
  - destruct (fs_write _ _ (json_dump E md)) as [fs4|] eqn:H4; [|discriminate].
    apply fs_write_Returned in H4 as ->. injection H as <-.
    rewrite lookup_insert_ne by congruence. apply lookup_insert_eq.
  - destruct (fs_write _ _ (h :: html)) as [fs3|] eqn:H3; [|discriminate].
    apply fs_write_Returned in H3 as ->.
    destruct (fs_write _ _ (json_dump E md)) as [fs4|] eqn:H4; [|discriminate].
    apply fs_write_Returned in H4 as ->. injection H as <-.
    rewrite !lookup_insert_ne by congruence. apply lookup_insert_eq.
Qed.

Lemma join_blocks_nonempty (st_texts : list attachment_info) :
  st_texts <> [] -> join [NL] (List.map block_of st_texts) <> [].
Proof.
  destruct st_texts as [|a [|a2 l]]; [congruence| |]; intros _.
  - simpl. unfold block_of, attachment_block. discriminate.
  - cbn [List.map]. rewrite join_cons by discriminate.
    unfold block_of at 1, attachment_block. discriminate.
Qed.

(** C10.  When [download_email_full], with extraction of attachment texts
    enabled, returns a record for a message of which at least one
    attachment gave a text, the [body] field of the record is the combined
    text: the stripped body text followed by the marker blocks of the
    record's attachments, in order; [body.txt] holds the same text; the
    field is not the stripped body text alone, and the body text comes
    back as the first component of the split of the field (when the body
    text and the extracted texts hold no marker and the file names are
    such that the header line gives them back). *)
Theorem body_field_is_combined_text (E : parser_env) (download_path email_id : str)
    (fs fs' : filesystem) (msg : raw_message) (r : email_record) :
  imap_fetch E email_id = Returned (Some msg) ->
  w_attachment_texts (walk_message E download_path fs (msg_body msg) email_id true)
    <> [] ->
  download_email_full E true download_path fs email_id true = (fs', Some r) ->
  let pure_body :=
    plain_body E (walk_message E download_path fs (msg_body msg) email_id true) in
  em_body r = strip pure_body ++ join [NL] (List.map block_of (em_attachments r))
  /\ em_attachments r <> []
  /\ Forall (fun a => exists text, att_extracted_text a = Some text) (em_attachments r)
  /\ fs' !! path_join (email_folder_of download_path email_id) (lit "body.txt")
     = Some (File (em_body r))
  /\ em_body r <> strip pure_body
  /\ (contains MARKER pure_body = false ->
      Forall good_attachment
        (List.map (fun a => (att_filename a, default [] (att_extracted_text a)))
           (em_attachments r)) ->
      fst (separate_body (em_body r)) = strip pure_body).
Proof.
  intros Hfetch Htexts Hdl pure_body.
  pose proof (walk_message_blocks E download_path fs (msg_body msg) email_id) as Hblocks.
  simpl in Hblocks.
  unfold download_email_full in Hdl. simpl negb in Hdl. cbv iota in Hdl.
  rewrite Hfetch in Hdl. unfold mbind, outcome_bind, mret, outcome_ret in Hdl.
  destruct (decode_mime_words E (Some (header_or_empty (msg_subject msg))))
    as [subject|] eqn:Hs; cbv beta iota in Hdl; [|discriminate].
  destruct (decode_mime_words E (Some (header_or_empty (msg_from msg))))
    as [sender|] eqn:Hf; cbv beta iota in Hdl; [|discriminate].
  destruct (decode_mime_words E (Some (header_or_empty (msg_to msg))))
    as [recipient|] eqn:Ht; cbv beta iota in Hdl; [|discriminate].
  unfold parse_email_body_and_attachments in Hdl.
  set (st := walk_message E download_path fs (msg_body msg) email_id true) in *.
  destruct (write_artifacts E (w_fs st) _ _ _) as [fs2 [|]] eqn:Hw; [|discriminate].
  injection Hdl as <- <-. simpl em_body. simpl em_attachments.
  assert (Hatt : w_attachments st <> []).
  { intros Hnil. apply Htexts. now rewrite Hblocks, Hnil. }
  assert (Hbody : combine_text (plain_body E st) (w_attachment_texts st)
                  = strip pure_body ++ join [NL] (List.map block_of (w_attachments st))).
  { unfold combine_text. rewrite <- Hblocks.
    destruct (w_attachment_texts st); [congruence|reflexivity]. }
  rewrite Hbody.
  assert (Hne : join [NL] (List.map block_of (w_attachments st)) <> [])
    by now apply join_blocks_nonempty.
  split; [reflexivity|]. split; [assumption|]. split.
  { clear - st. subst st. unfold walk_message. destruct (msg_body msg) as [part|walk].
    - destruct (part_payload part) as [[|c payload]|]; try constructor.
      destruct (str_eqb _ _); constructor.
    - set (st0 := {| w_fs := fs; w_body_text := []; w_body_html := [];
                     w_attachments := []; w_attachment_texts := [] |}).
      assert (H0 : Forall (fun a => exists text, att_extracted_text a = Some text)
                     (w_attachments st0)) by constructor.
      revert H0. generalize st0. induction walk as [|part walk IH]; intros st H0.
      + exact H0.
      + cbn [fold_left]. apply IH. unfold walk_step.
        destruct (contains (lit "attachment") (disposition_str part)).
        * destruct (save_attachment E download_path (w_fs st) part email_id true)
            as [fs1 [info|]] eqn:Hsave; simpl; [|assumption].
          apply Forall_app. split; [assumption|]. constructor; [|constructor].
          eapply save_attachment_text, Hsave.
        * destruct (str_eqb _ _); [assumption|]. destruct (str_eqb _ _); assumption. }
  split.
  { apply write_artifacts_body in Hw; simpl pc_body_text in *.
    - now rewrite Hbody in Hw.
    - rewrite Hbody. intros H. apply app_eq_nil in H as [_ H]. contradiction. }
  split.
  { intros H. rewrite <- (app_nil_r (strip pure_body)) in H at 2.
    apply app_inv_head in H. contradiction. }
  intros Hfree Hgood.
  pose proof (separate_body_encode pure_body _ Hfree Hgood) as Hsep.
  unfold encode, combine_text in Hsep. rewrite List.map_map in Hsep.
  destruct (w_attachments st) as [|a l] eqn:Hl; [congruence|].
  simpl List.map at 1 in Hsep.
  change (List.map (fun x => attachment_block (att_filename x, default [] (att_extracted_text x)).1
                               (att_filename x, default [] (att_extracted_text x)).2) (a :: l))
    with (List.map block_of (a :: l)) in Hsep.
  now rewrite Hsep.
Qed.

End DownloadClaims.

Section DownloadWitness.

Import Parser Summarizer Examples.

Lemma body_field_is_combined_text_witness :
  exists fs' r,
    download_email_full (example_env (Some example_message)) true (lit "downloads")
      ∅ (lit "7") true
    = (fs', Some r)
    /\ em_body r
       = lit "Hello" ++ [NL; NL] ++ lit "=== 첨부파일: a.txt ===" ++ [NL]
         ++ lit "World" ++ [NL]
    /\ fs' !! path_join (email_folder_of (lit "downloads") (lit "7")) (lit "body.txt")
       = Some (File (em_body r))
    /\ fst (separate_body (em_body r)) = lit "Hello".
Proof.
  eassert (Hsnd : snd (download_email_full (example_env (Some example_message)) true
                         (lit "downloads") ∅ (lit "7") true) = Some _)
    by (vm_compute; reflexivity).
  match type of Hsnd with
  | snd ?res = Some ?r =>
      assert (Hdl : res = (fst res, Some r))
        by (revert Hsnd; generalize res; intros [a b] Hb; simpl in *; now subst b)
  end.
  assert (Htexts : w_attachment_texts
                     (walk_message (example_env (Some example_message)) (lit "downloads")
                        ∅ (msg_body example_message) (lit "7") true) <> [])
    by (vm_compute; discriminate).
  destruct (body_field_is_combined_text (example_env (Some example_message))
              (lit "downloads") (lit "7") ∅ _ example_message _ eq_refl Htexts Hdl)
    as (H1 & H2 & H3 & H4 & H5 & H6).
  eexists _, _. split; [exact Hdl|]. split; [vm_compute; reflexivity|].
  split; [exact H4|]. rewrite H6.
  - vm_compute. reflexivity.
  - vm_compute. reflexivity.
  - clear. repeat constructor; vm_compute; intuition discriminate.
Defined.

End DownloadWitness.

(** * Sanitising is idempotent for extensions of at most 200 characters *)

Section SanitizeFacts.

Import Parser.

Lemma sanitize_filename_unfold x :
  sanitize_filename x
  = if (200 <? length (cleaned x))%nat
    then slice_to (200 - Z.of_nat (length (snd (splitext (cleaned x)))))
           (fst (splitext (cleaned x))) ++ snd (splitext (cleaned x))
    else cleaned x.
Proof.
  unfold sanitize_filename. fold (cleaned x). now destruct (splitext (cleaned x)).
Qed.

Lemma split_no_cut sep s : find_sub sep s = None -> split sep s = [s].
Proof. intros H. unfold split. destruct (length s); simpl; now rewrite ?H. Qed.

Lemma replace_char c d s :
  replace [c] [d] s = List.map (fun x => if x =? c then d else x) s.
Proof.
  assert (Hne : [c] <> []) by discriminate.
  unfold replace. induction s as [|x s IH]; [reflexivity|].
  simpl List.map. rewrite <- IH. clear IH.
  destruct (x =? c) eqn:Hx.
  - apply N.eqb_eq in Hx as ->.
    rewrite (split_cut [c] (c :: s) [] s Hne)
      by (simpl; now rewrite N.eqb_refl).
    rewrite join_cons by apply split_nonempty. reflexivity.
  - assert (Hs : startswith [c] (x :: s) = false)
      by (simpl; now rewrite N.eqb_sym, Hx).
    destruct (find_sub [c] s) as [[b a]|] eqn:Hf.
    + rewrite (split_cut [c] (x :: s) (x :: b) a Hne)
        by (cbn [find_sub]; now rewrite Hs, Hf).
      rewrite (split_cut [c] s b a Hne Hf).
      rewrite !join_cons by apply split_nonempty. reflexivity.
    + rewrite (split_no_cut [c] (x :: s)) by (cbn [find_sub]; now rewrite Hs, Hf).
      now rewrite (split_no_cut [c] s Hf).
Qed.

Lemma cleaned_spec x :
  cleaned x = List.map (fun c => if clean_char c then c else UNDERSCORE) x.
Proof.
  unfold cleaned. rewrite replace_char, List.map_map. apply List.map_ext.
  intros c. unfold clean_char. destruct (is_unsafe c); [reflexivity|].
  simpl. now destruct (c =? SPACE).
Qed.

Lemma cleaned_clean x : Forall (fun c => clean_char c = true) (cleaned x).
Proof.
  rewrite cleaned_spec. induction x as [|c x IH]; simpl; constructor; [|exact IH].
  destruct (clean_char c) eqn:H0; [assumption|reflexivity].
Qed.

Lemma cleaned_fixed y : Forall (fun c => clean_char c = true) y -> cleaned y = y.
Proof.
  intros H. rewrite cleaned_spec. induction H as [|c y Hc _ IH]; [reflexivity|].
  simpl. now rewrite Hc, IH.
Qed.

Lemma sanitize_filename_fixed y :
  Forall (fun c => clean_char c = true) y -> (length y <= 200)%nat ->
  sanitize_filename y = y.
Proof.
  intros Hc Hl. rewrite sanitize_filename_unfold, (cleaned_fixed y Hc).
  destruct (200 <? length y)%nat eqn:H; [apply Nat.ltb_lt in H; lia|reflexivity].
Qed.

(** When the extension of the cleaned name has at most 200 characters,
    [sanitize_filename] returns at most 200 characters and a second call
    changes nothing. *)
Theorem sanitize_idempotent_short_extension (x : str) :
  (length (snd (splitext (cleaned x))) <= 200)%nat ->
  sanitize_filename (sanitize_filename x) = sanitize_filename x
  /\ (length (sanitize_filename x) <= 200)%nat.
Proof.
  intros Hext. pose proof (cleaned_clean x) as Hclean.
  pose proof (splitext_app (cleaned x)) as Happ.
  rewrite (sanitize_filename_unfold x).
  destruct (200 <? length (cleaned x))%nat eqn:Hlen.
  - set (name := fst (splitext (cleaned x))) in *.
    set (ext := snd (splitext (cleaned x))) in *.
    rewrite <- Happ in Hclean. apply Forall_app in Hclean as [Hn He].
    assert (Hslice : slice_to (200 - Z.of_nat (length ext)) name
                     = take (200 - length ext) name).
    { unfold slice_to. destruct (0 <=? 200 - Z.of_nat (length ext))%Z eqn:Hz.
      - f_equal. lia.
      - apply Z.leb_gt in Hz. lia. }
    rewrite Hslice.
    assert (Hl : (length (take (200 - length ext) name ++ ext) <= 200)%nat).
    { rewrite length_app, length_take. lia. }
    split; [|exact Hl]. apply sanitize_filename_fixed; [|exact Hl].
    apply Forall_app. split; [|assumption]. now apply Forall_take.
  - apply Nat.ltb_ge in Hlen. split; [|exact Hlen].
    now apply sanitize_filename_fixed.
Qed.

Lemma sanitize_idempotent_short_extension_witness :
  sanitize_filename (sanitize_filename (lit "my report: draft?.txt"))
  = sanitize_filename (lit "my report: draft?.txt")
  /\ (length (sanitize_filename (lit "my report: draft?.txt")) <= 200)%nat.
Proof.
  apply (sanitize_idempotent_short_extension (lit "my report: draft?.txt")).
  vm_compute. lia.
Defined.

End SanitizeFacts.

(** * Searching and listing *)

Section MailboxFacts.

Import Parser Mailbox.

Lemma slice_from_last {A} (k : nat) (l : list A) :
  (0 < k)%nat -> slice_from (- Z.of_nat k) l = drop (length l - k) l.
Proof.
  intros Hk. unfold slice_from, slice_start.
  destruct (- Z.of_nat k <? 0)%Z eqn:Hneg; [|apply Z.ltb_ge in Hneg; lia].
  f_equal. lia.
Qed.

Lemma slice_from_nonneg {A} (i : Z) (l : list A) :
  (0 <= i)%Z -> slice_from i l = drop (Z.to_nat i) l.
Proof.
  intros Hi. unfold slice_from, slice_start.
  destruct (i <? 0)%Z eqn:Hneg; [apply Z.ltb_lt in Hneg; lia|reflexivity].
Qed.


(** With a positive limit, [search_emails] returns the [limit] last
    identifiers of the search (all of them when there are fewer), the last
    one first. *)
Theorem search_emails_newest_first (imap_search : str -> outcome (option (list str)))
    (criteria : str) (limit : Z) (email_ids : list str) :
  imap_search criteria = Returned (Some email_ids) ->
  (0 < limit)%Z ->
  search_emails imap_search true criteria limit
  = take (Z.to_nat limit) (rev email_ids)
  /\ (length (search_emails imap_search true criteria limit)
      = Nat.min (Z.to_nat limit) (length email_ids))%nat.
Proof.
  intros Hs Hl.
  assert (Heq : search_emails imap_search true criteria limit
                = take (Z.to_nat limit) (rev email_ids)).
  { unfold search_emails. simpl. rewrite Hs.
    replace (- limit)%Z with (- Z.of_nat (Z.to_nat limit))%Z by lia.
    rewrite slice_from_last by lia. now rewrite firstn_rev. }
  split; [exact Heq|]. rewrite Heq, length_take, length_rev. reflexivity.
Qed.

Lemma search_emails_newest_first_witness :
  search_emails (fun _ => Returned (Some [lit "1"; lit "2"; lit "3"; lit "4"]))
    true (lit "ALL") 2
  = [lit "4"; lit "3"].
Proof.
  destruct (search_emails_newest_first
              (fun _ => Returned (Some [lit "1"; lit "2"; lit "3"; lit "4"]))
              (lit "ALL") 2 [lit "1"; lit "2"; lit "3"; lit "4"] eq_refl eq_refl)
    as [H _].
  rewrite H. reflexivity.
Defined.

(** A limit of 0 does not give an empty list: the slice [[-0:]] is the
    whole list, so every identifier is returned.  A negative limit drops
    that many of the first identifiers. *)
Theorem search_emails_without_limit (imap_search : str -> outcome (option (list str)))
    (criteria : str) (limit : Z) (email_ids : list str) :
  imap_search criteria = Returned (Some email_ids) ->
  (limit <= 0)%Z ->
  search_emails imap_search true criteria limit
  = rev (drop (Z.to_nat (- limit)) email_ids)
  /\ (limit = 0%Z -> search_emails imap_search true criteria limit = rev email_ids).
Proof.
  intros Hs Hl.
  assert (Heq : search_emails imap_search true criteria limit
                = rev (drop (Z.to_nat (- limit)) email_ids)).
  { unfold search_emails. simpl. rewrite Hs. now rewrite slice_from_nonneg by lia. }
  split; [exact Heq|]. intros ->. rewrite Heq. reflexivity.
Qed.

Lemma search_emails_without_limit_witness :
  search_emails (fun _ => Returned (Some [lit "1"; lit "2"; lit "3"]))
    true (lit "ALL") 0
  = [lit "3"; lit "2"; lit "1"].
Proof.
  destruct (search_emails_without_limit
              (fun _ => Returned (Some [lit "1"; lit "2"; lit "3"]))
              (lit "ALL") 0 [lit "1"; lit "2"; lit "3"] eq_refl ltac:(lia))
    as [_ H].
  rewrite H; reflexivity.
Defined.

(** What a successful [download_email_full] went through. *)
Lemma download_email_full_inv E connected download_path fs email_id extract fs' r :
  download_email_full E connected download_path fs email_id extract = (fs', Some r) ->
  exists msg subject sender recipient,
    imap_fetch E email_id = Returned (Some msg)
    /\ decode_mime_words E (Some (header_or_empty (msg_subject msg))) = Returned subject
    /\ decode_mime_words E (Some (header_or_empty (msg_from msg))) = Returned sender
    /\ decode_mime_words E (Some (header_or_empty (msg_to msg))) = Returned recipient
    /\ let res :=
         parse_email_body_and_attachments E download_path fs (msg_body msg)
           email_id extract in
       let md :=
         {| md_id := email_id; md_subject := subject; md_sender := sender;
            md_recipient := recipient; md_date := header_or_empty (msg_date msg);
            md_downloaded_at := now_isoformat E;
            md_has_html := match pc_body_html (snd res) with [] => false | _ => true end;
            md_attachment_count := length (pc_attachments (snd res)) |} in
       write_artifacts E (fst res) (email_folder_of download_path email_id) (snd res) md
       = (fs', true)
       /\ r = {| em_id := email_id; em_subject := subject; em_sender := sender;
                 em_recipient := recipient; em_date := header_or_empty (msg_date msg);
                 em_body := pc_body_text (snd res);
                 em_body_html := pc_body_html (snd res);
                 em_attachments := pc_attachments (snd res);
                 em_download_folder := email_folder_of download_path email_id |}.
Proof.
  unfold download_email_full. intros H.
  destruct connected; simpl negb in H; cbv iota in H; [|discriminate].
  destruct (imap_fetch E email_id) as [[msg|]|] eqn:Hm; try discriminate.
  unfold mbind, outcome_bind, mret, outcome_ret in H.
  destruct (decode_mime_words E (Some (header_or_empty (msg_subject msg))))
    as [subject|] eqn:Hs; cbv beta iota in H; [|discriminate].
  destruct (decode_mime_words E (Some (header_or_empty (msg_from msg))))
    as [sender|] eqn:Hf; cbv beta iota in H; [|discriminate].
  destruct (decode_mime_words E (Some (header_or_empty (msg_to msg))))
    as [recipient|] eqn:Ht; cbv beta iota in H; [|discriminate].
  exists msg, subject, sender, recipient.
  do 4 (split; [first [reflexivity|assumption]|]).
  destruct (parse_email_body_and_attachments E download_path fs (msg_body msg)
              email_id extract) as [fs1 parsed].
  cbv zeta. cbn [fst snd].
  destruct (write_artifacts E fs1 _ parsed _) as [fs2 [|]]; [|discriminate].
  injection H as <- <-. split; reflexivity.
Qed.





End MailboxFacts.

(** * What is on disk *)

Section StorageFacts.

Import Parser Mailbox.

Lemma fs_mkdir_mono (fs fs1 : filesystem) (p : str) :
  fs_mkdir fs p = Returned fs1 -> fs ⊆ fs1.
Proof.
  unfold fs_mkdir. destruct (fs !! p) as [[|c]|] eqn:Hp; intros [= <-]; [reflexivity|].
  now apply insert_subseteq.
Qed.

Lemma resolve_collision_free (fs : filesystem) (p q : str) :
  resolve_collision fs p = Some q -> fs !! q = None.
Proof. apply free_filepath_free. Qed.

(** One call of [save_attachment] changes no node that was there, and a
    record it returns names a path that was free and now holds the
    payload. *)
Lemma save_attachment_inv (E : parser_env) (download_path : str)
    (fs fs' : filesystem) (part : mime_part) (email_id : str) (extract_text : bool)
    (res : option attachment_info) :
  save_attachment E download_path fs part email_id extract_text = (fs', res) ->
  fs ⊆ fs'
  /\ forall info, res = Some info ->
       fs !! att_filepath info = None
       /\ (exists data,
             part_payload part = Some data
             /\ fs' !! att_filepath info = Some (File data)
             /\ att_size info = length data)
       /\ exists fs1,
            fs_mkdir fs (email_folder_of download_path email_id) = Returned fs1
            /\ fs1 ⊆ fs'
            /\ resolve_collision fs1
                 (path_join (email_folder_of download_path email_id) (att_filename info))
               = Some (att_filepath info).
Proof.
  unfold save_attachment.
  destruct (part_filename part) as [raw|];
    [|intros [= <- <-]; split; [reflexivity|discriminate]].
  destruct (str_eqb raw []);
    [intros [= <- <-]; split; [reflexivity|discriminate]|].
  destruct (decode_mime_words E (Some raw)) as [decoded|];
    [|intros [= <- <-]; split; [reflexivity|discriminate]].
  destruct (fs_mkdir fs _) as [fs1|] eqn:Hmk;
    [|intros [= <- <-]; split; [reflexivity|discriminate]].
  pose proof (fs_mkdir_mono _ _ _ Hmk) as Hsub.
  destruct (resolve_collision fs1 _) as [q|] eqn:Hq;
    [|intros [= <- <-]; split; [assumption|discriminate]].
  pose proof (resolve_collision_free _ _ _ Hq) as Hfree.
  assert (Hins : forall c, fs ⊆ <[q := File c]> fs1).
  { intros c. etrans; [exact Hsub|]. now apply insert_subseteq. }
  destruct (part_payload part) as [data|].
  - rewrite (fs_write_fresh _ _ _ Hfree).
    assert (Hinfo : forall text,
              fs !! q = None
              /\ (exists data0,
                    Some data = Some data0
                    /\ <[q := File data]> fs1 !! q = Some (File data0)
                    /\ length data = length data0)
              /\ exists fs2,
                   Returned fs1 = Returned fs2
                   /\ fs2 ⊆ <[q := File data]> fs1
                   /\ resolve_collision fs2
                        (path_join (email_folder_of download_path email_id)
                           (att_filename
                              {| att_filename := sanitize_filename decoded;
                                 att_filepath := q; att_size := length data;
                                 att_content_type := part_content_type part;
                                 att_extracted_text := text |}))
                      = Some q).
    { intros text. split; [eapply lookup_weaken_None; eassumption|].
      split; [exists data; split; [reflexivity|]; split; [apply lookup_insert_eq|reflexivity]|].
      exists fs1. split; [reflexivity|]. split; [now apply insert_subseteq|exact Hq]. }
    destruct extract_text.
    + destruct (extract_text_from_file E q) as [text|].
      * intros [= <- <-]. split; [apply Hins|]. intros info [= <-]. apply Hinfo.
      * intros [= <- <-]. split; [apply Hins|discriminate].
    + intros [= <- <-]. split; [apply Hins|]. intros info [= <-]. apply Hinfo.
  - rewrite (fs_write_fresh _ _ _ Hfree). intros [= <- <-].
    split; [apply Hins|discriminate].
Qed.

(** [save_attachment] never overwrites: every node of the file system is
    unchanged after the call, and a record it returns names a path that did
    not exist and now holds the payload of the part, whose length is the
    recorded size. *)
Theorem save_attachment_never_overwrites (E : parser_env) (download_path : str)
    (fs : filesystem) (part : mime_part) (email_id : str) (extract_text : bool) :
  let res := save_attachment E download_path fs part email_id extract_text in
  fs ⊆ fst res
  /\ forall info, snd res = Some info ->
       fs !! att_filepath info = None
       /\ exists data,
            part_payload part = Some data
            /\ fst res !! att_filepath info = Some (File data)
            /\ att_size info = length data.
Proof.
  intros res. subst res.
  destruct (save_attachment E download_path fs part email_id extract_text)
    as [fs' r] eqn:Hsave.
  apply save_attachment_inv in Hsave as [Hsub Hinfo].
  split; [exact Hsub|]. intros info Hr. destruct (Hinfo info Hr) as (H1 & H2 & _).
  split; assumption.
Qed.

Lemma stored_mono (fs fs1 fs2 : filesystem) (a : attachment_info) :
  fs1 ⊆ fs2 -> stored fs fs1 a -> stored fs fs2 a.
Proof.
  intros Hsub (Hfree & data & Hd & Hs). split; [assumption|].
  exists data. split; [|assumption]. eapply lookup_weaken; eassumption.
Qed.

Lemma walk_step_inv (E : parser_env) (download_path email_id : str) (extract : bool)
    (fs : filesystem) (st : walk_state) (part : mime_part) :
  walk_inv fs st -> walk_inv fs (walk_step E download_path email_id extract st part).
Proof.
  intros (Hsub & Hnd & Hall). unfold walk_step.
  destruct (contains (lit "attachment") (disposition_str part)).
  - destruct (save_attachment E download_path (w_fs st) part email_id extract)
      as [fs' [info|]] eqn:Hsave;
      apply save_attachment_inv in Hsave as [Hsub' Hinfo].
    + destruct (Hinfo info eq_refl) as (Hfree & (data & _ & Hd & Hs) & _).
      split; [simpl; etrans; eassumption|]. simpl. split.
      * rewrite List.map_app. apply NoDup_app. split; [assumption|]. split.
        -- intros p Hp Hp'. apply list_elem_of_singleton in Hp'. subst p.
           apply list_elem_of_In, in_map_iff in Hp as (a & Ha & Hin).
           rewrite Forall_forall in Hall.
           destruct (Hall a (proj2 (list_elem_of_In _ _) Hin)) as (_ & d & Hd' & _).
           rewrite Ha, Hfree in Hd'. discriminate.
        -- simpl. apply NoDup_singleton.
      * apply Forall_app. split.
        -- eapply Forall_impl; [exact Hall|]. intros a. now apply stored_mono.
        -- constructor; [|constructor]. split.
           ++ eapply lookup_weaken_None; eassumption.
           ++ exists data. split; assumption.
    + split; [simpl; etrans; eassumption|]. simpl. split; [assumption|].
      eapply Forall_impl; [exact Hall|]. intros a. now apply stored_mono.
  - destruct (str_eqb (part_content_type part) (lit "text/plain"));
      [split; [|split]; assumption|].
    destruct (str_eqb (part_content_type part) (lit "text/html"));
      split; try split; assumption.
Qed.

Lemma walk_message_inv (E : parser_env) (download_path : str) (fs : filesystem)
    (msg : message_body) (email_id : str) (extract : bool) :
  walk_inv fs (walk_message E download_path fs msg email_id extract).
Proof.
  assert (H0 : forall t h,
            walk_inv fs {| w_fs := fs; w_body_text := t; w_body_html := h;
                           w_attachments := []; w_attachment_texts := [] |}).
  { intros t h. split; [reflexivity|]. split; simpl; constructor. }
  unfold walk_message. destruct msg as [part|walk].
  - destruct (part_payload part) as [[|c payload]|]; try apply H0.
    destruct (str_eqb _ _); apply H0.
  - generalize (H0 [] []).
    generalize {| w_fs := fs; w_body_text := []; w_body_html := [];
                  w_attachments := []; w_attachment_texts := [] |}.
    induction walk as [|part walk IH]; intros st Hst; [exact Hst|].
    cbn [fold_left]. apply IH. now apply walk_step_inv.
Qed.

(** The attachments of one message are stored apart: parsing changes no
    node that was on disk, the paths of the records returned are pairwise
    distinct, none of them existed before, and each holds a file of the
    recorded size afterwards, also when several attachments have the same
    name. *)
Theorem attachments_stored_apart (E : parser_env) (download_path : str)
    (fs : filesystem) (msg : message_body) (email_id : str)
    (extract_attachment_text : bool) :
  let res :=
    parse_email_body_and_attachments E download_path fs msg email_id
      extract_attachment_text in
  fs ⊆ fst res
  /\ NoDup (List.map att_filepath (pc_attachments (snd res)))
  /\ Forall (stored fs (fst res)) (pc_attachments (snd res)).
Proof.
  intros res. subst res. unfold parse_email_body_and_attachments. simpl.
  apply walk_message_inv.
Qed.

End StorageFacts.

Section DownloadFacts.

Import Parser Mailbox Examples MoreExamples.

Ltac eval_conditions :=
  repeat match goal with
         | |- context [if ?c then _ else _] =>
             let v := eval vm_compute in c in
             change c with v; cbv iota
         end.

Lemma path_join_longer (folder name : str) :
  path_join folder name = folder \/ (length folder < length (path_join folder name))%nat.
Proof.
  unfold path_join. destruct (str_eqb name [] || str_eqb name [DOT]); [now left|].
  right. rewrite !length_app. simpl. lia.
Qed.

Lemma artifact_paths_apart (folder : str) :
  let pt := path_join folder (lit "body.txt") in
  let ph := path_join folder (lit "body.html") in
  let pm := path_join folder (lit "metadata.json") in
  (folder <> pt /\ folder <> ph /\ folder <> pm)
  /\ pt <> ph /\ pt <> pm /\ ph <> pm.
Proof.
  unfold path_join. eval_conditions.
  repeat split; intros H;
    try (apply (f_equal (@length N)) in H; rewrite !length_app in H; simpl in H; lia);
    apply app_inv_head in H; vm_compute in H; discriminate.
Qed.

(** What [write_artifacts] leaves on disk when every write succeeds. *)
Lemma write_artifacts_inv (E : parser_env) (fs fs' : filesystem) (folder : str)
    (parsed : parsed_content) (md : metadata) :
  write_artifacts E fs folder parsed md = (fs', true) ->
  fs' !! folder = Some Dir
  /\ fs' !! path_join folder (lit "metadata.json") = Some (File (json_dump E md))
  /\ (pc_body_text parsed <> [] ->
      fs' !! path_join folder (lit "body.txt") = Some (File (pc_body_text parsed)))
  /\ (pc_body_html parsed <> [] ->
      fs' !! path_join folder (lit "body.html") = Some (File (pc_body_html parsed)))
  /\ (forall p, ~ In p (folder :: artifact_paths folder) -> fs' !! p = fs !! p)
  /\ (forall c, fs !! folder <> Some (File c)).
Proof.
  pose proof (artifact_paths_apart folder) as Hapart.
  unfold artifact_paths in *.
  set (pt := path_join folder (lit "body.txt")) in *.
  set (ph := path_join folder (lit "body.html")) in *.
  set (pm := path_join folder (lit "metadata.json")) in *.
  destruct Hapart as ((Hft & Hfh & Hfm) & Hth & Htm & Hhm).
  unfold write_artifacts. fold pt ph pm. intros H.
  destruct (fs_mkdir fs folder) as [fs1|] eqn:Hmk; [|discriminate].
  pose proof (fs_mkdir_dir _ _ _ Hmk) as Hdir.
  assert (Hfs1 : forall p, p <> folder -> fs1 !! p = fs !! p).
  { intros p Hp. unfold fs_mkdir in Hmk.
    destruct (fs !! folder) as [[|c]|]; try discriminate; injection Hmk as <-; auto.
    now rewrite lookup_insert_ne. }
  assert (Hnofile : forall c, fs !! folder <> Some (File c)).
  { intros c Hc. unfold fs_mkdir in Hmk. rewrite Hc in Hmk. discriminate. }
  destruct (match pc_body_text parsed with
            | [] => Returned fs1
            | _ => fs_write fs1 pt (pc_body_text parsed)
            end) as [fs2|] eqn:H2; [|discriminate].
  assert (H2' : (pc_body_text parsed = [] /\ fs2 = fs1)
                \/ (pc_body_text parsed <> []
                    /\ fs2 = <[pt := File (pc_body_text parsed)]> fs1)).
  { destruct (pc_body_text parsed) as [|c t].
    - left. split; congruence.
    - right. split; [discriminate|]. now apply fs_write_Returned. }
  clear H2.
  destruct (match pc_body_html parsed with
            | [] => Returned fs2
            | _ => fs_write fs2 ph (pc_body_html parsed)
            end) as [fs3|] eqn:H3; [|discriminate].
  assert (H3' : (pc_body_html parsed = [] /\ fs3 = fs2)
                \/ (pc_body_html parsed <> []
                    /\ fs3 = <[ph := File (pc_body_html parsed)]> fs2)).
  { destruct (pc_body_html parsed) as [|c t].
    - left. split; congruence.
    - right. split; [discriminate|]. now apply fs_write_Returned. }
  clear H3.
  destruct (fs_write fs3 pm (json_dump E md)) as [fs4|] eqn:H4; [|discriminate].
  apply fs_write_Returned in H4. injection H as <-. subst fs4.
  assert (Hother : forall p, p <> pt -> p <> ph -> p <> pm ->
                     <[pm := File (json_dump E md)]> fs3 !! p = fs1 !! p).
  { intros p Hpt Hph Hpm. rewrite lookup_insert_ne by congruence.
    destruct H3' as [[_ ->]|[_ ->]]; rewrite ?lookup_insert_ne by congruence;
      destruct H2' as [[_ ->]|[_ ->]]; rewrite ?lookup_insert_ne by congruence;
      reflexivity. }
  split; [rewrite Hother by congruence; exact Hdir|].
  split; [apply lookup_insert_eq|].
  split.
  { intros Hne. destruct H2' as [[He _]|[_ ->]]; [contradiction|].
    rewrite lookup_insert_ne by congruence.
    destruct H3' as [[_ ->]|[_ ->]]; rewrite ?lookup_insert_ne by congruence;
      apply lookup_insert_eq. }
  split.
  { intros Hne. destruct H3' as [[He _]|[_ ->]]; [contradiction|].
    rewrite lookup_insert_ne by congruence. apply lookup_insert_eq. }
  split; [|exact Hnofile].
  intros p Hp. simpl in Hp.
  rewrite Hother by (intros ->; tauto). apply Hfs1. intros ->. tauto.
Qed.

(** After a successful [download_email_full] the folder of the message is
    a directory that holds [metadata.json] with the dump of the metadata of
    this message, [body.txt] with the body when the body is not empty,
    [body.html] with the HTML when there is HTML, and, for every
    attachment of the record whose path is not one of these three, a file
    of the recorded size. *)
Theorem download_leaves_artifacts (E : parser_env) (download_path email_id : str)
    (fs fs' : filesystem) (extract_attachment_text : bool) (r : email_record) :
  download_email_full E true download_path fs email_id extract_attachment_text
  = (fs', Some r) ->
  let folder := email_folder_of download_path email_id in
  em_download_folder r = folder
  /\ fs' !! folder = Some Dir
  /\ (exists md,
        fs' !! path_join folder (lit "metadata.json") = Some (File (json_dump E md))
        /\ md_id md = email_id
        /\ md_subject md = em_subject r
        /\ md_sender md = em_sender r
        /\ md_recipient md = em_recipient r
        /\ md_date md = em_date r
        /\ md_attachment_count md = length (em_attachments r)
        /\ (md_has_html md = true <-> em_body_html r <> []))
  /\ (em_body r <> [] ->
      fs' !! path_join folder (lit "body.txt") = Some (File (em_body r)))
  /\ (em_body_html r <> [] ->
      fs' !! path_join folder (lit "body.html") = Some (File (em_body_html r)))
  /\ Forall (fun a =>
               ~ In (att_filepath a) (artifact_paths folder) ->
               exists data,
                 fs' !! att_filepath a = Some (File data) /\ att_size a = length data)
       (em_attachments r).
Proof.
  intros Hdl folder.
  apply download_email_full_inv in Hdl
    as (msg & subject & sender & recipient & _ & _ & _ & _ & Hw & ->).
  pose proof (attachments_stored_apart E download_path fs (msg_body msg) email_id
                extract_attachment_text) as (_ & _ & Hstored).
  destruct (parse_email_body_and_attachments E download_path fs (msg_body msg)
              email_id extract_attachment_text) as [fs1 parsed].
  cbn [fst snd] in *. fold folder in Hw.
  apply write_artifacts_inv in Hw as (Hdir & Hmeta & Hbody & Hhtml & Hother & Hnofile).
  cbn [em_download_folder em_body em_body_html em_attachments em_subject em_sender
       em_recipient em_date].
  split; [reflexivity|]. split; [exact Hdir|]. split.
  { eexists. split; [exact Hmeta|]. cbn. do 6 (split; [reflexivity|]).
    destruct (pc_body_html parsed); split; congruence. }
  split; [exact Hbody|]. split; [exact Hhtml|].
  eapply Forall_impl; [exact Hstored|].
  intros a (_ & data & Hd & Hs) Hnot. exists data. split; [|exact Hs].
  rewrite Hother; [exact Hd|].
  intros [Hf|Hin]; [|contradiction].
  apply (Hnofile data). now rewrite Hf.
Qed.

Lemma download_leaves_artifacts_witness :
  exists fs' r,
    download_email_full (example_env (Some example_message)) true (lit "downloads")
      ∅ (lit "7") true
    = (fs', Some r)
    /\ fs' !! lit "downloads/email_7/metadata.json" = Some (File (lit "7"))
    /\ fs' !! lit "downloads/email_7/a.txt" = Some (File (lit "World" ++ [NL])).
Proof.
  eassert (Hsnd : snd (download_email_full (example_env (Some example_message)) true
                         (lit "downloads") ∅ (lit "7") true) = Some _)
    by (vm_compute; reflexivity).
  match type of Hsnd with
  | snd ?res = Some ?r =>
      assert (Hdl : res = (fst res, Some r))
        by (revert Hsnd; generalize res; intros [a b] Hb; simpl in *; now subst b)
  end.
  destruct (download_leaves_artifacts (example_env (Some example_message))
              (lit "downloads") (lit "7") ∅ _ true _ Hdl)
    as (_ & _ & (md & Hmeta & Hid & _) & _ & _ & _).
  eexists _, _. split; [exact Hdl|]. split.
  - change (lit "downloads/email_7/metadata.json")
      with (path_join (email_folder_of (lit "downloads") (lit "7")) (lit "metadata.json")).
    rewrite Hmeta. cbn [example_env json_dump]. now rewrite Hid.
  - clear. vm_compute. reflexivity.
Defined.

End DownloadFacts.

Section ShadowingFacts.

Import Parser Mailbox Examples MoreExamples.

(** An attachment saved under the name of a file that
    [download_email_full] writes afterwards is lost: the record still
    names the path, but the file holds the metadata, the body text or the
    HTML of the message. *)
Theorem attachment_named_like_artifact_is_overwritten (E : parser_env)
    (download_path email_id : str) (fs fs' : filesystem)
    (extract_attachment_text : bool) (r : email_record) (a : attachment_info) :
  download_email_full E true download_path fs email_id extract_attachment_text
  = (fs', Some r) ->
  In a (em_attachments r) ->
  let folder := email_folder_of download_path email_id in
  (att_filepath a = path_join folder (lit "metadata.json") ->
   exists md,
     md_id md = email_id /\ md_attachment_count md = length (em_attachments r)
     /\ fs' !! att_filepath a = Some (File (json_dump E md)))
  /\ (att_filepath a = path_join folder (lit "body.txt") -> em_body r <> [] ->
      fs' !! att_filepath a = Some (File (em_body r)))
  /\ (att_filepath a = path_join folder (lit "body.html") -> em_body_html r <> [] ->
      fs' !! att_filepath a = Some (File (em_body_html r))).
Proof.
  intros Hdl Hin folder.
  apply download_email_full_inv in Hdl
    as (msg & subject & sender & recipient & _ & _ & _ & _ & Hw & ->).
  destruct (parse_email_body_and_attachments E download_path fs (msg_body msg)
              email_id extract_attachment_text) as [fs1 parsed].
  cbn [fst snd] in *. fold folder in Hw.
  apply write_artifacts_inv in Hw as (_ & Hmeta & Hbody & Hhtml & _).
  cbn [em_body em_body_html em_attachments] in *.
  split; [|split].
  - intros ->. eexists. split; [|split; [|exact Hmeta]]; reflexivity.
  - intros -> Hne. now apply Hbody.
  - intros -> Hne. now apply Hhtml.
Qed.

Lemma attachment_named_like_artifact_is_overwritten_witness :
  exists fs' r a,
    download_email_full (example_env (Some shadowing_message)) true (lit "downloads")
      ∅ (lit "7") true
    = (fs', Some r)
    /\ em_attachments r = [a]
    /\ att_filename a = lit "metadata.json"
    /\ att_size a = 7%nat
    /\ fs' !! att_filepath a = Some (File (lit "7")).
Proof.
  eassert (Hsnd : snd (download_email_full (example_env (Some shadowing_message)) true
                         (lit "downloads") ∅ (lit "7") true) = Some _)
    by (vm_compute; reflexivity).
  match type of Hsnd with
  | snd ?res = Some ?r =>
      assert (Hdl : res = (fst res, Some r))
        by (revert Hsnd; generalize res; intros [a b] Hb; simpl in *; now subst b)
  end.
  eexists _, _, _. split; [exact Hdl|]. split; [reflexivity|].
  split; [reflexivity|]. split; [reflexivity|].
  destruct (attachment_named_like_artifact_is_overwritten
              (example_env (Some shadowing_message)) (lit "downloads") (lit "7") ∅ _
              true _ _ Hdl (or_introl eq_refl))
    as [Hmeta _].
  destruct Hmeta as (md & Hid & _ & Hfile); [reflexivity|].
  rewrite Hfile. cbn [example_env json_dump]. now rewrite Hid.
Defined.

(** [get_attachment_path], asked for the name a saved attachment is
    recorded under, always finds a file at the plain path of that name.
    This is the file just saved when nothing was there before and the name
    is a proper file name (not [..], and not one that names the folder
    itself); when a node was there, the attachment went to a numbered
    path, and the plain path still holds the older node. *)
Theorem saved_attachment_lookup (E : parser_env) (download_path : str)
    (fs fs' : filesystem) (part : mime_part) (email_id : str) (extract_text : bool)
    (info : attachment_info) :
  save_attachment E download_path fs part email_id extract_text = (fs', Some info) ->
  let plain := path_join (email_folder_of download_path email_id) (att_filename info) in
  get_attachment_path download_path fs' email_id (att_filename info) = Some plain
  /\ (forall node, fs !! plain = Some node ->
        att_filepath info <> plain /\ fs' !! plain = Some node)
  /\ (fs !! plain = None -> plain <> email_folder_of download_path email_id ->
      att_filename info <> lit ".." ->
      att_filepath info = plain).
Proof.
  intros Hsave plain.
  apply save_attachment_inv in Hsave as [Hsub Hinfo].
  destruct (Hinfo info eq_refl)
    as (Hfree & (data & _ & Hd & _) & fs1 & Hmk & Hsub1 & Hq).
  fold plain in Hq.
  pose proof (resolve_collision_free _ _ _ Hq) as Hfree1.
  assert (Hex : is_Some (fs' !! plain)).
  { destruct (fs1 !! plain) as [node|] eqn:Hp.
    - exists node. eapply lookup_weaken; eassumption.
    - rewrite (resolve_collision_fresh _ _ Hp) in Hq. injection Hq as Hq.
      rewrite Hq. eauto. }
  split; [|split].
  - unfold get_attachment_path. fold plain. unfold fs_exists.
    destruct Hex as [node ->]. reflexivity.
  - intros node Hnode. split.
    + intros Heq. rewrite Heq in Hfree. congruence.
    + eapply lookup_weaken; eassumption.
  - intros Hnone Hne _.
    assert (Hp : fs1 !! plain = None).
    { unfold fs_mkdir in Hmk.
      destruct (fs !! email_folder_of download_path email_id) as [[|c]|];
        try discriminate; injection Hmk as <-; [assumption|].
      now rewrite lookup_insert_ne by congruence. }
    rewrite (resolve_collision_fresh _ _ Hp) in Hq. now injection Hq as <-.
Qed.

Lemma saved_attachment_lookup_witness :
  exists fs' info,
    save_attachment (example_env None) (lit "downloads")
      used_folder
      (attachment_part (lit "a.txt") (lit "new")) (lit "7") false
    = (fs', Some info)
    /\ att_filepath info = lit "downloads/email_7/a_1.txt"
    /\ get_attachment_path (lit "downloads") fs' (lit "7") (att_filename info)
       = Some (lit "downloads/email_7/a.txt")
    /\ fs' !! lit "downloads/email_7/a.txt" = Some (File (lit "old")).
Proof.
  eassert (Hsnd : snd (save_attachment (example_env None) (lit "downloads")
                         used_folder
                         (attachment_part (lit "a.txt") (lit "new")) (lit "7") false)
                  = Some _)
    by (vm_compute; reflexivity).
  match type of Hsnd with
  | snd ?res = Some ?r =>
      assert (Hsave : res = (fst res, Some r))
        by (revert Hsnd; generalize res; intros [a b] Hb; simpl in *; now subst b)
  end.
  destruct (saved_attachment_lookup (example_env None) (lit "downloads") _ _ _ (lit "7")
              false _ Hsave) as (Hget & Hold & _).
  eexists _, _. split; [exact Hsave|]. split; [reflexivity|].
  split; [exact Hget|].
  apply (Hold (File (lit "old"))). clear. vm_compute. reflexivity.
Defined.

Lemma save_attachment_no_text (E : parser_env) (download_path : str)
    (fs fs' : filesystem) (part : mime_part) (email_id : str) (info : attachment_info) :
  save_attachment E download_path fs part email_id false = (fs', Some info) ->
  att_extracted_text info = None.
Proof.
  unfold save_attachment.
  repeat match goal with
         | |- context [match ?x with _ => _ end] => destruct x eqn:?
         end; intros [= <- <-]; reflexivity.
Qed.

(** Without the extraction of attachment texts, the body text of a parsed
    message is its stripped body alone: no record carries a text, no block
    is appended, and the flag for extracted attachments is false. *)
Theorem no_extraction_no_blocks (E : parser_env) (download_path : str)
    (fs : filesystem) (msg : message_body) (email_id : str) :
  let parsed :=
    snd (parse_email_body_and_attachments E download_path fs msg email_id false) in
  pc_has_extracted_attachments parsed = false
  /\ pc_body_text parsed
     = strip (plain_body E (walk_message E download_path fs msg email_id false))
  /\ Forall (fun a => att_extracted_text a = None) (pc_attachments parsed).
Proof.
  intros parsed. subst parsed. unfold parse_email_body_and_attachments. cbn [snd].
  cbn [pc_has_extracted_attachments pc_body_text pc_attachments].
  assert (Hinv : w_attachment_texts (walk_message E download_path fs msg email_id false) = []
                 /\ Forall (fun a => att_extracted_text a = None)
                      (w_attachments (walk_message E download_path fs msg email_id false))).
  { unfold walk_message. destruct msg as [part|walk].
    - destruct (part_payload part) as [[|c payload]|]; try (split; [reflexivity|constructor]).
      destruct (str_eqb _ _); split; try reflexivity; constructor.
    - set (st0 := {| w_fs := fs; w_body_text := []; w_body_html := [];
                     w_attachments := []; w_attachment_texts := [] |}).
      assert (H0 : w_attachment_texts st0 = []
                   /\ Forall (fun a => att_extracted_text a = None) (w_attachments st0))
        by (split; [reflexivity|constructor]).
      revert H0. generalize st0. induction walk as [|part walk IH]; intros st H0.
      + exact H0.
      + cbn [fold_left]. apply IH. destruct H0 as [Ht Ha]. unfold walk_step.
        destruct (contains (lit "attachment") (disposition_str part)).
        * destruct (save_attachment E download_path (w_fs st) part email_id false)
            as [fs1 [info|]] eqn:Hsave; simpl; [|split; assumption].
          split; [assumption|]. apply Forall_app. split; [assumption|].
          constructor; [|constructor]. eapply save_attachment_no_text, Hsave.
        * destruct (str_eqb _ _); [split; assumption|].
          destruct (str_eqb _ _); split; assumption. }
  destruct Hinv as [Ht Ha]. rewrite Ht. auto.
Qed.

End ShadowingFacts.

(** * More on chunks and on the content of a summary *)

Section SummarizerFacts.

Import Parser Summarizer LanguageModel Examples MoreExamples.

(** [split_text_by_tokens] returns at least one chunk and at most one per
    sentence, whatever the tokenizer and the budget.  A text without the
    sentence end [". "] is never cut: it comes back as one chunk, with a
    period appended (the empty text comes back as the chunk ["."]). *)
Theorem chunk_count_bounds (count_tokens : str -> nat) (text : str)
    (max_chunk_tokens : nat) :
  let chunks := split_text_by_tokens count_tokens text max_chunk_tokens in
  (1 <= length chunks <= length (split SENTENCE_END text))%nat
  /\ (contains SENTENCE_END text = false ->
      chunks = [strip (text ++ SENTENCE_END)]).
Proof.
  intros chunks. subst chunks. unfold split_text_by_tokens.
  destruct (chunk_fold_groups count_tokens max_chunk_tokens (split SENTENCE_END text) [] [])
    as (gs & g & Hf & Hc & Hok & Hcur & Hne).
  { constructor. }
  { right. simpl. lia. }
  specialize (Hne (split_nonempty _ _)).
  change (List.map (fun g => strip (render g)) [], render []) with (@nil str, @nil N) in Hf.
  rewrite Hf. simpl in Hc.
  destruct (render g) as [|c r] eqn:Hr; [apply render_nil_iff in Hr; contradiction|].
  rewrite <- Hr.
  assert (Hlen : (length gs <= length (List.concat gs))%nat).
  { clear - Hok. induction Hok as [|g0 gs0 [Hg0 _] _ IH]; [reflexivity|].
    simpl. rewrite length_app. destruct g0; [congruence|simpl; lia]. }
  split.
  - rewrite length_app, length_map. simpl. split; [lia|].
    rewrite <- Hc, length_app. destruct g; [congruence|simpl; lia].
  - intros Hno. apply not_contains_spec in Hno.
    rewrite (split_absent _ _ Hno) in Hc.
    destruct gs as [|g0 gs].
    + simpl in Hc. subst g. unfold render. simpl. now rewrite app_nil_r.
    + exfalso. apply Forall_cons_1 in Hok as [[Hg0 _] _].
      apply (f_equal (@length str)) in Hc. simpl in Hc.
      rewrite !length_app in Hc. destruct g0, g; simpl in Hc; try congruence; lia.
Qed.

(** ** The body in the content of [summarize_email] *)

Lemma find_sub_leftmost sep s b a :
  find_sub sep s = Some (b, a) ->
  forall u v, s = u ++ sep ++ v -> (length b <= length u)%nat.
Proof.
  revert b; induction s as [|c s IH]; intros b; simpl.
  - destruct (startswith sep []); [|discriminate]. intros [= <- <-]; simpl; lia.
  - destruct (startswith sep (c :: s)) eqn:Hp.
    + intros [= <- <-]; simpl; lia.
    + destruct (find_sub sep s) as [[b' a']|] eqn:Hf; [|discriminate].
      intros [= <- <-] u v Huv. destruct u as [|y u].
      * simpl in Huv. rewrite Huv, startswith_app in Hp. discriminate.
      * simpl in Huv. injection Huv as _ Huv.
        specialize (IH b' eq_refl u v Huv). simpl. lia.
Qed.

Lemma find_sub_before sep s b a :
  sep <> [] -> find_sub sep s = Some (b, a) -> ~ occurs sep b.
Proof.
  intros Hne Hf (u & v & Hb).
  pose proof (find_sub_Some _ _ _ _ Hf) as Hs.
  assert (Hocc : s = u ++ sep ++ (v ++ sep ++ a))
    by (rewrite Hs, Hb, <- !app_assoc; reflexivity).
  apply (find_sub_leftmost _ _ _ _ Hf) in Hocc.
  rewrite Hb, !length_app in Hocc. destruct sep; [congruence|simpl in Hocc; lia].
Qed.

Lemma join_split sep s : join sep (split sep s) = s.
Proof. apply join_split_max. Qed.

Lemma join_nil_inv sep l : sep <> [] -> join sep l = [] -> l = [] \/ l = [[]].
Proof.
  intros Hne. destruct l as [|x [|y l]]; [now left| |].
  - simpl. intros ->. now right.
  - rewrite join_cons by discriminate. intros H.
    apply app_eq_nil in H as [_ H]. apply app_eq_nil in H as [H _]. contradiction.
Qed.

Lemma SEP_split : SEP = [NL] ++ [NL] ++ MARKER.
Proof. reflexivity. Qed.

(** With [include_attachments] and without [only_attachments], the parts
    the body contributes to the content of [summarize_email] join, with
    the newline the content is joined with, to the body as it was: the
    split at the separators and the gluing cancel.  The one exception is a
    body that ends with a single separator, which is dropped. *)
Theorem body_passes_through (body_text : str) :
  exists parts,
    body_parts_of body_text true false = Some parts
    /\ (join [NL] parts = body_text \/ body_text = join [NL] parts ++ SEP).
Proof.
  unfold body_parts_of. destruct (contains MARKER body_text); [|eexists; split; eauto].
  pose proof (join_split SEP body_text) as Hj.
  destruct (split SEP body_text) as [|b0 rest] eqn:Hs;
    [now apply split_nonempty in Hs|].
  cbn [nth tail].
  destruct (join SEP rest) as [|c t] eqn:Hrest.
  - eexists. split; [reflexivity|]. simpl join.
    apply join_nil_inv in Hrest; [|apply SEP_nonempty].
    destruct Hrest as [-> | ->].
    + left. exact Hj.
    + right. rewrite join_cons in Hj by discriminate. cbn [join] in Hj.
      now rewrite app_nil_r in Hj.
  - eexists. split; [reflexivity|]. left.
    assert (Hne : rest <> []) by (intros ->; discriminate).
    rewrite join_cons in Hj by assumption. rewrite Hrest in Hj.
    rewrite join_cons by discriminate. cbn [join].
    rewrite <- Hj. rewrite SEP_split, <- !app_assoc. reflexivity.
Qed.

(** Without [include_attachments] and without [only_attachments], the
    body contributes one part: the body up to its first separator, or the
    whole body when it holds no separator.  Nothing that follows the first
    separator reaches the content. *)
Theorem body_only_stops_at_separator (body_text : str) :
  exists body_only rest,
    body_parts_of body_text false false = Some [body_only]
    /\ body_text = body_only ++ rest
    /\ ~ occurs SEP body_only
    /\ (rest = [] \/ startswith SEP rest = true).
Proof.
  unfold body_parts_of. destruct (contains MARKER body_text) eqn:Hm.
  - destruct (find_sub SEP body_text) as [[b a]|] eqn:Hf.
    + rewrite (split_cut _ _ _ _ SEP_nonempty Hf). cbn [nth].
      exists b, (SEP ++ a). split; [reflexivity|].
      split; [now apply find_sub_Some|].
      split; [eapply find_sub_before; [apply SEP_nonempty|exact Hf]|].
      right. apply startswith_app.
    + rewrite (split_no_cut _ _ Hf). cbn [nth].
      exists body_text, []. split; [reflexivity|]. split; [now rewrite app_nil_r|].
      split; [now apply find_sub_None|now left].
  - exists body_text, []. split; [reflexivity|]. split; [now rewrite app_nil_r|].
    split; [|now left]. intros H. apply occurs_SEP_MARKER, contains_spec in H. congruence.
Qed.

(** With [only_attachments], the body contributes the text that follows
    its first separator, under the heading for attachment contents; and
    [summarize_email] gives the error for a missing attachment text exactly
    when no separator of the body is followed by some text. *)
Theorem only_attachments_needs_text_after_separator (body_text : str)
    (include_attachments : bool) :
  (body_parts_of body_text include_attachments true = None
   <-> ~ exists u v, body_text = u ++ SEP ++ v /\ v <> [])
  /\ (forall parts,
        body_parts_of body_text include_attachments true = Some parts ->
        exists body_only attachment_text,
          body_text = body_only ++ SEP ++ attachment_text
          /\ ~ occurs SEP body_only
          /\ attachment_text <> []
          /\ parts = [ONLY_ATTACHMENTS_HEAD ++ attachment_text]).
Proof.
  unfold body_parts_of.
  assert (Hnone : ~ occurs SEP body_text ->
                  ~ exists u v, body_text = u ++ SEP ++ v /\ v <> []).
  { intros Hno (u & v & Hb & _). apply Hno. exists u, v. exact Hb. }
  destruct (contains MARKER body_text) eqn:Hm.
  - destruct (find_sub SEP body_text) as [[b a]|] eqn:Hf.
    + rewrite (split_cut _ _ _ _ SEP_nonempty Hf). cbn [tail]. rewrite join_split.
      pose proof (find_sub_Some _ _ _ _ Hf) as Hb.
      destruct a as [|c a].
      * split; [|discriminate]. split; [|reflexivity]. intros _ (u & v & Huv & Hv).
        pose proof (find_sub_leftmost _ _ _ _ Hf u v Huv) as Hmin.
        rewrite Hb in Huv. apply (f_equal (@length N)) in Huv.
        rewrite !length_app in Huv. simpl in Huv.
        destruct v; [congruence|simpl in Huv; lia].
      * split.
        -- split; [discriminate|]. intros Hno. exfalso. apply Hno.
           exists b, (c :: a). split; [exact Hb|discriminate].
        -- intros parts [= <-]. exists b, (c :: a).
           split; [exact Hb|]. split; [|split; [discriminate|reflexivity]].
           eapply find_sub_before; [apply SEP_nonempty|exact Hf].
    + rewrite (split_no_cut _ _ Hf). cbn [tail join].
      split; [|discriminate]. split; [|reflexivity]. intros _.
      apply Hnone. now apply find_sub_None.
  - split; [|discriminate]. split; [|reflexivity]. intros _. apply Hnone.
    intros H. apply occurs_SEP_MARKER, contains_spec in H. congruence.
Qed.

(** ** The separation of body and attachments *)

Lemma enumerate_from_index {A} (l : list A) : forall start,
  List.map fst (enumerate_from start l) = seq start (length l).
Proof.
  induction l as [|x l IH]; intros start; simpl; [reflexivity|]. now rewrite IH.
Qed.

Lemma enumerate_from_length {A} (l : list A) : forall start,
  length (enumerate_from start l) = length l.
Proof.
  induction l as [|x l IH]; intros start; simpl; [reflexivity|]. now rewrite IH.
Qed.

Lemma merge_meta_index atts : forall metas,
  List.map sa_index (merge_meta atts metas) = List.map sa_index atts.
Proof.
  induction atts as [|a atts IH]; intros [|m metas]; simpl; try reflexivity.
  now rewrite IH.
Qed.

Lemma separate_body_spec (body_text : str) :
  List.map sa_index (snd (separate_body body_text))
  = seq 1 (length (snd (separate_body body_text)))
  /\ (snd (separate_body body_text) <> [] <-> occurs SEP body_text)
  /\ ~ occurs SEP (fst (separate_body body_text)).
Proof.
  unfold separate_body. destruct (contains MARKER body_text) eqn:Hm.
  - destruct (find_sub SEP body_text) as [[b a]|] eqn:Hf.
    + rewrite (split_cut _ _ _ _ SEP_nonempty Hf). cbn [fst snd].
      split; [|split].
      * rewrite List.map_map, length_map, enumerate_from_length.
        rewrite <- (enumerate_from_index (split SEP a) 1).
        apply List.map_ext. reflexivity.
      * split.
        -- intros _. exists b, a. now apply find_sub_Some.
        -- intros _ H. apply (f_equal (@length separated_attachment)) in H.
           rewrite length_map in H.
           pose proof (split_nonempty SEP a) as Hne.
           destruct (split SEP a); [congruence|discriminate].
      * intros H. apply occurs_strip in H.
        eapply find_sub_before; [apply SEP_nonempty|exact Hf|exact H].
    + rewrite (split_no_cut _ _ Hf). cbn [fst snd enumerate_from List.map].
      split; [reflexivity|]. split.
      * split; [congruence|]. intros H. now apply find_sub_None in Hf.
      * intros H. apply occurs_strip in H. now apply find_sub_None in Hf.
  - cbn [fst snd]. split; [reflexivity|].
    assert (Hno : ~ occurs SEP body_text).
    { intros H. apply occurs_SEP_MARKER, contains_spec in H. congruence. }
    split; [|exact Hno]. split; [congruence|]. intros H. contradiction.
Qed.

Lemma separation_spec (data : email_data) (email_id : str) :
  exists r,
    get_email_body_and_attachments_separately (Some data) email_id = inr r
    /\ se_email_id r = email_id
    /\ List.map sa_index (se_attachments r) = seq 1 (length (se_attachments r))
    /\ (se_has_attachments r = true <-> occurs SEP (get_or_empty (ed_body data)))
    /\ (se_attachments r <> [] <-> occurs SEP (get_or_empty (ed_body data)))
    /\ ~ occurs SEP (se_body_text r).
Proof.
  unfold get_email_body_and_attachments_separately.
  pose proof (separate_body_spec (get_or_empty (ed_body data))) as (Hidx & Hne & Hno).
  destruct (separate_body (get_or_empty (ed_body data))) as [body_only atts].
  cbn [fst snd] in *.
  set (merged := match ed_attachments data with
                 | Some metas => merge_meta atts metas
                 | None => atts
                 end).
  assert (Hm : List.map sa_index merged = List.map sa_index atts).
  { subst merged. destruct (ed_attachments data); [apply merge_meta_index|reflexivity]. }
  assert (Hl : length merged = length atts).
  { apply (f_equal (@length nat)) in Hm. now rewrite !length_map in Hm. }
  eexists. split; [reflexivity|]. cbn. split; [reflexivity|].
  split; [now rewrite Hm, Hl|]. fold merged. rewrite <- Hne.
  split; [|split; [|exact Hno]];
    destruct merged, atts; simpl in Hl; try discriminate; split; congruence.
Qed.

(** For every message that can be viewed,
    [get_email_body_and_attachments_separately] returns a result and no
    error.  The attachments are numbered from 1 without gap;
    [has_attachments] says exactly whether the separator occurs in the
    stored body, whatever the list of files of the message; and the body
    text returned holds no separator. *)
Theorem separation_is_driven_by_the_body (data : email_data) (email_id : str) :
  exists r,
    get_email_body_and_attachments_separately (Some data) email_id = inr r
    /\ se_email_id r = email_id
    /\ List.map sa_index (se_attachments r) = seq 1 (length (se_attachments r))
    /\ (se_has_attachments r = true <-> occurs SEP (get_or_empty (ed_body data)))
    /\ ~ occurs SEP (se_body_text r).
Proof.
  destruct (separation_spec data email_id) as (r & H1 & H2 & H3 & H4 & _ & H6).
  exists r. repeat (split; [assumption|]). exact H6.
Qed.

(** When the parser reports extracted attachment texts, the separation of
    the body text it returned reports attachments: the marker blocks the
    parser appends are found again by the summarizer. *)
Theorem extracted_attachments_are_found_again (E : parser_env) (download_path : str)
    (fs : filesystem) (msg : message_body) (email_id : str) (data : email_data) :
  let parsed :=
    snd (parse_email_body_and_attachments E download_path fs msg email_id true) in
  pc_has_extracted_attachments parsed = true ->
  ed_body data = Some (pc_body_text parsed) ->
  exists r,
    get_email_body_and_attachments_separately (Some data) email_id = inr r
    /\ se_has_attachments r = true
    /\ se_attachments r <> [].
Proof.
  intros parsed Hflag Hbody.
  destruct (separation_spec data email_id) as (r & Hr & _ & _ & Hhas & Hatts & _).
  exists r. split; [exact Hr|].
  assert (Hocc : occurs SEP (get_or_empty (ed_body data))).
  { rewrite Hbody. cbn [get_or_empty]. subst parsed.
    unfold parse_email_body_and_attachments in *. cbn [snd pc_body_text] in *.
    cbn [pc_has_extracted_attachments] in Hflag.
    pose proof (walk_message_blocks E download_path fs msg email_id) as Hblocks.
    cbv zeta in Hblocks.
    destruct (w_attachment_texts (walk_message E download_path fs msg email_id true))
      as [|t texts] eqn:Ht; [discriminate|].
    unfold combine_text. apply occurs_app_r.
    destruct (w_attachments (walk_message E download_path fs msg email_id true))
      as [|a atts]; [discriminate|].
    simpl in Hblocks. injection Hblocks as -> _.
    assert (Hb : occurs SEP (block_of a)).
    { unfold block_of. rewrite block_eq. exists [], (raw (att_filename a)
        (default [] (att_extracted_text a))). reflexivity. }
    destruct texts as [|t2 texts]; [exact Hb|].
    rewrite join_cons by discriminate. now apply occurs_app_l. }
  split; [now apply Hhas|now apply Hatts].
Qed.

Lemma extracted_attachments_are_found_again_witness :
  exists r,
    get_email_body_and_attachments_separately (Some example_view) (lit "7") = inr r
    /\ se_has_attachments r = true
    /\ se_attachments r <> [].
Proof.
  apply (extracted_attachments_are_found_again (example_env None) (lit "downloads") ∅
           (msg_body example_message) (lit "7") example_view).
  - vm_compute. reflexivity.
  - reflexivity.
Defined.

End SummarizerFacts.

Section ReportedFailures.

Import Parser Summarizer LanguageModel Examples.

Lemma reader_marker_recognised (text : str) :
  reader_marker text ->
  (startswith (lit "[") text && contains FAILED_WORD text)
  || contains NOT_SUPPORTED_WORDING text = true.
Proof.
  intros [kind e Hk| |ext].
  - apply orb_true_iff. left. apply andb_true_iff. split.
    + unfold fmt_failed. apply startswith_app.
    + apply contains_spec. unfold fmt_failed. apply occurs_app_r, occurs_app_l.
      simpl in Hk.
      repeat destruct Hk as [<-|Hk]; try contradiction;
        apply contains_spec; vm_compute; reflexivity.
  - vm_compute. reflexivity.
  - apply orb_true_iff. right. apply unsupported_has_wording.
Qed.

(** A failure marker of a reader of [extract_text_from_file] is never
    summarized: [summarize_downloaded_attachment] returns it as the error
    of the result, without a summary, whatever the language model would
    answer. *)
Theorem failure_markers_are_reported (count_tokens : str -> nat)
    (summarize_chunk : str -> str -> str) (max_tokens : nat) (E : parser_env)
    (getsize : str -> outcome nat) (attachment_path summary_type text : str) :
  extract_text_from_file E attachment_path = Returned text ->
  reader_marker text ->
  summarize_downloaded_attachment count_tokens summarize_chunk max_tokens
    (extract_text_from_file E) getsize attachment_path summary_type
  = inl text.
Proof.
  intros Hext Hmark. unfold summarize_downloaded_attachment.
  rewrite Hext. cbn [mbind outcome_bind].
  now rewrite (reader_marker_recognised text Hmark).
Qed.

Lemma failure_markers_are_reported_witness :
  summarize_downloaded_attachment (@length N) (fun text _ => text) 4096
    (extract_text_from_file (example_env None)) (fun _ => Returned 4%nat)
    (lit "downloads/email_7/scan.pdf") (lit "brief")
  = inl (lit "[PDF 텍스트 추출 실패: EOF marker not found]").
Proof.
  apply (failure_markers_are_reported (@length N) (fun text _ => text) 4096
           (example_env None) (fun _ => Returned 4%nat)
           (lit "downloads/email_7/scan.pdf") (lit "brief")).
  - vm_compute. reflexivity.
  - apply (reader_marker_failed PDF_FAILED
             (Exn OtherError (lit "EOF marker not found"))).
    now left.
Defined.

(** A failure of the language model is not an error of [summarize_file]:
    for a file that fits in one call, the result is a summary record whose
    summary is the failure text of [summarize_chunk], with its token count
    and a compression ratio. *)
Theorem model_failure_is_a_summary (count_tokens : str -> nat)
    (chat : str -> str -> outcome str) (max_tokens : nat)
    (read_text : str -> str -> outcome str) (file_path summary_type text : str)
    (e : exn) :
  read_text_file read_text file_path summarizer_encodings = Returned text ->
  (0 < count_tokens text)%nat ->
  (Z.of_nat (count_tokens text) <= Z.of_nat max_tokens - 1000)%Z ->
  chat SYSTEM_MESSAGE (prompt_of summary_type ++ [NL; NL] ++ text) = Raised e ->
  exists r,
    summarize_file count_tokens (summarize_chunk chat) max_tokens read_text
      file_path summary_type
    = inr r
    /\ fsum_summary r = SUMMARY_FAILED ++ exn_text e
    /\ fsum_summary_tokens r = count_tokens (SUMMARY_FAILED ++ exn_text e)
    /\ fsum_original_tokens r = count_tokens text.
Proof.
  intros Hread Hpos Hfit Hchat. unfold summarize_file. rewrite Hread.
  cbn [mbind outcome_bind]. unfold final_summary_of.
  destruct (Z.of_nat max_tokens - 1000 <? Z.of_nat (count_tokens text))%Z eqn:Hcmp;
    [apply Z.ltb_lt in Hcmp; lia|].
  unfold summarize_chunk at 1 2 3. rewrite Hchat.
  unfold compression_ratio. destruct (count_tokens text) eqn:Hn; [lia|].
  eexists. split; [reflexivity|]. repeat split.
Qed.

Lemma model_failure_is_a_summary_witness :
  exists r,
    summarize_file (@length N)
      (summarize_chunk (fun _ _ => Raised (Exn OtherError (lit "rate limit"))))
      4096 (fun _ _ => Returned (lit "Hello")) (lit "note.txt") (lit "brief")
    = inr r
    /\ fsum_summary r = lit "요약 실패: rate limit".
Proof.
  destruct (model_failure_is_a_summary (@length N)
              (fun _ _ => Raised (Exn OtherError (lit "rate limit"))) 4096
              (fun _ _ => Returned (lit "Hello")) (lit "note.txt") (lit "brief")
              (lit "Hello") (Exn OtherError (lit "rate limit")) eq_refl)
    as (r & Hr & Hs & _); [vm_compute; lia|vm_compute; discriminate|reflexivity|].
  exists r. split; [exact Hr|]. rewrite Hs. vm_compute. reflexivity.
Defined.

End ReportedFailures.

(** * The accounting of a sent message *)

Section SenderFacts.

Import Sender Examples MoreExamples.

Lemma add_attachment_flag E msg out file_path :
  let res := _add_attachment E msg out file_path in
  snd res = attaches E file_path
  /\ length (snd (fst res)) = S (length out)
  /\ length (mm_attached (fst (fst res)))
     = (length (mm_attached msg) + if attaches E file_path then 1 else 0)%nat.
Proof.
  unfold attaches, _add_attachment. destruct (isfile E file_path); simpl negb; cbv iota.
  - match goal with
    | |- context [match ?m with Returned _ => _ | Raised _ => _ end] =>
        destruct m as [[types attachment]|e]
    end; cbn [fst snd attach mm_attached blank_message];
      rewrite !length_app; cbn [length]; repeat split; lia.
  - cbn [fst snd]. rewrite !length_app. cbn [length]. repeat split; lia.
Qed.

Lemma add_attachments_fold E attachments : forall msg out files,
  let res :=
    fold_left
      (fun '(msg, out, attached_files) file_path =>
         match _add_attachment E msg out file_path with
         | (msg', out', true) => (msg', out', attached_files ++ [path_name file_path])
         | (msg', out', false) => (msg', out', attached_files)
         end)
      attachments (msg, out, files) in
  snd res = files ++ List.map path_name (List.filter (attaches E) attachments)
  /\ length (snd (fst res)) = (length out + length attachments)%nat
  /\ length (mm_attached (fst (fst res)))
     = (length (mm_attached msg) + length (List.filter (attaches E) attachments))%nat.
Proof.
  induction attachments as [|p attachments IH]; intros msg out files.
  - simpl. rewrite app_nil_r. repeat split; lia.
  - cbn [fold_left List.filter].
    pose proof (add_attachment_flag E msg out p) as (Hflag & Hout & Hmsg).
    destruct (_add_attachment E msg out p) as [[msg' out'] flag].
    cbn [fst snd] in *. rewrite <- Hflag in *. destruct flag.
    + specialize (IH msg' out' (files ++ [path_name p])).
      cbv zeta in IH. destruct IH as (H1 & H2 & H3).
      rewrite H1, H2, H3, Hout, Hmsg. simpl. rewrite <- app_assoc.
      repeat split; simpl; lia.
    + specialize (IH msg' out' files).
      cbv zeta in IH. destruct IH as (H1 & H2 & H3).
      rewrite H1, H2, H3, Hout, Hmsg. repeat split; simpl; lia.
Qed.

(** The accounting of [send_email] is exact for every list of paths: one
    line is printed per path; and when the result is a success, its
    attachment names are the names of the paths that could be attached, in
    the order given and with repetitions, its attachment count is their
    number, and its recipient count adds up the three address lists.  The
    loop attaches to the message one part per name it reports. *)
Theorem send_email_accounting (E : sender_env) (username : str)
    (to_emails : list str) (subject body : str)
    (cc_emails bcc_emails attachments : option (list str)) (is_html use_ssl : bool) :
  let res :=
    send_email E username to_emails subject body cc_emails bcc_emails attachments
      is_html use_ssl in
  let kept := List.filter (attaches E) (list_or_empty attachments) in
  length (snd res) = length (list_or_empty attachments)
  /\ (forall r, fst res = SendOk r ->
        so_attachments r = List.map path_name kept
        /\ so_attachment_count r = length kept
        /\ so_recipients r
           = (length to_emails + length (list_or_empty cc_emails)
              + length (list_or_empty bcc_emails))%nat)
  /\ (forall msg out,
        let added := add_attachments E msg out (list_or_empty attachments) in
        length (mm_attached (fst (fst added)))
        = (length (mm_attached msg) + length (snd added))%nat
        /\ snd added = List.map path_name kept).
Proof.
  intros res kept. subst res kept. unfold send_email.
  set (msg0 := {| mm_from := username; mm_to := _; mm_subject := _; mm_cc := _;
                  mm_body := _; mm_body_subtype := _; mm_attached := _ |}).
  pose proof (add_attachments_fold E (list_or_empty attachments) msg0 [] [])
    as (H1 & H2 & H3).
  fold (add_attachments E msg0 [] (list_or_empty attachments)) in H1, H2, H3.
  destruct (add_attachments E msg0 [] (list_or_empty attachments))
    as [[msg out] files].
  cbn [fst snd] in *. simpl in H1.
  split; [|split].
  - destruct (transmit E use_ssl msg _); exact H2.
  - intros r. destruct (transmit E use_ssl msg _); cbn [fst]; [|discriminate].
    intros [= <-]. cbn. rewrite H1, length_map, !length_app.
    repeat split; lia.
  - intros msg1 out1.
    pose proof (add_attachments_fold E (list_or_empty attachments) msg1 out1 [])
      as (K1 & K2 & K3).
    fold (add_attachments E msg1 out1 (list_or_empty attachments)) in K1, K2, K3.
    cbv zeta. simpl in K1. rewrite K3, K1, length_map. split; reflexivity.
Qed.

(** A file that exists is not always attached.  A file whose type is
    guessed as text is decoded as UTF-8 before it is wrapped; when its
    bytes are not UTF-8, [_add_attachment] prints the failure, leaves the
    message as it was and returns false, so that [send_email] sends the
    message without the file and counts no attachment for it. *)
Theorem undecodable_text_file_is_dropped (E : sender_env) (msg : mime_message)
    (out : log) (file_path sub_type : str) (file_data : list N) (e : exn) :
  isfile E file_path = true ->
  guess_type E file_path = Some (lit "text/" ++ sub_type) ->
  read_bytes E file_path = Returned file_data ->
  utf8_decode E file_data = Raised e ->
  _add_attachment E msg out file_path
  = (msg, out ++ [ADD_FAILED ++ file_path ++ lit "): " ++ exn_text e], false)
  /\ attaches E file_path = false
  /\ forall username to_emails subject body is_html use_ssl,
       (forall m recipients, transmit E use_ssl m recipients = Returned tt) ->
       exists r line,
         send_email E username to_emails subject body None None (Some [file_path])
           is_html use_ssl
         = (SendOk r, [line])
         /\ so_attachment_count r = 0%nat
         /\ so_attachments r = [].
Proof.
  intros Hfile Hguess Hread Hdecode.
  assert (Hdetect : _detect_mime_type E file_path = Returned (lit "text", sub_type)).
  { unfold _detect_mime_type. rewrite Hguess.
    change (lit "text/" ++ sub_type) with (lit "text" ++ SLASH :: sub_type).
    cbn [split_max]. rewrite find_sub_char; [reflexivity|].
    vm_compute. intuition discriminate. }
  assert (Hadd : forall m o,
            _add_attachment E m o file_path
            = (m, o ++ [ADD_FAILED ++ file_path ++ lit "): " ++ exn_text e], false)).
  { intros m o. unfold _add_attachment. rewrite Hfile. simpl negb. cbv iota.
    rewrite Hdetect. cbn [mbind outcome_bind]. rewrite Hread.
    cbn [mbind outcome_bind fst snd]. unfold wrap_attachment.
    change (str_eqb (lit "text") (lit "text")) with true. cbv iota.
    rewrite Hdecode. reflexivity. }
  split; [apply Hadd|]. split; [unfold attaches; now rewrite Hadd|].
  intros username to_emails subject body is_html use_ssl Hsend.
  unfold send_email, add_attachments. cbn [list_or_empty fold_left].
  rewrite Hadd, Hsend. eexists _, _. split; [reflexivity|]. split; reflexivity.
Qed.

Lemma undecodable_text_file_is_dropped_witness :
  exists r line,
    send_email latin1_sender (lit "alice@naver.com") [lit "bob@example.com"]
      (lit "hello") (lit "see attached") None None (Some [lit "notes.txt"]) false false
    = (SendOk r, [line])
    /\ so_attachment_count r = 0%nat
    /\ so_attachments r = [].
Proof.
  destruct (undecodable_text_file_is_dropped latin1_sender blank_message []
              (lit "notes.txt") (lit "plain") [99; 97; 102; 233]
              (Exn UnicodeDecodeError (lit "invalid continuation byte"))
              eq_refl eq_refl eq_refl eq_refl)
    as (_ & _ & H).
  apply H. reflexivity.
Defined.

End SenderFacts.

(** * Recipients given as one string *)

Section RecipientFacts.

Import Recipients.

Lemma strip_after_space a : strip (SPACE :: a) = strip a.
Proof. reflexivity. Qed.

Lemma split_comma_cons (a rest : str) :
  ~ In COMMA a -> split [COMMA] (a ++ COMMA :: rest) = a :: split [COMMA] rest.
Proof.
  intros Ha. apply split_cut; [discriminate|]. now apply find_sub_char.
Qed.

Lemma split_comma_none (a : str) : ~ In COMMA a -> split [COMMA] a = [a].
Proof.
  intros Ha. apply split_absent. intros (u & v & ->). apply Ha.
  rewrite !in_app_iff. right. left. now left.
Qed.

Lemma split_addresses_join (l : list str) : forall p,
  l <> [] ->
  Forall (fun a => ~ In COMMA a /\ strip a = a) l ->
  ~ In COMMA p -> (forall a, strip (p ++ a) = strip a) ->
  split_addresses (p ++ join (lit ", ") l) = l.
Proof.
  unfold split_addresses.
  induction l as [|a l IH]; intros p Hne Hall Hp Hstrip; [congruence|].
  apply Forall_cons_1 in Hall as [[Ha Hs] Hall]. destruct l as [|b l].
  - cbn [join]. rewrite split_comma_none.
    + simpl. now rewrite Hstrip, Hs.
    + rewrite in_app_iff. tauto.
  - rewrite join_cons by discriminate.
    change (lit ", " ++ join (lit ", ") (b :: l))
      with (COMMA :: [SPACE] ++ join (lit ", ") (b :: l)).
    rewrite app_assoc, split_comma_cons by (rewrite in_app_iff; tauto).
    cbn [List.map]. rewrite Hstrip, Hs. f_equal.
    apply IH; [discriminate|assumption| |].
    + simpl. intros [H|[]]. discriminate.
    + intros x. apply strip_after_space.
Qed.

(** The facade's [send_email] splits a string of addresses at the commas
    and strips each piece.  This undoes the joining with [", "] the sender
    uses for the header of the recipients: a non-empty list of addresses
    without comma and without white space at their ends comes back
    unchanged. *)
Theorem split_addresses_undoes_join (l : list str) :
  l <> [] ->
  Forall (fun a => ~ In COMMA a /\ strip a = a) l ->
  address_list (inl (join (lit ", ") l)) = l.
Proof.
  intros Hne Hall. cbn [address_list].
  apply (split_addresses_join l [] Hne Hall); [intros []|reflexivity].
Qed.

Lemma split_addresses_undoes_join_witness :
  address_list (inl (lit "a@example.com, b@example.com"))
  = [lit "a@example.com"; lit "b@example.com"].
Proof.
  apply (split_addresses_undoes_join [lit "a@example.com"; lit "b@example.com"]);
    [discriminate|].
  repeat constructor; try (vm_compute; reflexivity);
    vm_compute; intuition discriminate.
Defined.

(** The splitting never gives an empty list of recipients: a string
    without comma, even an empty or blank one, gives exactly one address,
    its stripped text, so that the empty string stands for one empty
    address; and every address returned is stripped. *)
Theorem split_addresses_never_empty (to_emails : str) :
  split_addresses to_emails <> []
  /\ Forall (fun a => strip a = a) (split_addresses to_emails)
  /\ (~ In COMMA to_emails -> split_addresses to_emails = [strip to_emails]).
Proof.
  unfold split_addresses. split; [|split].
  - pose proof (split_nonempty [COMMA] to_emails).
    destruct (split [COMMA] to_emails); [congruence|discriminate].
  - induction (split [COMMA] to_emails) as [|x l IH]; constructor; [|exact IH].
    apply strip_idem.
  - intros H. now rewrite split_comma_none.
Qed.

End RecipientFacts.

(** * More on the workflow of the facade *)

Section WorkflowFacts.

Import Suite Examples MoreExamples.

Lemma summarize_emails_length E emails summary_type summarized :
  summarize_emails E emails summary_type = Returned summarized ->
  length summarized = length emails.
Proof.
  unfold summarize_emails. destruct (negb (summarizer_ready E)); [discriminate|].
  intros [= <-]. apply length_map.
Qed.

Lemma filter_length_le {A} (f : A -> bool) (l : list A) :
  (length (List.filter f l) <= length l)%nat.
Proof. induction l as [|x l IH]; simpl; [lia|]. destruct (f x); simpl; lia. Qed.

(** [fetch_summarize_send] reports success as soon as one message was
    summarized and [send_email] returned, also when what [send_email]
    returned is a failure: the failed transmission is found only in the
    [send_result] of the result. *)
Theorem workflow_success_despite_failed_send (E : suite_env)
    (to_emails : list str) (subject_template summary_type : str) (limit : nat)
    (criteria : str) (cc_emails attachments : option (list str)) (is_html : bool)
    (emails : list fetched_email) (summarized : list summarized_email)
    (error : str) :
  fetch_emails E limit criteria = Returned emails ->
  summarize_emails E emails summary_type = Returned summarized ->
  List.filter has_summary summarized <> [] ->
  (forall call, send_email E call = Returned (Sender.SendFailed error)) ->
  exists r call,
    fetch_summarize_send E to_emails subject_template summary_type limit criteria
      cc_emails attachments is_html
    = (WorkflowOk r, [call])
    /\ wf_send_result r = Sender.SendFailed error
    /\ Sender.success (wf_send_result r) = false
    /\ wf_emails_fetched r = length emails
    /\ wf_emails_summarized r = length (List.filter has_summary summarized).
Proof.
  intros Hfetch Hsum Hsome Hsend. unfold fetch_summarize_send. rewrite Hfetch.
  destruct emails as [|email emails].
  { unfold summarize_emails in Hsum.
    destruct (negb (summarizer_ready E)); [discriminate|].
    injection Hsum as <-. simpl in Hsome. congruence. }
  rewrite Hsum.
  destruct (List.filter has_summary summarized) as [|s l] eqn:Hf; [congruence|].
  rewrite Hsend. eexists _, _. split; [reflexivity|]. repeat split.
Qed.

Lemma workflow_success_despite_failed_send_witness :
  exists r call,
    fetch_summarize_send busy_suite [lit "bob@example.com"] (lit "digest")
      (lit "brief") 10 (lit "ALL") None None false
    = (WorkflowOk r, [call])
    /\ wf_send_result r = Sender.SendFailed Sender.AUTH_FAILED
    /\ Sender.success (wf_send_result r) = false.
Proof.
  destruct (workflow_success_despite_failed_send busy_suite [lit "bob@example.com"]
              (lit "digest") (lit "brief") 10 (lit "ALL") None None false
              [one_email] _ Sender.AUTH_FAILED eq_refl eq_refl)
    as (r & call & H1 & H2 & H3 & _).
  - discriminate.
  - reflexivity.
  - exists r, call. repeat split; assumption.
Defined.

(** Whenever [fetch_summarize_send] reports success, it has called
    [send_email] exactly once, with the recipients, the subject and the
    attachments it was given, and the counts of the result are
    consistent: at least one message was summarized, and no more than
    were fetched.  In every case it calls [send_email] at most once. *)
Theorem workflow_accounting (E : suite_env)
    (to_emails : list str) (subject_template summary_type : str) (limit : nat)
    (criteria : str) (cc_emails attachments : option (list str)) (is_html : bool) :
  let res :=
    fetch_summarize_send E to_emails subject_template summary_type limit criteria
      cc_emails attachments is_html in
  (length (snd res) <= 1)%nat
  /\ forall r, fst res = WorkflowOk r ->
       (exists call,
          snd res = [call]
          /\ sc_to call = to_emails /\ sc_subject call = subject_template
          /\ sc_cc call = cc_emails /\ sc_attachments call = attachments
          /\ send_email E call = Returned (wf_send_result r))
       /\ (1 <= wf_emails_summarized r <= wf_emails_fetched r)%nat
       /\ wf_summary_type r = summary_type.
Proof.
  intros res. subst res. unfold fetch_summarize_send.
  destruct (fetch_emails E limit criteria) as [[|email emails]|e];
    try (split; [simpl; lia|discriminate]).
  destruct (summarize_emails E (email :: emails) summary_type) as [summarized|e] eqn:Hsum;
    try (split; [simpl; lia|discriminate]).
  pose proof (summarize_emails_length _ _ _ _ Hsum) as Hlen.
  pose proof (filter_length_le has_summary summarized) as Hle.
  destruct (List.filter has_summary summarized) as [|s l] eqn:Hf;
    try (split; [simpl; lia|discriminate]).
  destruct (send_email E _) as [send_result|e] eqn:Hsend;
    [|split; [simpl; lia|discriminate]].
  split; [simpl; lia|]. cbn [fst snd]. intros r [= <-].
  split; [|split; [|reflexivity]].
  - eexists. split; [reflexivity|]. cbn. repeat (split; [reflexivity|]). exact Hsend.
  - cbn [wf_emails_summarized wf_emails_fetched]. simpl length in *. lia.
Qed.

End WorkflowFacts.

(** * The loop of the batch processor *)

Section BatchFacts.

Import Suite BatchProcessor Examples MoreExamples.

Lemma batch_loop_runs_on (E : suite_env)
    (write_batch : str -> nat -> list summarized_email -> outcome unit)
    (batch_size : nat) (summary_type output_dir : str) (emails : list fetched_email) :
  parser_connected E = true -> summarizer_ready E = true ->
  get_emails E (lit "ALL") batch_size = Returned emails -> emails <> [] ->
  (forall dir n batch, write_batch dir n batch = Returned tt) ->
  forall fuel st,
    batch_loop E write_batch fuel batch_size summary_type output_dir st = None.
Proof.
  intros Hc Hr Hget Hne Hw. induction fuel as [|fuel IH]; intros st; [reflexivity|].
  cbn [batch_loop]. unfold batch_step, fetch_emails, summarize_emails.
  rewrite Hc, Hr, Hget. cbn [negb mbind outcome_bind].
  destruct emails as [|email emails]; [congruence|].
  rewrite Hw. apply IH.
Qed.

(** [process_large_mailbox] fetches with the same limit and the same
    criteria in every turn of its loop and leaves the loop only on an
    empty fetch or on an exception.  So, while the mailbox answers the
    fetch with the same messages, at least one, and nothing raises, the
    loop never ends: whatever the number of turns allowed, the method has
    not returned.  With an empty mailbox it returns at once, having
    processed nothing. *)
Theorem process_large_mailbox_does_not_advance (E : suite_env)
    (default_output_dir : str) (make_output_dir : str -> outcome unit)
    (write_batch : str -> nat -> list summarized_email -> outcome unit)
    (write_summary : str -> summary_data -> outcome unit)
    (batch_size : nat) (summary_type : str) (output_dir : option str)
    (emails : list fetched_email) :
  parser_connected E = true -> summarizer_ready E = true ->
  get_emails E (lit "ALL") batch_size = Returned emails ->
  (forall dir, make_output_dir dir = Returned tt) ->
  (forall dir n batch, write_batch dir n batch = Returned tt) ->
  (forall dir summary, write_summary dir summary = Returned tt) ->
  (emails <> [] ->
   forall fuel,
     process_large_mailbox E default_output_dir make_output_dir write_batch
       write_summary fuel batch_size summary_type output_dir
     = None)
  /\ (emails = [] ->
      forall fuel,
      exists r,
        process_large_mailbox E default_output_dir make_output_dir write_batch
          write_summary (S fuel) batch_size summary_type output_dir
        = Some (BatchOk r)
        /\ bo_processed_count r = 0%nat
        /\ total_batches (bo_summary r) = 0%nat).
Proof.
  intros Hc Hr Hget Hmk Hw Hs. split.
  - intros Hne fuel. unfold process_large_mailbox. rewrite Hmk.
    now rewrite (batch_loop_runs_on E write_batch batch_size summary_type _ emails).
  - intros -> fuel. unfold process_large_mailbox. rewrite Hmk.
    cbn [batch_loop]. unfold batch_step, fetch_emails.
    rewrite Hc, Hget. cbn [negb mbind outcome_bind]. rewrite Hs.
    eexists. split; [reflexivity|]. split; reflexivity.
Qed.

Lemma process_large_mailbox_does_not_advance_witness :
  process_large_mailbox busy_suite (lit "batch_processing_20250101_000000")
    (fun _ => Returned tt) (fun _ _ _ => Returned tt) (fun _ _ => Returned tt)
    1000 50 (lit "brief") None
  = None.
Proof.
  destruct (process_large_mailbox_does_not_advance busy_suite
              (lit "batch_processing_20250101_000000")
              (fun _ => Returned tt) (fun _ _ _ => Returned tt) (fun _ _ => Returned tt)
              50 (lit "brief") None [one_email] eq_refl eq_refl eq_refl
              (fun _ => eq_refl) (fun _ _ _ => eq_refl) (fun _ _ => eq_refl))
    as [H _].
  apply H. discriminate.
Defined.

End BatchFacts.

(** * The list of messages of the web interface *)

Section WebAppFacts.

Import Parser Mailbox WebApp Examples.

Lemma download_dict_keys (r : email_record) :
  download_dict r !! lit "attachment_count" = None
  /\ download_dict r !! lit "body" = Some (PStr (em_body r))
  /\ download_dict r !! lit "id" = Some (PStr (em_id r))
  /\ download_dict r !! lit "attachments" = Some (PAttachments (em_attachments r)).
Proof.
  unfold download_dict. repeat split.
Qed.

Lemma parse_dict_keys (p : parsed_email) :
  parse_dict p !! lit "attachment_count" = Some (PInt (Z.of_nat (pe_attachment_count p)))
  /\ parse_dict p !! lit "body" = Some (PStr (pe_body p)).
Proof.
  unfold parse_dict. repeat split.
Qed.

Lemma email_list_entry_download (r : email_record) :
  exists entry,
    email_list_entry (download_dict r) = Returned entry
    /\ le_attachment_count entry = PInt 0
    /\ le_has_attachments entry = false
    /\ le_id entry = PStr (em_id r)
    /\ le_body_preview entry = PStr (body_preview (em_body r)).
Proof.
  destruct (download_dict_keys r) as (Hcount & Hbody & Hid & _).
  unfold email_list_entry, get. rewrite Hcount, Hbody, Hid.
  eexists. split; [reflexivity|]. repeat split.
Qed.

Lemma get_emails_downloaded E connected download_path extract :
  forall ids fs emails,
    Forall (fun e => exists r, e = Downloaded r) emails ->
    Forall (fun e => exists r, e = Downloaded r)
      (snd (fold_left (get_emails_step E connected download_path true extract)
              ids (fs, emails))).
Proof.
  induction ids as [|email_id ids IH]; intros fs emails Hall; [exact Hall|].
  cbn [fold_left]. unfold get_emails_step at 2.
  destruct (download_email_full E connected download_path fs email_id extract)
    as [fs' [r|]]; apply IH; [|exact Hall].
  apply Forall_app. split; [exact Hall|]. constructor; [eauto|constructor].
Qed.

(** The web list of messages never shows an attachment.  The route
    fetches with [download_full=True], and the dictionary
    [download_email_full] returns has the key [attachments] but no key
    [attachment_count], which is the key the route reads: for every
    mailbox, every entry of the list has the attachment count 0 and
    [has_attachments] false, whatever the attachments of the message.  The
    dictionary of [parse_email] has the key, and its count is shown. *)
Theorem web_list_never_shows_attachments (E : parser_env)
    (imap_search : str -> outcome (option (list str)))
    (connected : bool) (download_path : str) (fs : filesystem) (criteria : str)
    (limit : Z) (extract_attachment_text : bool) :
  let emails :=
    snd (get_emails E imap_search connected download_path fs criteria limit true
           extract_attachment_text) in
  (exists entries,
     email_list (List.map dict_of emails) = Returned entries
     /\ length entries = length emails
     /\ Forall (fun entry =>
                  le_attachment_count entry = PInt 0
                  /\ le_has_attachments entry = false) entries)
  /\ (forall p, exists entry,
        email_list_entry (parse_dict p) = Returned entry
        /\ le_attachment_count entry = PInt (Z.of_nat (pe_attachment_count p))
        /\ le_has_attachments entry = (0 <? pe_attachment_count p)%nat).
Proof.
  intros emails. split.
  - assert (Hall : Forall (fun e => exists r, e = Downloaded r) emails).
    { subst emails. unfold get_emails. apply get_emails_downloaded. constructor. }
    clearbody emails. induction Hall as [|e emails [r ->] _ IH].
    + exists []. split; [reflexivity|]. split; [reflexivity|constructor].
    + destruct IH as (entries & Hl & Hlen & Hentries).
      destruct (email_list_entry_download r) as (entry & He & Hc & Hh & _).
      exists (entry :: entries). cbn [List.map email_list dict_of].
      rewrite He, Hl. split; [reflexivity|]. split; [simpl; now rewrite Hlen|].
      constructor; [split; assumption|assumption].
  - intros p. destruct (parse_dict_keys p) as (Hcount & Hbody).
    unfold email_list_entry, get. rewrite Hcount, Hbody.
    eexists. split; [reflexivity|]. split; [reflexivity|]. cbn.
    destruct (pe_attachment_count p); reflexivity.
Qed.

(** The preview of a body in the web list has at most 203 characters: a
    body of at most 200 characters is shown as it is, a longer one is cut
    after 200 characters and three dots are appended. *)
Theorem body_preview_bounds (body : str) :
  (length (body_preview body) <= 203)%nat
  /\ take 200 (body_preview body) = take 200 body
  /\ ((length body <= 200)%nat -> body_preview body = body)
  /\ ((200 < length body)%nat -> body_preview body = take 200 body ++ lit "...").
Proof.
  unfold body_preview. destruct (200 <? length body)%nat eqn:Hlen.
  - apply Nat.ltb_lt in Hlen. split; [|split; [|split]].
    + assert (H3 : length (lit "...") = 3%nat) by reflexivity.
      rewrite length_app, length_take, H3. lia.
    + rewrite take_app_le by (rewrite length_take; lia).
      rewrite take_take. f_equal.
    + lia.
    + reflexivity.
  - apply Nat.ltb_ge in Hlen. split; [lia|]. split; [reflexivity|].
    split; [reflexivity|lia].
Qed.

End WebAppFacts.
